(** * PocketDarwin partition discovery: MBR / GPT parsers

    Shallow embedding of
      - [OCMobile/Platform/OpenParitionDxe/Mbr.c]   (module [Mbr])
      - the GPT parser [gpt_parser_aarch64.c]        (module [Gpt])
      - the detection front end [partition_aarch64.c] (module [Partition])
    and the properties of their discovery, validation and recovery
    routines.

    Conventions.
      - [u8], [u16], [u32], [u64] values are [Z] with the wrap-around of
        the C type written out where the C expression can wrap.
      - A buffer is a [list Z] of bytes; packed structures are read
        through it at their byte offsets, little endian (aarch64).
      - The block device is a record of two functions over an abstract
        world [W] (the C [private_data] and whatever the medium holds);
        every call is appended to an I/O log.
      - [alloc_pool] / [free_pool] are placeholders in the sources
        ("implement based on your memory allocator", the body returns
        NULL); they are taken from the platform, as functions over the
        same world.  Statements that need a buffer carry the success of
        the allocation as a hypothesis; [discover_without_memory] shows
        what the placeholder bodies themselves give.
      - A loop whose trip count the code does not bound (the EBR chain
        walk) takes fuel, one unit per trip; [None] is "still running". *)

From stdpp Require Import base numbers list strings.

Local Open Scope Z_scope.

(* ====================================================================== *)
(** ** Machine integers and byte buffers *)

Definition u8  (z : Z) : Z := z mod 2^8.
Definition u16 (z : Z) : Z := z mod 2^16.
Definition u32 (z : Z) : Z := z mod 2^32.
Definition u64 (z : Z) : Z := z mod 2^64.

(** Byte at index [i] of a buffer; positions outside the buffer read 0. *)
Definition byte_at (buf : list Z) (i : Z) : Z :=
  if i <? 0 then 0 else u8 (nth (Z.to_nat i) buf 0).

Definition get_u8 (buf : list Z) (off : Z) : Z := byte_at buf off.

Definition get_u16 (buf : list Z) (off : Z) : Z :=
  Z.lor (byte_at buf off) (Z.shiftl (byte_at buf (off + 1)) 8).

(** [unpack_u32] of Mbr.c: the little-endian 32-bit value at [off]. *)
Definition get_u32 (buf : list Z) (off : Z) : Z :=
  Z.lor (Z.lor (Z.lor (byte_at buf off)
                      (Z.shiftl (byte_at buf (off + 1)) 8))
               (Z.shiftl (byte_at buf (off + 2)) 16))
        (Z.shiftl (byte_at buf (off + 3)) 24).

Definition get_u64 (buf : list Z) (off : Z) : Z :=
  Z.lor (get_u32 buf off) (Z.shiftl (get_u32 buf (off + 4)) 32).

Definition get_bytes (buf : list Z) (off : Z) (n : nat) : list Z :=
  map (fun k => byte_at buf (off + Z.of_nat k)) (seq 0 n).

(** Store of one byte; a store outside the buffer is dropped. *)
Definition set_u8 (buf : list Z) (off : Z) (v : Z) : list Z :=
  if off <? 0 then buf else <[Z.to_nat off := u8 v]> buf.

Definition set_u32 (buf : list Z) (off : Z) (v : Z) : list Z :=
  set_u8 (set_u8 (set_u8 (set_u8 buf off v)
                         (off + 1) (Z.shiftr v 8))
                 (off + 2) (Z.shiftr v 16))
         (off + 3) (Z.shiftr v 24).

Definition set_u64 (buf : list Z) (off : Z) (v : Z) : list Z :=
  set_u32 (set_u32 buf off v) (off + 4) (Z.shiftr v 32).

Definition zero_buffer (size : Z) : list Z := replicate (Z.to_nat size) 0.

(** [memcpy (dest, src, n)]: the first [n] bytes of [dest] become the
    first [n] bytes of [src] (bytes past the end of [src] read 0). *)
Definition memcpy (dest src : list Z) (n : Z) : list Z :=
  resize (Z.to_nat n) 0 src ++ drop (Z.to_nat n) dest.

Definition set_u16 (buf : list Z) (off : Z) (v : Z) : list Z :=
  set_u8 (set_u8 buf off v) (off + 1) (Z.shiftr v 8).

(** The loop of [memcmp] over the bytes still to compare: the difference
    of the first pair that differs, 0 when none does. *)
Fixpoint memcmp_loop (p1 p2 : list Z) : Z :=
  match p1, p2 with
  | a :: p1', b :: p2' => if negb (a =? b) then a - b else memcmp_loop p1' p2'
  | _, _ => 0
  end.

(** [memcmp (s1 + o1, s2 + o2, n)] *)
Definition memcmp (s1 : list Z) (o1 : Z) (s2 : list Z) (o2 : Z) (n : nat) : Z :=
  memcmp_loop (get_bytes s1 o1 n) (get_bytes s2 o2 n).

(* ====================================================================== *)
(** ** Status codes, block device, platform *)

(** The status codes of the three translation units (their enumerations
    agree on the names used by the code below). *)
Inductive status_t : Type :=
  | STATUS_SUCCESS
  | STATUS_ERROR
  | STATUS_NOT_FOUND
  | STATUS_CRC_ERROR
  | STATUS_INVALID_PARAM
  | STATUS_OUT_OF_MEMORY
  | STATUS_OVERLAP
  | STATUS_OUT_OF_RANGE
  | STATUS_MEDIA_CHANGED
  | STATUS_NO_MEDIA
  | STATUS_OUT_OF_RESOURCES.

Definition status_eqb (a b : status_t) : bool :=
  match a, b with
  | STATUS_SUCCESS, STATUS_SUCCESS
  | STATUS_ERROR, STATUS_ERROR
  | STATUS_NOT_FOUND, STATUS_NOT_FOUND
  | STATUS_CRC_ERROR, STATUS_CRC_ERROR
  | STATUS_INVALID_PARAM, STATUS_INVALID_PARAM
  | STATUS_OUT_OF_MEMORY, STATUS_OUT_OF_MEMORY
  | STATUS_OVERLAP, STATUS_OVERLAP
  | STATUS_OUT_OF_RANGE, STATUS_OUT_OF_RANGE
  | STATUS_MEDIA_CHANGED, STATUS_MEDIA_CHANGED
  | STATUS_NO_MEDIA, STATUS_NO_MEDIA
  | STATUS_OUT_OF_RESOURCES, STATUS_OUT_OF_RESOURCES => true
  | _, _ => false
  end.

(** [block_device_t]: geometry and the two function pointers.  The
    functions receive (media_id, offset, size) in bytes and act on the
    world. *)
Record block_device_t (W : Type) : Type := {
  total_sectors : Z;
  block_size : Z;
  media_id : Z;
  read_disk : Z -> Z -> Z -> W -> status_t * list Z * W;
  write_disk : Z -> Z -> Z -> list Z -> W -> status_t * W
}.
Arguments total_sectors {W} _.
Arguments block_size {W} _.
Arguments media_id {W} _.
Arguments read_disk {W} _ _ _ _ _.
Arguments write_disk {W} _ _ _ _ _ _.

(** The allocator the sources leave to the environment.  [alloc_pool]
    answers whether the returned pointer is non-NULL. *)
Record platform_t (W : Type) : Type := {
  alloc_pool : Z -> W -> bool * W;
  free_pool : W -> W
}.
Arguments alloc_pool {W} _ _ _.
Arguments free_pool {W} _ _.

(** Calls made to a device: [read_disk] / [write_disk] (byte offset and
    size) and, for the block interface of partition_aarch64.c,
    [read_blocks] (block address and count). *)
Inductive io_event : Type :=
  | IoRead (offset size : Z)
  | IoWrite (offset size : Z) (data : list Z)
  | IoReadBlocks (lba count : Z).

Definition is_write (e : io_event) : bool :=
  match e with IoWrite _ _ _ => true | _ => false end.

Record machine (W : Type) : Type := {
  world : W;
  io_log : list io_event
}.
Arguments world {W} _.
Arguments io_log {W} _.

Definition writes_of {W} (m : machine W) : list io_event :=
  filter (fun e => is_write e = true) (io_log m).

(** State monad over the machine. *)
Definition M (W A : Type) : Type := machine W -> A * machine W.

Definition ret {W A} (a : A) : M W A := fun m => (a, m).

Definition bind {W A B} (c : M W A) (k : A -> M W B) : M W B :=
  fun m => let (a, m') := c m in k a m'.

Declare Scope io_scope.
Delimit Scope io_scope with io.
Notation "'do' x <- c ; k" := (bind c (fun x => k))
  (at level 10, x name, c at level 100, k at level 200) : io_scope.
Notation "'do' ' p <- c ; k" := (bind c (fun x => match x with p => k end))
  (at level 10, p pattern, c at level 100, k at level 200) : io_scope.
Notation "c ;; k" := (bind c (fun _ => k))
  (at level 100, k at level 200, right associativity) : io_scope.

Section Primitives.
Context {W : Type} (plat : platform_t W).

Definition alloc (size : Z) : M W bool := fun m =>
  let (ok, w) := alloc_pool plat size (world m) in
  (ok, {| world := w; io_log := io_log m |}).

(** [alloc_zero_pool]: [alloc_pool] followed by [memset] on success;
    the buffer it hands out is [zero_buffer size]. *)
Definition alloc_zero (size : Z) : M W bool := alloc size.

Definition free : M W unit := fun m =>
  (tt, {| world := free_pool plat (world m); io_log := io_log m |}).

(** [dev->read_disk (dev, dev->media_id, offset, size, buffer)]: the
    status and the [size] bytes of the buffer afterwards (a byte the
    device does not deliver reads 0). *)
Definition dev_read (dev : block_device_t W) (offset size : Z)
  : M W (status_t * list Z) := fun m =>
  let '(st, data, w) := read_disk dev (media_id dev) offset size (world m) in
  ((st, resize (Z.to_nat size) 0 data),
   {| world := w; io_log := io_log m ++ [IoRead offset size] |}).

(** [dev->write_disk (dev, dev->media_id, offset, size, buffer)]. *)
Definition dev_write (dev : block_device_t W) (offset size : Z)
           (buffer : list Z) : M W status_t := fun m =>
  let data := resize (Z.to_nat size) 0 buffer in
  let (st, w) := write_disk dev (media_id dev) offset size data (world m) in
  (st, {| world := w; io_log := io_log m ++ [IoWrite offset size data] |}).
End Primitives.

(* ====================================================================== *)
(** ** The on-disk MBR layout (declared alike by both sources) *)

Module Layout.

Definition SECTOR_SIZE : Z := 512.
Definition MBR_SIGNATURE : Z := 0xAA55.
Definition MAX_MBR_PARTITIONS : Z := 4.
Definition PMBR_GPT_PARTITION : Z := 0xEE.

Record mbr_partition_entry_t : Type := {
  boot_indicator : Z;
  starting_chs : list Z;
  os_indicator : Z;
  ending_chs : list Z;
  starting_lba : Z;
  size_in_lba : Z
}.

Record master_boot_record_t : Type := {
  boot_code : list Z;
  unique_mbr_signature : Z;
  unknown : Z;
  partition : list mbr_partition_entry_t;
  signature : Z
}.

Definition sizeof_master_boot_record_t : Z := 512.

(** The cast of a raw buffer to [mbr_partition_entry_t] at [off]. *)
Definition as_mbr_partition (buf : list Z) (off : Z) : mbr_partition_entry_t :=
  {| boot_indicator := get_u8 buf off;
     starting_chs := get_bytes buf (off + 1) 3;
     os_indicator := get_u8 buf (off + 4);
     ending_chs := get_bytes buf (off + 5) 3;
     starting_lba := get_u32 buf (off + 8);
     size_in_lba := get_u32 buf (off + 12) |}.

(** The cast [(master_boot_record_t * ) buffer]. *)
Definition as_mbr (buf : list Z) : master_boot_record_t :=
  {| boot_code := get_bytes buf 0 440;
     unique_mbr_signature := get_u32 buf 440;
     unknown := get_u16 buf 444;
     partition := map (fun i => as_mbr_partition buf (446 + 16 * Z.of_nat i))
                      (seq 0 4);
     signature := get_u16 buf 510 |}.

Definition empty_mbr_partition : mbr_partition_entry_t :=
  {| boot_indicator := 0; starting_chs := [0; 0; 0]; os_indicator := 0;
     ending_chs := [0; 0; 0]; starting_lba := 0; size_in_lba := 0 |}.

(** [mbr->partition[i]] *)
Definition partition_at (mbr : master_boot_record_t) (i : nat)
  : mbr_partition_entry_t :=
  nth i (partition mbr) empty_mbr_partition.

End Layout.

(* ====================================================================== *)
(** ** Mbr.c *)

Module Mbr.
Import Layout.

Definition PARTITION_TYPE_EMPTY : Z := 0x00.
Definition PARTITION_TYPE_FAT12 : Z := 0x01.
Definition PARTITION_TYPE_FAT16_SMALL : Z := 0x04.
Definition PARTITION_TYPE_EXTENDED : Z := 0x05.
Definition PARTITION_TYPE_FAT16 : Z := 0x06.
Definition PARTITION_TYPE_NTFS : Z := 0x07.
Definition PARTITION_TYPE_FAT32 : Z := 0x0B.
Definition PARTITION_TYPE_FAT32_LBA : Z := 0x0C.
Definition PARTITION_TYPE_FAT16_LBA : Z := 0x0E.
Definition PARTITION_TYPE_EXTENDED_LBA : Z := 0x0F.
Definition PARTITION_TYPE_LINUX_SWAP : Z := 0x82.
Definition PARTITION_TYPE_LINUX : Z := 0x83.
Definition PARTITION_TYPE_LINUX_EXTENDED : Z := 0x85.
Definition PARTITION_TYPE_LINUX_LVM : Z := 0x8E.
Definition PARTITION_TYPE_GPT_PROTECTIVE : Z := 0xEE.
Definition PARTITION_TYPE_EFI_SYSTEM : Z := 0xEF.

Record mbr_partition_info_t : Type := {
  start_lba : Z;
  end_lba : Z;
  size_sectors : Z;
  info_block_size : Z;
  partition_type : Z;
  bootable : bool;
  is_extended : bool;
  partition_number : Z;
  type_name : string
}.

Definition get_partition_type_name (type : Z) : string :=
  if type =? PARTITION_TYPE_EMPTY then "Empty"
  else if type =? PARTITION_TYPE_FAT12 then "FAT12"
  else if (type =? PARTITION_TYPE_FAT16_SMALL) || (type =? PARTITION_TYPE_FAT16)
          || (type =? PARTITION_TYPE_FAT16_LBA) then "FAT16"
  else if (type =? PARTITION_TYPE_EXTENDED) || (type =? PARTITION_TYPE_EXTENDED_LBA)
          || (type =? PARTITION_TYPE_LINUX_EXTENDED) then "Extended"
  else if type =? PARTITION_TYPE_NTFS then "NTFS"
  else if (type =? PARTITION_TYPE_FAT32) || (type =? PARTITION_TYPE_FAT32_LBA)
       then "FAT32"
  else if type =? PARTITION_TYPE_LINUX_SWAP then "Linux Swap"
  else if type =? PARTITION_TYPE_LINUX then "Linux"
  else if type =? PARTITION_TYPE_LINUX_LVM then "Linux LVM"
  else if type =? PARTITION_TYPE_GPT_PROTECTIVE then "GPT Protective"
  else if type =? PARTITION_TYPE_EFI_SYSTEM then "EFI System"
  else "Unknown".

Definition is_extended_partition (type : Z) : bool :=
  (type =? PARTITION_TYPE_EXTENDED)
  || (type =? PARTITION_TYPE_EXTENDED_LBA)
  || (type =? PARTITION_TYPE_LINUX_EXTENDED).

(** [validate_mbr]: the signature, then every non-empty slot must carry
    a boot indicator of 0x00 or 0x80 and a non-zero size. *)
Definition validate_mbr (mbr : master_boot_record_t) : bool :=
  if negb (signature mbr =? MBR_SIGNATURE) then false
  else
    forallb (fun i =>
      let entry := partition_at mbr i in
      if os_indicator entry =? PARTITION_TYPE_EMPTY then true
      else if negb (boot_indicator entry =? 0x00)
              && negb (boot_indicator entry =? 0x80) then false
      else if size_in_lba entry =? 0 then false
      else true) (seq 0 (Z.to_nat MAX_MBR_PARTITIONS)).

Definition is_protective_mbr (mbr : master_boot_record_t) : bool :=
  existsb (fun i =>
    (boot_indicator (partition_at mbr i) =? 0x00)
    && (os_indicator (partition_at mbr i) =? PMBR_GPT_PARTITION)
    && (starting_lba (partition_at mbr i) =? 1))
    (seq 0 (Z.to_nat MAX_MBR_PARTITIONS)).

(** The descriptor filled in for the logical partition of one EBR. *)
Definition logical_partition_info (dev_block_size current_ebr_lba : Z)
           (logical : mbr_partition_entry_t) (logical_partition_num : Z)
  : mbr_partition_info_t :=
  let start := u64 (current_ebr_lba + starting_lba logical) in
  {| start_lba := start;
     size_sectors := size_in_lba logical;
     end_lba := u64 (start + size_in_lba logical - 1);
     info_block_size := dev_block_size;
     partition_type := os_indicator logical;
     bootable := boot_indicator logical =? 0x80;
     is_extended := false;
     partition_number := logical_partition_num;
     type_name := get_partition_type_name (os_indicator logical) |}.

(** The descriptor filled in for primary slot [i]. *)
Definition primary_partition_info (dev_block_size : Z)
           (entry : mbr_partition_entry_t) (i : Z) : mbr_partition_info_t :=
  {| start_lba := starting_lba entry;
     size_sectors := size_in_lba entry;
     end_lba := u64 (starting_lba entry + size_in_lba entry - 1);
     info_block_size := dev_block_size;
     partition_type := os_indicator entry;
     bootable := boot_indicator entry =? 0x80;
     is_extended := false;
     partition_number := u32 (i + 1);
     type_name := get_partition_type_name (os_indicator entry) |}.

Section WithPlatform.
Context {W : Type} (plat : platform_t W).

(** The [while] loop of [process_extended_partition].  One unit of
    [fuel] is spent per execution of the loop body; [None] means the
    fuel ran out with the loop condition still true. *)
Fixpoint ebr_loop (fuel : nat) (dev : block_device_t W)
         (extended_base_lba current_ebr_lba logical_partition_num : Z)
         (partitions : list mbr_partition_info_t)
         (partition_count max_partitions : Z) (m : machine W)
  : option (status_t * list mbr_partition_info_t * Z * machine W) :=
  if negb (current_ebr_lba =? 0) && (partition_count <? max_partitions) then
    match fuel with
    | O => None
    | S fuel' =>
      let offset := u64 (current_ebr_lba * block_size dev) in
      let '((status, buf), m1) := dev_read dev offset (block_size dev) m in
      if negb (status_eqb status STATUS_SUCCESS) then
        Some (status, partitions, partition_count, snd (free plat m1))
      else
        let ebr := as_mbr buf in
        if negb (signature ebr =? MBR_SIGNATURE) then
          Some (STATUS_SUCCESS, partitions, partition_count,
                snd (free plat m1))
        else
          let logical := partition_at ebr 0 in
          let '(partitions1, count1, num1) :=
            if negb (os_indicator logical =? PARTITION_TYPE_EMPTY)
               && (0 <? size_in_lba logical)
            then (<[Z.to_nat partition_count :=
                      logical_partition_info (block_size dev)
                        current_ebr_lba logical logical_partition_num]>
                    partitions,
                  partition_count + 1,
                  u32 (logical_partition_num + 1))
            else (partitions, partition_count, logical_partition_num) in
          let next := partition_at ebr 1 in
          let current1 :=
            if negb (os_indicator next =? PARTITION_TYPE_EMPTY)
               && is_extended_partition (os_indicator next)
               && (0 <? size_in_lba next)
            then u64 (extended_base_lba + starting_lba next)
            else 0 in
          ebr_loop fuel' dev extended_base_lba current1 num1
                   partitions1 count1 max_partitions m1
    end
  else
    Some (STATUS_SUCCESS, partitions, partition_count, snd (free plat m)).

Definition process_extended_partition (fuel : nat) (dev : block_device_t W)
           (extended_base_lba ebr_lba : Z)
           (partitions : list mbr_partition_info_t)
           (partition_count max_partitions : Z) (m : machine W)
  : option (status_t * list mbr_partition_info_t * Z * machine W) :=
  let (ebr, m0) := alloc plat (block_size dev) m in
  if negb ebr then
    Some (STATUS_OUT_OF_MEMORY, partitions, partition_count, m0)
  else
    ebr_loop fuel dev extended_base_lba ebr_lba 5
             partitions partition_count max_partitions m0.

(** The [for] loop over the four primary slots, from slot [i] on
    ([slots] lists the indices still to visit). *)
Fixpoint primary_loop (fuel : nat) (dev : block_device_t W)
         (mbr : master_boot_record_t) (slots : list nat)
         (partitions : list mbr_partition_info_t)
         (count max_partitions : Z) (m : machine W)
  : option (list mbr_partition_info_t * Z * machine W) :=
  match slots with
  | [] => Some (partitions, count, m)
  | i :: rest =>
    if negb (count <? max_partitions) then Some (partitions, count, m)
    else
      let entry := partition_at mbr i in
      if (os_indicator entry =? PARTITION_TYPE_EMPTY)
         || (size_in_lba entry =? 0) then
        primary_loop fuel dev mbr rest partitions count max_partitions m
      else if is_extended_partition (os_indicator entry) then
        match process_extended_partition fuel dev
                (starting_lba entry) (starting_lba entry)
                partitions count max_partitions m with
        | None => None
        | Some (_, partitions1, count1, m1) =>
          primary_loop fuel dev mbr rest partitions1 count1
                       max_partitions m1
        end
      else
        primary_loop fuel dev mbr rest
          (<[Z.to_nat count :=
               primary_partition_info (block_size dev) entry (Z.of_nat i)]>
             partitions)
          (count + 1) max_partitions m
  end.

(** [discover_mbr_partitions].  A pointer argument is [None] when
    NULL; the result carries the status, the caller's array and
    [*num_partitions] as the call leaves them. *)
Definition discover_mbr_partitions (fuel : nat)
           (dev : option (block_device_t W))
           (partitions : option (list mbr_partition_info_t))
           (num_partitions : option Z) (max_partitions : Z)
           (m : machine W)
  : option (status_t * option (list mbr_partition_info_t) * option Z
            * machine W) :=
  match dev, partitions, num_partitions with
  | Some dev, Some parts, Some num =>
    if max_partitions =? 0 then
      Some (STATUS_INVALID_PARAM, partitions, num_partitions, m)
    else if block_size dev <? sizeof_master_boot_record_t then
      Some (STATUS_INVALID_PARAM, partitions, num_partitions, m)
    else
      let (mbr, m0) := alloc plat (block_size dev) m in
      if negb mbr then
        Some (STATUS_OUT_OF_MEMORY, partitions, num_partitions, m0)
      else
        let '((status, buf), m1) := dev_read dev 0 (block_size dev) m0 in
        if negb (status_eqb status STATUS_SUCCESS) then
          Some (status, partitions, num_partitions, snd (free plat m1))
        else
          let mbr := as_mbr buf in
          if negb (validate_mbr mbr) then
            Some (STATUS_NOT_FOUND, partitions, num_partitions,
                  snd (free plat m1))
          else if is_protective_mbr mbr then
            Some (STATUS_NOT_FOUND, partitions, num_partitions,
                  snd (free plat m1))
          else
            match primary_loop fuel dev mbr
                    (seq 0 (Z.to_nat MAX_MBR_PARTITIONS))
                    parts 0 max_partitions m1 with
            | None => None
            | Some (parts1, count, m2) =>
              if 0 <? count then
                Some (STATUS_SUCCESS, Some parts1, Some count,
                      snd (free plat m2))
              else
                Some (STATUS_NOT_FOUND, Some parts1, num_partitions,
                      snd (free plat m2))
            end
  | _, _, _ =>
    Some (STATUS_INVALID_PARAM, partitions, num_partitions, m)
  end.
End WithPlatform.

(** *** String copy, search helpers, sanity checks *)

(** The copy loop of [strcpy_s] from index [i] on: it runs while
    [i < dest_size - 1] and the source character is not the terminator. *)
Fixpoint strcpy_s_loop (limit i : Z) (src : string) : string :=
  match src with
  | EmptyString => EmptyString
  | String c src' =>
    if (i <? limit) && negb (Ascii.eqb c Ascii.zero)
    then String c (strcpy_s_loop limit (i + 1) src')
    else EmptyString
  end.

(** [strcpy_s (dest, dest_size, src)]: the text [dest] holds afterwards,
    that is the characters stored before the terminator.
    [dest_size - 1] is computed in [size_t]. *)
Definition strcpy_s (dest_size : Z) (src : string) : string :=
  strcpy_s_loop (u64 (dest_size - 1)) 0 src.

Definition sizeof_type_name : Z := 32.

(** The search loop shared by the three [find_...] helpers: the first
    index among [slots] whose descriptor passes [test]; [None] is the
    NULL result. *)
Fixpoint first_match (test : mbr_partition_info_t -> bool)
         (partitions : list mbr_partition_info_t) (slots : list nat)
  : option nat :=
  match slots with
  | [] => None
  | i :: rest =>
    match partitions !! i with
    | Some p => if test p then Some i else first_match test partitions rest
    | None => first_match test partitions rest
    end
  end.

Definition find_partition_by_number (partitions : list mbr_partition_info_t)
           (num_partitions number : Z) : option nat :=
  first_match (fun p => partition_number p =? number) partitions
              (seq 0 (Z.to_nat num_partitions)).

Definition find_bootable_partition (partitions : list mbr_partition_info_t)
           (num_partitions : Z) : option nat :=
  first_match bootable partitions (seq 0 (Z.to_nat num_partitions)).

Definition find_partition_by_type (partitions : list mbr_partition_info_t)
           (num_partitions type : Z) : option nat :=
  first_match (fun p => partition_type p =? type) partitions
              (seq 0 (Z.to_nat num_partitions)).

Definition validate_partition_bounds (partition : mbr_partition_info_t)
           (total_sectors : Z) : bool :=
  if total_sectors <=? start_lba partition then false
  else if total_sectors <=? end_lba partition then false
  else if end_lba partition <? start_lba partition then false
  else true.

Definition check_partition_overlap (part1 part2 : mbr_partition_info_t)
  : bool :=
  if end_lba part1 <? start_lba part2 then false
  else if end_lba part2 <? start_lba part1 then false
  else true.

(** *** Writing an MBR *)

(** The image [create_simple_mbr] builds in its zeroed buffer. *)
Definition simple_mbr (partition_start_lba partition_size_sectors
                       partition_type : Z) (bootable : bool) : list Z :=
  let mbr := zero_buffer sizeof_master_boot_record_t in
  let mbr := set_u16 mbr 510 MBR_SIGNATURE in
  let mbr := set_u8 mbr 446 (if bootable then 0x80 else 0x00) in
  let mbr := set_u8 mbr (446 + 4) partition_type in
  let mbr := set_u32 mbr (446 + 8) (u32 partition_start_lba) in
  set_u32 mbr (446 + 12) (u32 partition_size_sectors).

Section Writing.
Context {W : Type} (plat : platform_t W).
Local Open Scope io_scope.

(** [write_mbr]: [mbr] is the buffer that holds the structure, as far
    as it extends.  The device is handed [dev->block_size] bytes from
    it; where the buffer is shorter the call reads past its end, and
    the result is [None]: the behaviour is not defined. *)
Definition write_mbr (dev : option (block_device_t W))
           (mbr : option (list Z)) (m : machine W)
  : option (status_t * machine W) :=
  match dev, mbr with
  | Some dev, Some mbr =>
    if negb (validate_mbr (as_mbr mbr)) then Some (STATUS_INVALID_PARAM, m)
    else if Z.of_nat (length mbr) <? block_size dev then None
    else Some (dev_write dev 0 (block_size dev) mbr m)
  | _, _ => Some (STATUS_INVALID_PARAM, m)
  end.

(** [create_simple_mbr]; the buffer is the allocation of
    [sizeof (master_boot_record_t)] bytes. *)
Definition create_simple_mbr (dev : option (block_device_t W))
           (partition_start_lba partition_size_sectors partition_type : Z)
           (bootable : bool) (m : machine W)
  : option (status_t * machine W) :=
  let (mbr, m0) := alloc_zero plat sizeof_master_boot_record_t m in
  if negb mbr then Some (STATUS_OUT_OF_MEMORY, m0)
  else
    match write_mbr dev
            (Some (simple_mbr partition_start_lba partition_size_sectors
                              partition_type bootable)) m0 with
    | None => None
    | Some (status, m1) => Some (status, snd (free plat m1))
    end.
End Writing.

End Mbr.

(* ====================================================================== *)
(** ** gpt_parser_aarch64.c *)

Module Gpt.

Definition PRIMARY_PART_HEADER_LBA : Z := 1.
Definition MAX_MBR_PARTITIONS : Z := 4.
Definition PMBR_GPT_PARTITION : Z := 0xEE.
Definition GPT_HEADER_SIGNATURE : Z := 0x5452415020494645.

(** *** GUIDs *)

Record guid_t : Type := {
  data1 : Z;
  data2 : Z;
  data3 : Z;
  data4 : list Z
}.

Definition GUID_UNUSED : guid_t :=
  {| data1 := 0x00000000; data2 := 0x0000; data3 := 0x0000;
     data4 := [0x00; 0x00; 0x00; 0x00; 0x00; 0x00; 0x00; 0x00] |}.

Definition GUID_EFI_SYSTEM : guid_t :=
  {| data1 := 0xC12A7328; data2 := 0xF81F; data3 := 0x11D2;
     data4 := [0xBA; 0x4B; 0x00; 0xA0; 0xC9; 0x3E; 0xC9; 0x3B] |}.

(** The cast of the 16 bytes at [off] to a packed [guid_t]. *)
Definition as_guid (buf : list Z) (off : Z) : guid_t :=
  {| data1 := get_u32 buf off;
     data2 := get_u16 buf (off + 4);
     data3 := get_u16 buf (off + 6);
     data4 := get_bytes buf (off + 8) 8 |}.

Fixpoint bytes_eqb (a b : list Z) : bool :=
  match a, b with
  | [], [] => true
  | x :: a', y :: b' => (x =? y) && bytes_eqb a' b'
  | _, _ => false
  end.

(** [compare_guid]: [memcmp] over the packed structure is zero exactly
    when every field agrees. *)
Definition compare_guid (g1 g2 : guid_t) : bool :=
  (data1 g1 =? data1 g2) && (data2 g1 =? data2 g2)
  && (data3 g1 =? data3 g2) && bytes_eqb (data4 g1) (data4 g2).

(** *** [gpt_header_t], read through the buffer that holds it *)

Definition sizeof_gpt_header_t : Z := 92.

Definition signature (h : list Z) : Z := get_u64 h 0.
Definition revision (h : list Z) : Z := get_u32 h 8.
Definition header_size (h : list Z) : Z := get_u32 h 12.
Definition header_crc32 (h : list Z) : Z := get_u32 h 16.
Definition reserved (h : list Z) : Z := get_u32 h 20.
Definition my_lba (h : list Z) : Z := get_u64 h 24.
Definition alternate_lba (h : list Z) : Z := get_u64 h 32.
Definition first_usable_lba (h : list Z) : Z := get_u64 h 40.
Definition last_usable_lba (h : list Z) : Z := get_u64 h 48.
Definition disk_guid (h : list Z) : guid_t := as_guid h 56.
Definition partition_entry_lba (h : list Z) : Z := get_u64 h 72.
Definition num_partition_entries (h : list Z) : Z := get_u32 h 80.
Definition partition_entry_size (h : list Z) : Z := get_u32 h 84.
Definition partition_array_crc32 (h : list Z) : Z := get_u32 h 88.

Definition set_header_crc32 (h : list Z) (v : Z) : list Z := set_u32 h 16 v.
Definition set_my_lba (h : list Z) (v : Z) : list Z := set_u64 h 24 v.
Definition set_alternate_lba (h : list Z) (v : Z) : list Z := set_u64 h 32 v.
Definition set_partition_entry_lba (h : list Z) (v : Z) : list Z :=
  set_u64 h 72 v.

(** *** [gpt_partition_entry_t] *)

Definition sizeof_gpt_partition_entry_t : Z := 128.

Record gpt_partition_entry_t : Type := {
  partition_type_guid : guid_t;
  unique_guid : guid_t;
  starting_lba : Z;
  ending_lba : Z;
  attributes : Z;
  partition_name : list Z
}.

Definition as_gpt_entry (buf : list Z) (off : Z) : gpt_partition_entry_t :=
  {| partition_type_guid := as_guid buf off;
     unique_guid := as_guid buf (off + 16);
     starting_lba := get_u64 buf (off + 32);
     ending_lba := get_u64 buf (off + 40);
     attributes := get_u64 buf (off + 48);
     partition_name :=
       map (fun k => get_u16 buf (off + 56 + 2 * Z.of_nat k)) (seq 0 36) |}.

Record partition_entry_status_t : Type := {
  out_of_range : bool;
  overlap : bool;
  os_specific : bool
}.

Definition zero_status : partition_entry_status_t :=
  {| out_of_range := false; overlap := false; os_specific := false |}.

Definition sizeof_partition_entry_status_t : Z := 3.

Definition set_out_of_range (s : partition_entry_status_t) :=
  {| out_of_range := true; overlap := overlap s;
     os_specific := os_specific s |}.
Definition set_overlap (s : partition_entry_status_t) :=
  {| out_of_range := out_of_range s; overlap := true;
     os_specific := os_specific s |}.
Definition set_os_specific (s : partition_entry_status_t) :=
  {| out_of_range := out_of_range s; overlap := overlap s;
     os_specific := true |}.

(** [entry_status[i]] *)
Definition status_at (st : list partition_entry_status_t) (i : nat) :=
  nth i st zero_status.

(** [utf16_to_ascii] reading the units at [src] in [buf]; [n] is
    [max_len - 1].  The result is the text before the terminator. *)
Fixpoint utf16_to_ascii (buf : list Z) (src : Z) (n : nat) : list Z :=
  match n with
  | O => []
  | S n' =>
    let c := get_u16 buf src in
    if c =? 0 then []
    else (if c <? 128 then c else 63) :: utf16_to_ascii buf (src + 2) n'
  end.

(** *** CRC32 *)

Definition crc32_table : list Z := [
    0x00000000; 0x77073096; 0xEE0E612C; 0x990951BA; 0x076DC419; 0x706AF48F;
    0xE963A535; 0x9E6495A3; 0x0EDB8832; 0x79DCB8A4; 0xE0D5E91E; 0x97D2D988;
    0x09B64C2B; 0x7EB17CBD; 0xE7B82D07; 0x90BF1D91; 0x1DB71064; 0x6AB020F2;
    0xF3B97148; 0x84BE41DE; 0x1ADAD47D; 0x6DDDE4EB; 0xF4D4B551; 0x83D385C7;
    0x136C9856; 0x646BA8C0; 0xFD62F97A; 0x8A65C9EC; 0x14015C4F; 0x63066CD9;
    0xFA0F3D63; 0x8D080DF5; 0x3B6E20C8; 0x4C69105E; 0xD56041E4; 0xA2677172;
    0x3C03E4D1; 0x4B04D447; 0xD20D85FD; 0xA50AB56B; 0x35B5A8FA; 0x42B2986C;
    0xDBBBC9D6; 0xACBCF940; 0x32D86CE3; 0x45DF5C75; 0xDCD60DCF; 0xABD13D59;
    0x26D930AC; 0x51DE003A; 0xC8D75180; 0xBFD06116; 0x21B4F4B5; 0x56B3C423;
    0xCFBA9599; 0xB8BDA50F; 0x2802B89E; 0x5F058808; 0xC60CD9B2; 0xB10BE924;
    0x2F6F7C87; 0x58684C11; 0xC1611DAB; 0xB6662D3D; 0x76DC4190; 0x01DB7106;
    0x98D220BC; 0xEFD5102A; 0x71B18589; 0x06B6B51F; 0x9FBFE4A5; 0xE8B8D433;
    0x7807C9A2; 0x0F00F934; 0x9609A88E; 0xE10E9818; 0x7F6A0DBB; 0x086D3D2D;
    0x91646C97; 0xE6635C01; 0x6B6B51F4; 0x1C6C6162; 0x856530D8; 0xF262004E;
    0x6C0695ED; 0x1B01A57B; 0x8208F4C1; 0xF50FC457; 0x65B0D9C6; 0x12B7E950;
    0x8BBEB8EA; 0xFCB9887C; 0x62DD1DDF; 0x15DA2D49; 0x8CD37CF3; 0xFBD44C65;
    0x4DB26158; 0x3AB551CE; 0xA3BC0074; 0xD4BB30E2; 0x4ADFA541; 0x3DD895D7;
    0xA4D1C46D; 0xD3D6F4FB; 0x4369E96A; 0x346ED9FC; 0xAD678846; 0xDA60B8D0;
    0x44042D73; 0x33031DE5; 0xAA0A4C5F; 0xDD0D7CC9; 0x5005713C; 0x270241AA;
    0xBE0B1010; 0xC90C2086; 0x5768B525; 0x206F85B3; 0xB966D409; 0xCE61E49F;
    0x5EDEF90E; 0x29D9C998; 0xB0D09822; 0xC7D7A8B4; 0x59B33D17; 0x2EB40D81;
    0xB7BD5C3B; 0xC0BA6CAD; 0xEDB88320; 0x9ABFB3B6; 0x03B6E20C; 0x74B1D29A;
    0xEAD54739; 0x9DD277AF; 0x04DB2615; 0x73DC1683; 0xE3630B12; 0x94643B84;
    0x0D6D6A3E; 0x7A6A5AA8; 0xE40ECF0B; 0x9309FF9D; 0x0A00AE27; 0x7D079EB1;
    0xF00F9344; 0x8708A3D2; 0x1E01F268; 0x6906C2FE; 0xF762575D; 0x806567CB;
    0x196C3671; 0x6E6B06E7; 0xFED41B76; 0x89D32BE0; 0x10DA7A5A; 0x67DD4ACC;
    0xF9B9DF6F; 0x8EBEEFF9; 0x17B7BE43; 0x60B08ED5; 0xD6D6A3E8; 0xA1D1937E;
    0x38D8C2C4; 0x4FDFF252; 0xD1BB67F1; 0xA6BC5767; 0x3FB506DD; 0x48B2364B;
    0xD80D2BDA; 0xAF0A1B4C; 0x36034AF6; 0x41047A60; 0xDF60EFC3; 0xA867DF55;
    0x316E8EEF; 0x4669BE79; 0xCB61B38C; 0xBC66831A; 0x256FD2A0; 0x5268E236;
    0xCC0C7795; 0xBB0B4703; 0x220216B9; 0x5505262F; 0xC5BA3BBE; 0xB2BD0B28;
    0x2BB45A92; 0x5CB36A04; 0xC2D7FFA7; 0xB5D0CF31; 0x2CD99E8B; 0x5BDEAE1D;
    0x9B64C2B0; 0xEC63F226; 0x756AA39C; 0x026D930A; 0x9C0906A9; 0xEB0E363F;
    0x72076785; 0x05005713; 0x95BF4A82; 0xE2B87A14; 0x7BB12BAE; 0x0CB61B38;
    0x92D28E9B; 0xE5D5BE0D; 0x7CDCEFB7; 0x0BDBDF21; 0x86D3D2D4; 0xF1D4E242;
    0x68DDB3F8; 0x1FDA836E; 0x81BE16CD; 0xF6B9265B; 0x6FB077E1; 0x18B74777;
    0x88085AE6; 0xFF0F6A70; 0x66063BCA; 0x11010B5C; 0x8F659EFF; 0xF862AE69;
    0x616BFFD3; 0x166CCF45; 0xA00AE278; 0xD70DD2EE; 0x4E048354; 0x3903B3C2;
    0xA7672661; 0xD06016F7; 0x4969474D; 0x3E6E77DB; 0xAED16A4A; 0xD9D65ADC;
    0x40DF0B66; 0x37D83BF0; 0xA9BCAE53; 0xDEBB9EC5; 0x47B2CF7F; 0x30B5FFE9;
    0xBDBDF21C; 0xCABAC28A; 0x53B39330; 0x24B4A3A6; 0xBAD03605; 0xCDD70693;
    0x54DE5729; 0x23D967BF; 0xB3667A2E; 0xC4614AB8; 0x5D681B02; 0x2A6F2B94;
    0xB40BBE37; 0xC30C8EA1; 0x5A05DF1B; 0x2D02EF8D
  ].

Definition crc32_step (crc byte : Z) : Z :=
  Z.lxor (nth (Z.to_nat (Z.land (Z.lxor crc byte) 0xFF)) crc32_table 0)
         (Z.shiftr crc 8).

Definition calculate_crc32 (data : list Z) (length : Z) : Z :=
  Z.lxor (fold_left crc32_step (get_bytes data 0 (Z.to_nat length))
                    0xFFFFFFFF)
         0xFFFFFFFF.

(** *** CRC validation *)

Definition check_header_crc (max_size size : Z) (header : list Z)
  : bool * list Z :=
  if size =? 0 then (false, header)
  else if negb (max_size =? 0) && (max_size <? size) then (false, header)
  else
    let original_crc := header_crc32 header in
    let header := set_header_crc32 header 0 in
    let calculated_crc := calculate_crc32 header size in
    let header := set_header_crc32 header calculated_crc in
    (original_crc =? calculated_crc, header).

Definition set_header_crc (size : Z) (header : list Z) : list Z :=
  let header := set_header_crc32 header 0 in
  let crc := calculate_crc32 header size in
  set_header_crc32 header crc.

(** *** Entry sanity checks *)

Section Entries.
Variable header : list Z.
Variable entries : list Z.

(** [(gpt_partition_entry_t * )((u8 * )entries + i * partition_entry_size)],
    the product taken in 32 bits. *)
Definition entry_at (i : nat) : gpt_partition_entry_t :=
  as_gpt_entry entries (u32 (Z.of_nat i * partition_entry_size header)).

Definition entry_out_of_range (entry : gpt_partition_entry_t) : bool :=
  (ending_lba entry <? starting_lba entry)
  || (starting_lba entry <? first_usable_lba header)
  || (last_usable_lba header <? starting_lba entry)
  || (ending_lba entry <? first_usable_lba header)
  || (last_usable_lba header <? ending_lba entry).

(** Body of the inner loop of [check_gpt_entries] for the pair (i, j). *)
Definition check_overlap_with (i : nat)
           (entry_status : list partition_entry_status_t) (j : nat)
  : list partition_entry_status_t :=
  let other_entry := entry_at j in
  if compare_guid (partition_type_guid other_entry) GUID_UNUSED then
    entry_status
  else if (starting_lba (entry_at i) <=? ending_lba other_entry)
          && (starting_lba other_entry <=? ending_lba (entry_at i)) then
    alter set_overlap j (alter set_overlap i entry_status)
  else entry_status.

(** Body of the outer loop of [check_gpt_entries] for index [i]. *)
Definition check_entry (entry_status : list partition_entry_status_t)
           (i : nat) : list partition_entry_status_t :=
  let entry := entry_at i in
  if compare_guid (partition_type_guid entry) GUID_UNUSED then entry_status
  else if entry_out_of_range entry then
    alter set_out_of_range i entry_status
  else
    let entry_status :=
      if Z.testbit (attributes entry) 1
      then alter set_os_specific i entry_status
      else entry_status in
    let n := Z.to_nat (num_partition_entries header) in
    fold_left (check_overlap_with i) (seq (S i) (n - S i)) entry_status.

Definition check_gpt_entries
           (entry_status : list partition_entry_status_t)
  : list partition_entry_status_t :=
  fold_left check_entry
            (seq 0 (Z.to_nat (num_partition_entries header)))
            entry_status.
End Entries.

(** *** Partition descriptors *)

Record gpt_partition_info_t : Type := {
  info_type_guid : guid_t;
  info_unique_guid : guid_t;
  start_lba : Z;
  end_lba : Z;
  size_sectors : Z;
  info_attributes : Z;
  name : list Z;
  partition_number : Z;
  is_system : bool;
  is_bootable : bool
}.

Definition sizeof_name : Z := 128.

(** The descriptor filled in for entry [i] of the array. *)
Definition gpt_partition_info (header entries : list Z) (i : nat)
  : gpt_partition_info_t :=
  let entry := entry_at header entries i in
  {| info_type_guid := partition_type_guid entry;
     info_unique_guid := unique_guid entry;
     start_lba := starting_lba entry;
     end_lba := ending_lba entry;
     size_sectors := u64 (ending_lba entry - starting_lba entry + 1);
     info_attributes := attributes entry;
     partition_number := u32 (Z.of_nat i + 1);
     is_system := compare_guid (partition_type_guid entry) GUID_EFI_SYSTEM;
     is_bootable := Z.testbit (attributes entry) 2;
     name := utf16_to_ascii entries
               (u32 (Z.of_nat i * partition_entry_size header) + 56)
               (Z.to_nat (sizeof_name - 1)) |}.

(** The [for] loop of [discover_gpt_partitions] that fills the caller's
    array ([slots] lists the indices still to visit). *)
Fixpoint collect_partitions (header entries : list Z)
         (entry_status : list partition_entry_status_t) (slots : list nat)
         (partitions : list gpt_partition_info_t)
         (count max_partitions : Z)
  : list gpt_partition_info_t * Z :=
  match slots with
  | [] => (partitions, count)
  | i :: rest =>
    if negb (count <? max_partitions) then (partitions, count)
    else if compare_guid (partition_type_guid (entry_at header entries i))
                         GUID_UNUSED
            || out_of_range (status_at entry_status i)
            || overlap (status_at entry_status i)
            || os_specific (status_at entry_status i) then
      collect_partitions header entries entry_status rest
                         partitions count max_partitions
    else
      collect_partitions header entries entry_status rest
        (<[Z.to_nat count := gpt_partition_info header entries i]> partitions)
        (count + 1) max_partitions
  end.

Section WithPlatform.
Context {W : Type} (plat : platform_t W).
Local Open Scope io_scope.

Definition validate_gpt_entry_array_crc (dev : block_device_t W)
           (header : list Z) : M W bool :=
  let entries_size :=
    u32 (num_partition_entries header * partition_entry_size header) in
  do entries <- alloc plat entries_size;
  if negb entries then ret false
  else
    let offset := u64 (partition_entry_lba header * block_size dev) in
    do '(status, entries) <- dev_read dev offset entries_size;
    if negb (status_eqb status STATUS_SUCCESS) then
      free plat ;; ret false
    else
      let calculated_crc := calculate_crc32 entries entries_size in
      free plat ;;
      ret (partition_array_crc32 header =? calculated_crc).

(** [validate_gpt_table]: the verdict and [*header_out] afterwards. *)
Definition validate_gpt_table (dev : block_device_t W) (lba : Z)
           (header_out : list Z) : M W (bool * list Z) :=
  let block_size := block_size dev in
  do header <- alloc_zero plat block_size;
  if negb header then ret (false, header_out)
  else
    let offset := u64 (lba * block_size) in
    do '(status, header) <- dev_read dev offset block_size;
    if negb (status_eqb status STATUS_SUCCESS) then
      free plat ;; ret (false, header_out)
    else if negb (signature header =? GPT_HEADER_SIGNATURE) then
      free plat ;; ret (false, header_out)
    else
      let '(crc_ok, header) :=
        check_header_crc block_size (header_size header) header in
      if negb crc_ok then free plat ;; ret (false, header_out)
      else if negb (my_lba header =? lba) then
        free plat ;; ret (false, header_out)
      else if partition_entry_size header <? sizeof_gpt_partition_entry_t
      then free plat ;; ret (false, header_out)
      else if 0xFFFFFFFFFFFFFFFF / partition_entry_size header
              <? num_partition_entries header then
        free plat ;; ret (false, header_out)
      else
        let header_out := memcpy header_out header sizeof_gpt_header_t in
        do entries_ok <- validate_gpt_entry_array_crc dev header_out;
        if negb entries_ok then free plat ;; ret (false, header_out)
        else free plat ;; ret (true, header_out).

(** The header [restore_gpt_table] builds from [header]. *)
Definition restored_header (block_size : Z) (header : list Z) : list Z :=
  let new_entry_lba :=
    if my_lba header =? PRIMARY_PART_HEADER_LBA
    then u64 (last_usable_lba header + 1)
    else PRIMARY_PART_HEADER_LBA + 1 in
  let new_header := zero_buffer block_size in
  let new_header := memcpy new_header header sizeof_gpt_header_t in
  let new_header := set_my_lba new_header (alternate_lba header) in
  let new_header := set_alternate_lba new_header (my_lba header) in
  let new_header := set_partition_entry_lba new_header new_entry_lba in
  set_header_crc (header_size new_header) new_header.

Definition restore_gpt_table (dev : block_device_t W) (header : list Z)
  : M W bool :=
  let block_size := block_size dev in
  do new_header_ok <- alloc_zero plat block_size;
  if negb new_header_ok then ret false
  else
    let new_entry_lba :=
      if my_lba header =? PRIMARY_PART_HEADER_LBA
      then u64 (last_usable_lba header + 1)
      else PRIMARY_PART_HEADER_LBA + 1 in
    let new_header := restored_header block_size header in
    let offset := u64 (my_lba new_header * block_size) in
    do status <- dev_write dev offset block_size new_header;
    if negb (status_eqb status STATUS_SUCCESS) then
      free plat ;; ret false
    else
      let entries_size :=
        u32 (num_partition_entries header * partition_entry_size header) in
      do entries <- alloc plat entries_size;
      if negb entries then free plat ;; ret false
      else
        let offset := u64 (partition_entry_lba header * block_size) in
        do '(status, entries) <- dev_read dev offset entries_size;
        if negb (status_eqb status STATUS_SUCCESS) then
          free plat ;; free plat ;; ret false
        else
          let offset := u64 (new_entry_lba * block_size) in
          do status <- dev_write dev offset entries_size entries;
          free plat ;; free plat ;;
          ret (status_eqb status STATUS_SUCCESS).

(** Lines 1141-1167 of [discover_gpt_partitions]: validation of the
    two copies and the restoration of the one that failed.  Yields
    [primary_valid], [backup_valid] and the two header structures. *)
Definition validate_both_copies (dev : block_device_t W)
           (primary_header backup_header : list Z)
  : M W (bool * bool * list Z * list Z) :=
  let last_block := u64 (total_sectors dev - 1) in
  do '(primary_valid, primary_header) <-
     validate_gpt_table dev PRIMARY_PART_HEADER_LBA primary_header;
  if negb primary_valid then
    do '(backup_valid, backup_header) <-
       validate_gpt_table dev last_block backup_header;
    if backup_valid then
      do _ <- restore_gpt_table dev backup_header;
      do '(primary_valid, primary_header) <-
         validate_gpt_table dev (alternate_lba backup_header)
                            primary_header;
      ret (primary_valid, backup_valid, primary_header, backup_header)
    else ret (primary_valid, backup_valid, primary_header, backup_header)
  else
    do '(backup_valid, backup_header) <-
       validate_gpt_table dev (alternate_lba primary_header) backup_header;
    if negb backup_valid then
      do _ <- restore_gpt_table dev primary_header;
      do '(backup_valid, backup_header) <-
         validate_gpt_table dev (alternate_lba primary_header)
                            backup_header;
      ret (primary_valid, backup_valid, primary_header, backup_header)
    else ret (primary_valid, backup_valid, primary_header, backup_header).

(** The [cleanup:] label: every non-NULL buffer is released. *)
Fixpoint cleanup (live : nat) : M W unit :=
  match live with
  | O => ret tt
  | S n => free plat ;; cleanup n
  end.

(** Lines 1175-1240 of [discover_gpt_partitions]: enumeration through
    the chosen header ([live] buffers are allocated on entry). *)
Definition enumerate_partitions (dev : block_device_t W)
           (header : list Z)
           (partitions : list gpt_partition_info_t)
           (num_partitions max_partitions : Z)
  : M W (status_t * list gpt_partition_info_t * Z) :=
  let entries_size :=
    u32 (num_partition_entries header * partition_entry_size header) in
  do entries_ok <- alloc plat entries_size;
  if negb entries_ok then
    cleanup 3 ;; ret (STATUS_OUT_OF_MEMORY, partitions, num_partitions)
  else
    let offset := u64 (partition_entry_lba header * block_size dev) in
    do '(status, entries) <- dev_read dev offset entries_size;
    if negb (status_eqb status STATUS_SUCCESS) then
      cleanup 4 ;; ret (STATUS_ERROR, partitions, num_partitions)
    else
      do status_ok <- alloc_zero plat
           (num_partition_entries header * sizeof_partition_entry_status_t);
      if negb status_ok then
        cleanup 4 ;; ret (STATUS_OUT_OF_MEMORY, partitions, num_partitions)
      else
        let n := Z.to_nat (num_partition_entries header) in
        let entry_status :=
          check_gpt_entries header entries (replicate n zero_status) in
        let '(partitions, count) :=
          collect_partitions header entries entry_status (seq 0 n)
                             partitions 0 max_partitions in
        cleanup 5 ;; ret (STATUS_SUCCESS, partitions, count).

(** Lines 1101-1139 of [discover_gpt_partitions]: the block-size check,
the protective MBR at LBA 0 and the allocation of the two header
structures.  [Some status]: the function leaves with [status];
[None]: it goes on to validate the two copies. *)
Definition read_protective_mbr (dev : block_device_t W)
  : M W (option status_t) :=
  let block_size := block_size dev in
  if block_size <? Layout.sizeof_master_boot_record_t then
    ret (Some STATUS_INVALID_PARAM)
  else
    do mbr_ok <- alloc plat block_size;
    if negb mbr_ok then ret (Some STATUS_OUT_OF_MEMORY)
    else
      do '(status, buf) <- dev_read dev 0 block_size;
      if negb (status_eqb status STATUS_SUCCESS) then
        cleanup 1 ;; ret (Some STATUS_ERROR)
      else
        let mbr := Layout.as_mbr buf in
        let has_gpt_partition :=
          existsb (fun i =>
            (Layout.boot_indicator (Layout.partition_at mbr i) =? 0x00)
            && (Layout.os_indicator (Layout.partition_at mbr i)
                =? PMBR_GPT_PARTITION)
            && (Layout.starting_lba (Layout.partition_at mbr i) =? 1))
            (seq 0 (Z.to_nat MAX_MBR_PARTITIONS)) in
        if negb has_gpt_partition then
          cleanup 1 ;; ret (Some STATUS_NOT_FOUND)
        else
          do primary_ok <- alloc_zero plat sizeof_gpt_header_t;
          do backup_ok <- alloc_zero plat sizeof_gpt_header_t;
          if negb primary_ok || negb backup_ok then
            cleanup (1 + (if primary_ok then 1 else 0)
                       + (if backup_ok then 1 else 0)) ;;
            ret (Some STATUS_OUT_OF_MEMORY)
          else ret None.

(** [discover_gpt_partitions]: the status, the caller's array and
    [*num_partitions] as the call leaves them. *)
Definition discover_gpt_partitions (dev : block_device_t W)
           (partitions : list gpt_partition_info_t)
           (num_partitions max_partitions : Z)
  : M W (status_t * list gpt_partition_info_t * Z) :=
  do early <- read_protective_mbr dev;
  match early with
  | Some status => ret (status, partitions, num_partitions)
  | None =>
    do '(primary_valid, backup_valid, primary_header, backup_header) <-
       validate_both_copies dev (zero_buffer sizeof_gpt_header_t)
                            (zero_buffer sizeof_gpt_header_t);
    if negb primary_valid && negb backup_valid then
      cleanup 3 ;; ret (STATUS_NOT_FOUND, partitions, num_partitions)
    else
      let header :=
        if primary_valid then primary_header else backup_header in
      enumerate_partitions dev header partitions num_partitions
                           max_partitions
  end.
End WithPlatform.

(** *** Helper functions *)

Definition GUID_ANDROID_BOOT : guid_t :=
  {| data1 := 0x49A4D17F; data2 := 0x93A3; data3 := 0x45C1;
     data4 := [0xA0; 0xDE; 0xF5; 0x0B; 0x2E; 0xBE; 0x25; 0x99] |}.

Definition GUID_ANDROID_SYSTEM : guid_t :=
  {| data1 := 0x97409AC0; data2 := 0xBDBE; data3 := 0x4B38;
     data4 := [0xAF; 0xC7; 0x8B; 0x4F; 0xAE; 0x85; 0x7E; 0xF8] |}.

Definition GUID_ANDROID_USERDATA : guid_t :=
  {| data1 := 0x0BB7E6ED; data2 := 0x4424; data3 := 0x49C0;
     data4 := [0x9C; 0x72; 0xE8; 0xB2; 0x4F; 0x4E; 0x6C; 0x1E] |}.

Definition get_partition_type_name (type : guid_t) : string :=
  if compare_guid type GUID_EFI_SYSTEM then "EFI System"
  else if compare_guid type GUID_ANDROID_BOOT then "Android Boot"
  else if compare_guid type GUID_ANDROID_SYSTEM then "Android System"
  else if compare_guid type GUID_ANDROID_USERDATA then "Android Userdata"
  else "Unknown".

(** The comparison of [find_partition_by_name]: the [while] loop that
    advances over equal non-zero characters, and the test after it.
    A character past the end of a list reads as the terminator. *)
Fixpoint names_match (name pname : list Z) : bool :=
  match name, pname with
  | [], [] => true
  | [], d :: _ => d =? 0
  | c :: _, [] => c =? 0
  | c :: name', d :: pname' =>
    if negb (c =? 0) && negb (d =? 0) && (c =? d)
    then names_match name' pname'
    else (c =? 0) && (d =? 0)
  end.

(** The search loop of the two [find_...] helpers (see [Mbr.first_match]). *)
Fixpoint first_match (test : gpt_partition_info_t -> bool)
         (partitions : list gpt_partition_info_t) (slots : list nat)
  : option nat :=
  match slots with
  | [] => None
  | i :: rest =>
    match partitions !! i with
    | Some p => if test p then Some i else first_match test partitions rest
    | None => first_match test partitions rest
    end
  end.

(** The test of [find_partition_by_name] on one descriptor. *)
Definition has_name (wanted : list Z) (p : gpt_partition_info_t) : bool :=
  names_match wanted (name p).

Definition find_partition_by_name (partitions : list gpt_partition_info_t)
           (num_partitions : Z) (name : list Z) : option nat :=
  first_match (has_name name) partitions (seq 0 (Z.to_nat num_partitions)).

Definition find_partition_by_type (partitions : list gpt_partition_info_t)
           (num_partitions : Z) (type : guid_t) : option nat :=
  first_match (fun p => compare_guid (info_type_guid p) type) partitions
              (seq 0 (Z.to_nat num_partitions)).

End Gpt.

(* ====================================================================== *)
(** ** partition_aarch64.c *)

Module Partition.

Definition SECTOR_SIZE : Z := 512.
Definition GPT_HEADER_SIGNATURE : Z := 0x5452415020494645.
Definition MBR_SIGNATURE : Z := 0xAA55.

Inductive partition_type_t : Type :=
  | PART_TYPE_UNKNOWN
  | PART_TYPE_GPT
  | PART_TYPE_MBR.

Record partition_info_t : Type := {
  type : partition_type_t;
  start_lba : Z;
  end_lba : Z;
  size_sectors : Z;
  info_block_size : Z;
  type_guid : list Z;
  unique_guid : list Z;
  name : list Z;
  bootable : bool;
  mbr_type : Z
}.

Definition blank_partition_info : partition_info_t :=
  {| type := PART_TYPE_UNKNOWN; start_lba := 0; end_lba := 0;
     size_sectors := 0; info_block_size := 0; type_guid := replicate 16 0;
     unique_guid := replicate 16 0; name := []; bootable := false;
     mbr_type := 0 |}.

(** [block_device_t] of this unit: transfers are in whole blocks. *)
Record block_device_t (W : Type) : Type := {
  total_sectors : Z;
  block_size : Z;
  read_blocks : Z -> Z -> W -> status_t * list Z * W
}.
Arguments total_sectors {W} _.
Arguments block_size {W} _.
Arguments read_blocks {W} _ _ _ _.

(** The table as the source has it: four initialisers, the remaining
    252 elements are zero. *)
Definition crc32_table : list Z :=
  [0x00000000; 0x77073096; 0xEE0E612C; 0x990951BA].

Definition calculate_crc32 (data : list Z) (length : Z) : Z :=
  Z.lxor
    (fold_left
       (fun crc byte =>
          Z.lxor (nth (Z.to_nat (Z.land (Z.lxor crc byte) 0xFF)) crc32_table 0)
                 (Z.shiftr crc 8))
       (get_bytes data 0 (Z.to_nat length)) 0xFFFFFFFF)
    0xFFFFFFFF.

(** [gpt_header_t] and [gpt_entry_t] fields, read through the buffer. *)
Definition hdr_signature (h : list Z) : Z := get_u64 h 0.
Definition hdr_header_size (h : list Z) : Z := get_u32 h 12.
Definition hdr_header_crc32 (h : list Z) : Z := get_u32 h 16.
Definition hdr_partition_entry_lba (h : list Z) : Z := get_u64 h 72.
Definition hdr_num_partition_entries (h : list Z) : Z := get_u32 h 80.
Definition hdr_partition_entry_size (h : list Z) : Z := get_u32 h 84.

Definition mbr_signature (b : list Z) : Z := get_u16 b 510.
Definition mbr_entry_status (b : list Z) (i : Z) : Z := get_u8 b (446 + 16 * i).
Definition mbr_entry_partition_type (b : list Z) (i : Z) : Z :=
  get_u8 b (446 + 16 * i + 4).
Definition mbr_entry_first_lba (b : list Z) (i : Z) : Z :=
  get_u32 b (446 + 16 * i + 8).
Definition mbr_entry_num_sectors (b : list Z) (i : Z) : Z :=
  get_u32 b (446 + 16 * i + 12).

(** ["FAT32"], ["Linux"], ["GPT_Protective"], ["Unknown"] as bytes. *)
Definition mbr_type_name (partition_type : Z) : list Z :=
  if (partition_type =? 0x0C) || (partition_type =? 0x0B)
  then [70; 65; 84; 51; 50]
  else if partition_type =? 0x83 then [76; 105; 110; 117; 120]
  else if partition_type =? 0xEE
  then [71; 80; 84; 95; 80; 114; 111; 116; 101; 99; 116; 105; 118; 101]
  else [85; 110; 107; 110; 111; 119; 110].

(** The entry loop of [detect_gpt_partitions]. *)
Fixpoint collect_gpt_entries (dev_block_size : Z) (gpt_hdr entries : list Z)
         (slots : list nat) (partitions : list partition_info_t)
         (count max_partitions : Z) : list partition_info_t * Z :=
  match slots with
  | [] => (partitions, count)
  | i :: rest =>
    if negb (count <? max_partitions) then (partitions, count)
    else
      let off := u32 (Z.of_nat i * hdr_partition_entry_size gpt_hdr) in
      let is_empty := forallb (fun b => b =? 0) (get_bytes entries off 16) in
      if is_empty then
        collect_gpt_entries dev_block_size gpt_hdr entries rest partitions
                            count max_partitions
      else
        let old := nth (Z.to_nat count) partitions blank_partition_info in
        let first_lba := get_u64 entries (off + 32) in
        let last_lba := get_u64 entries (off + 40) in
        let part :=
          {| type := PART_TYPE_GPT;
             start_lba := first_lba;
             end_lba := last_lba;
             size_sectors := u64 (last_lba - first_lba + 1);
             info_block_size := dev_block_size;
             type_guid := get_bytes entries off 16;
             unique_guid := get_bytes entries (off + 16) 16;
             name := Gpt.utf16_to_ascii entries (off + 56) 127;
             bootable := Z.testbit (get_u64 entries (off + 48)) 2;
             mbr_type := mbr_type old |} in
        collect_gpt_entries dev_block_size gpt_hdr entries rest
          (<[Z.to_nat count := part]> partitions) (count + 1) max_partitions
  end.

(** The slot loop of [detect_mbr_partitions]. *)
Fixpoint collect_mbr_entries (dev_block_size : Z) (mbr : list Z)
         (slots : list nat) (partitions : list partition_info_t)
         (count max_partitions : Z) : list partition_info_t * Z :=
  match slots with
  | [] => (partitions, count)
  | i :: rest =>
    if negb (count <? max_partitions) then (partitions, count)
    else
      let i' := Z.of_nat i in
      if (mbr_entry_partition_type mbr i' =? 0)
         || (mbr_entry_num_sectors mbr i' =? 0) then
        collect_mbr_entries dev_block_size mbr rest partitions count
                            max_partitions
      else
        let old := nth (Z.to_nat count) partitions blank_partition_info in
        let part :=
          {| type := PART_TYPE_MBR;
             start_lba := mbr_entry_first_lba mbr i';
             end_lba := u32 (mbr_entry_first_lba mbr i'
                             + mbr_entry_num_sectors mbr i' - 1);
             size_sectors := mbr_entry_num_sectors mbr i';
             info_block_size := dev_block_size;
             bootable := Z.testbit (mbr_entry_status mbr i') 7;
             mbr_type := mbr_entry_partition_type mbr i';
             name := mbr_type_name (mbr_entry_partition_type mbr i');
             type_guid := type_guid old;
             unique_guid := unique_guid old |} in
        collect_mbr_entries dev_block_size mbr rest
          (<[Z.to_nat count := part]> partitions) (count + 1) max_partitions
  end.

Section WithPlatform.
Context {W : Type} (plat : platform_t W).
Local Open Scope io_scope.

(** [device->read_blocks (device, lba, count, buffer)] into a buffer of
    [size] bytes. *)
Definition dev_read_blocks (device : block_device_t W) (lba count size : Z)
  : M W (status_t * list Z) := fun m =>
  let '(st, data, w) := read_blocks device lba count (world m) in
  ((st, resize (Z.to_nat size) 0 data),
   {| world := w; io_log := io_log m ++ [IoReadBlocks lba count] |}).

(** [simple_malloc] / [simple_free], left to the environment like
    [alloc_pool] / [free_pool]. *)
Definition simple_malloc (size : Z) : M W bool := alloc plat size.
Definition simple_free : M W unit := free plat.

Definition detect_gpt_partitions (device : block_device_t W)
           (partitions : list partition_info_t)
           (num_partitions max_partitions : Z)
  : M W (status_t * list partition_info_t * Z) :=
  do '(status, sector_buf) <- dev_read_blocks device 1 1 SECTOR_SIZE;
  if negb (status_eqb status STATUS_SUCCESS) then
    ret (STATUS_ERROR, partitions, num_partitions)
  else if negb (hdr_signature sector_buf =? GPT_HEADER_SIGNATURE) then
    ret (STATUS_NOT_FOUND, partitions, num_partitions)
  else
    let orig_crc := hdr_header_crc32 sector_buf in
    let gpt_hdr := set_u32 sector_buf 16 0 in
    let calc_crc := calculate_crc32 gpt_hdr (hdr_header_size gpt_hdr) in
    if negb (orig_crc =? calc_crc) then
      ret (STATUS_ERROR, partitions, num_partitions)
    else
      let entries_size :=
        u32 (hdr_num_partition_entries gpt_hdr
             * hdr_partition_entry_size gpt_hdr) in
      do entries_ok <- simple_malloc entries_size;
      if negb entries_ok then
        ret (STATUS_OUT_OF_RESOURCES, partitions, num_partitions)
      else
        let sectors_needed := u32 (entries_size + SECTOR_SIZE - 1) / SECTOR_SIZE in
        do '(status, entries) <-
           dev_read_blocks device (hdr_partition_entry_lba gpt_hdr)
                           sectors_needed entries_size;
        if negb (status_eqb status STATUS_SUCCESS) then
          simple_free ;; ret (STATUS_ERROR, partitions, num_partitions)
        else
          let '(partitions, count) :=
            collect_gpt_entries (block_size device) gpt_hdr entries
              (seq 0 (Z.to_nat (hdr_num_partition_entries gpt_hdr)))
              partitions 0 max_partitions in
          simple_free ;; ret (STATUS_SUCCESS, partitions, count).

Definition detect_mbr_partitions (device : block_device_t W)
           (partitions : list partition_info_t)
           (num_partitions max_partitions : Z)
  : M W (status_t * list partition_info_t * Z) :=
  do '(status, sector_buf) <- dev_read_blocks device 0 1 SECTOR_SIZE;
  if negb (status_eqb status STATUS_SUCCESS) then
    ret (STATUS_ERROR, partitions, num_partitions)
  else if negb (mbr_signature sector_buf =? MBR_SIGNATURE) then
    ret (STATUS_NOT_FOUND, partitions, num_partitions)
  else
    let '(partitions, count) :=
      collect_mbr_entries (block_size device) sector_buf (seq 0 4)
                          partitions 0 max_partitions in
    ret (STATUS_SUCCESS, partitions, count).

Definition discover_partitions (device : block_device_t W)
           (partitions : list partition_info_t)
           (num_partitions max_partitions : Z)
  : M W (status_t * list partition_info_t * Z) :=
  do '(status, partitions1, num1) <-
     detect_gpt_partitions device partitions num_partitions max_partitions;
  if status_eqb status STATUS_SUCCESS then
    ret (STATUS_SUCCESS, partitions1, num1)
  else
    do '(status, partitions2, num2) <-
       detect_mbr_partitions device partitions1 num1 max_partitions;
    if status_eqb status STATUS_SUCCESS then
      ret (STATUS_SUCCESS, partitions2, num2)
    else ret (STATUS_NOT_FOUND, partitions2, num2).

End WithPlatform.

(** *** Partition devices *)

(** The two function pointers of [block_device_t] besides
    [read_blocks]. *)
Record block_writer_t (W : Type) : Type := {
  write_blocks : Z -> Z -> list Z -> W -> status_t * W;
  flush : W -> status_t * W
}.
Arguments write_blocks {W} _ _ _ _ _.
Arguments flush {W} _ _.

(** [partition_device_t]: the parent device (its three operations) and
    the descriptor; the [block_dev] member is [block_dev] /
    [block_writer] below. *)
Record partition_device_t (W : Type) : Type := {
  parent : block_device_t W;
  parent_writer : block_writer_t W;
  info : partition_info_t
}.
Arguments parent {W} _.
Arguments parent_writer {W} _.
Arguments info {W} _.

(** [sizeof (partition_device_t)] under the LP64 layout of aarch64. *)
Definition sizeof_partition_device_t : Z := 256.

Section PartitionDevice.
Context {W : Type}.

Definition partition_read_blocks (part_dev : partition_device_t W)
           (lba count : Z) (w : W) : status_t * list Z * W :=
  let parent_lba := u64 (start_lba (info part_dev) + lba) in
  if end_lba (info part_dev) <? u64 (parent_lba + count - 1) then
    (STATUS_INVALID_PARAM, [], w)
  else read_blocks (parent part_dev) parent_lba count w.

Definition partition_write_blocks (part_dev : partition_device_t W)
           (lba count : Z) (buffer : list Z) (w : W) : status_t * W :=
  let parent_lba := u64 (start_lba (info part_dev) + lba) in
  if end_lba (info part_dev) <? u64 (parent_lba + count - 1) then
    (STATUS_INVALID_PARAM, w)
  else write_blocks (parent_writer part_dev) parent_lba count buffer w.

Definition partition_flush (part_dev : partition_device_t W) (w : W)
  : status_t * W :=
  flush (parent_writer part_dev) w.

(** [part_dev->block_dev] as [create_partition_device] fills it in. *)
Definition block_dev (part_dev : partition_device_t W) : block_device_t W :=
  {| total_sectors := size_sectors (info part_dev);
     block_size := info_block_size (info part_dev);
     read_blocks := partition_read_blocks part_dev |}.

Definition block_writer (part_dev : partition_device_t W) : block_writer_t W :=
  {| write_blocks := partition_write_blocks part_dev;
     flush := partition_flush part_dev |}.

(** [create_partition_device]; [None] is the NULL result. *)
Definition create_partition_device (plat : platform_t W)
           (parent : block_device_t W) (parent_writer : block_writer_t W)
           (info : partition_info_t) : M W (option (partition_device_t W)) :=
  bind (simple_malloc plat sizeof_partition_device_t) (fun part_dev =>
    if negb part_dev then ret None
    else ret (Some {| parent := parent; parent_writer := parent_writer;
                      info := info |})).
End PartitionDevice.

End Partition.

(* ====================================================================== *)
(** ** Concrete headers, images and devices used by the examples *)

Module Fixtures.

(** A 92-byte header whose stored checksum is 5 and whose declared size
    is 0. *)
Definition stale_header : list Z := set_u32 (zero_buffer 92) 16 5.

(** *** A RAM disk *)

(** The world of a RAM disk is its content.  A transfer that runs past
    the end of the medium fails. *)
Definition ram_read (media offset size : Z) (disk : list Z)
  : status_t * list Z * list Z :=
  if (0 <=? offset) && (0 <=? size) && (offset + size <=? Z.of_nat (length disk))
  then (STATUS_SUCCESS,
        take (Z.to_nat size) (drop (Z.to_nat offset) disk), disk)
  else (STATUS_ERROR, [], disk).

Definition ram_write (media offset size : Z) (data disk : list Z)
  : status_t * list Z :=
  if (0 <=? offset) && (0 <=? size) && (offset + size <=? Z.of_nat (length disk))
  then (STATUS_SUCCESS,
        take (Z.to_nat offset) disk ++ resize (Z.to_nat size) 0 data
          ++ drop (Z.to_nat (offset + size)) disk)
  else (STATUS_ERROR, disk).

Definition ram_disk (blocks : Z) : block_device_t (list Z) :=
  {| total_sectors := blocks; block_size := 512; media_id := 1;
     read_disk := ram_read; write_disk := ram_write |}.

(** An allocator that always succeeds. *)
Definition ram_platform : platform_t (list Z) :=
  {| alloc_pool := fun _ w => (true, w); free_pool := fun w => w |}.

Definition boot (disk : list Z) : machine (list Z) :=
  {| world := disk; io_log := [] |}.

(** Little-endian encoders for building images. *)
Definition le16 (v : Z) : list Z := [u8 v; u8 (Z.shiftr v 8)].
Definition le32 (v : Z) : list Z := le16 v ++ le16 (Z.shiftr v 16).
Definition le64 (v : Z) : list Z := le32 v ++ le32 (Z.shiftr v 32).

Definition mbr_slot (boot type start size : Z) : list Z :=
  [boot; 0; 0; 0; type; 0; 0; 0] ++ le32 start ++ le32 size.

Definition empty_slot : list Z := mbr_slot 0 0 0 0.

(** One 512-byte MBR / EBR block with the given four slots. *)
Definition mbr_block (s0 s1 s2 s3 : list Z) : list Z :=
  replicate 446 0 ++ s0 ++ s1 ++ s2 ++ s3 ++ le16 0xAA55.

Definition zero_block : list Z := replicate 512 0.

(** A disk whose extended partition starts at block 1 with an EBR that
    has no logical partition and links to itself. *)
Definition looping_disk : list Z :=
  mbr_block (mbr_slot 0 0x05 1 3) empty_slot empty_slot empty_slot
  ++ mbr_block empty_slot (mbr_slot 0 0x05 0 1) empty_slot empty_slot
  ++ zero_block ++ zero_block.

(** Two primaries (slots 0 and 2) and an extended partition (slot 1) at
    block 4 whose chain holds three logical partitions. *)
Definition chained_disk : list Z :=
  mbr_block (mbr_slot 0x80 0x0C 1 3) (mbr_slot 0 0x0F 4 12)
            (mbr_slot 0 0x83 16 4) empty_slot
  ++ zero_block ++ zero_block ++ zero_block
  ++ mbr_block (mbr_slot 0 0x83 1 2) (mbr_slot 0 0x05 3 3) empty_slot empty_slot
  ++ zero_block ++ zero_block
  ++ mbr_block (mbr_slot 0 0x83 1 2) (mbr_slot 0 0x05 6 3) empty_slot empty_slot
  ++ zero_block ++ zero_block
  ++ mbr_block (mbr_slot 0 0x07 1 2) empty_slot empty_slot empty_slot
  ++ zero_block ++ zero_block
  ++ concat (replicate 7 zero_block).

(** The initial content of the caller's descriptor array. *)
Definition blank_info : Mbr.mbr_partition_info_t :=
  Mbr.primary_partition_info 0 Layout.empty_mbr_partition 0.

(** The first EBR of [chained_disk] (block 4). *)
Definition first_ebr_block : list Z :=
  mbr_block (mbr_slot 0 0x83 1 2) (mbr_slot 0 0x05 3 3) empty_slot empty_slot.

(** The machine once block 0 of [chained_disk] has been read. *)
Definition after_mbr_read : machine (list Z) :=
  {| world := chained_disk; io_log := [IoRead 0 512] |}.

(** *** GPT images *)

Definition protective_block : list Z :=
  mbr_block (mbr_slot 0 0xEE 1 11) empty_slot empty_slot empty_slot.

(** A disk that carries nothing but a protective MBR. *)
Definition protective_disk : list Z :=
  protective_block ++ concat (replicate 3 zero_block).

Definition pad_block (l : list Z) : list Z := resize 512 0 l.

Definition gpt_entry (type : list Z) (first last attrs : Z) : list Z :=
  type ++ replicate 16 7 ++ le64 first ++ le64 last ++ le64 attrs
       ++ replicate 72 0.

Definition unused_entry : list Z := replicate 128 0.

(** The 16 bytes of the EFI system partition type GUID. *)
Definition efi_type : list Z :=
  [0x28; 0x73; 0x2A; 0xC1; 0x1F; 0xF8; 0xD2; 0x11;
   0xBA; 0x4B; 0x00; 0xA0; 0xC9; 0x3E; 0xC9; 0x3B].

(** A header block with a correct header checksum. *)
Definition gpt_header_block (my alt first last entry_lba num size : Z)
           (entries : list Z) : list Z :=
  pad_block
    (Gpt.set_header_crc 92
       (le64 Gpt.GPT_HEADER_SIGNATURE ++ le32 0x00010000 ++ le32 92
        ++ le32 0 ++ le32 0 ++ le64 my ++ le64 alt ++ le64 first ++ le64 last
        ++ replicate 16 9 ++ le64 entry_lba ++ le32 num ++ le32 size
        ++ le32 (Gpt.calculate_crc32 entries (num * size)))).

(** Entry array of eight 128-byte entries over the usable range 4..8:
    two entries that overlap, one out of range, one marked
    implementation-reserved (attribute bit 1), four unused. *)
Definition filtered_entries : list Z :=
  gpt_entry efi_type 4 5 0 ++ gpt_entry efi_type 5 6 0
  ++ gpt_entry efi_type 1 2 0 ++ gpt_entry efi_type 8 8 2
  ++ unused_entry ++ unused_entry ++ unused_entry ++ unused_entry.

(** Entry array with two usable partitions, [4,5] and [6,8]. *)
Definition plain_entries : list Z :=
  gpt_entry efi_type 4 5 0 ++ gpt_entry efi_type 6 8 4
  ++ concat (replicate 6 unused_entry).

(** A 12-block GPT disk: protective MBR, primary header at 1 with its
    entries at 2-3, usable blocks 4..8, backup entries at 9-10, backup
    header at 11. *)
Definition gpt_disk_with (entries : list Z) : list Z :=
  protective_block
  ++ gpt_header_block 1 11 4 8 2 8 128 entries
  ++ entries
  ++ concat (replicate 5 zero_block)
  ++ entries
  ++ gpt_header_block 11 1 4 8 9 8 128 entries.

Definition gpt_disk : list Z := gpt_disk_with plain_entries.
Definition filtered_gpt_disk : list Z := gpt_disk_with filtered_entries.

(** [gpt_disk] with its backup header block wiped. *)
Definition gpt_disk_no_backup : list Z :=
  take (11 * 512) gpt_disk ++ zero_block.

Definition primary_header_of (disk : list Z) : list Z :=
  take 92 (drop 512 disk).
Definition backup_header_of (disk : list Z) : list Z :=
  take 92 (drop (11 * 512) disk).

Definition blank_gpt_info : Gpt.gpt_partition_info_t :=
  {| Gpt.info_type_guid := Gpt.GUID_UNUSED;
     Gpt.info_unique_guid := Gpt.GUID_UNUSED;
     Gpt.start_lba := 0; Gpt.end_lba := 0; Gpt.size_sectors := 0;
     Gpt.info_attributes := 0; Gpt.name := []; Gpt.partition_number := 0;
     Gpt.is_system := false; Gpt.is_bootable := false |}.

(** A device of no blocks at all. *)
Definition empty_disk : list Z := [].

(** *** Entry arrays for the overlap check *)

(** A header over the usable range 1..100 for [num] entries of 128
    bytes. *)
Definition range_header (num : Z) : list Z :=
  gpt_header_block 1 200 1 100 2 num 128 [].

Definition touching_entries : list Z :=
  gpt_entry efi_type 10 20 0 ++ gpt_entry efi_type 20 30 0.

Definition adjacent_entries : list Z :=
  gpt_entry efi_type 10 19 0 ++ gpt_entry efi_type 20 30 0.

(** [10,20] and [40,50] are disjoint; [15,45] overlaps both. *)
Definition bridged_entries : list Z :=
  gpt_entry efi_type 10 20 0 ++ gpt_entry efi_type 40 50 0
  ++ gpt_entry efi_type 15 45 0.

(** A device with 256-byte blocks. *)
Definition small_block_disk : block_device_t (list Z) :=
  {| total_sectors := 16; block_size := 256; media_id := 1;
     read_disk := ram_read; write_disk := ram_write |}.

(** *** A RAM disk behind the block interface of partition_aarch64.c *)

Definition ram_read_blocks (bs lba count : Z) (disk : list Z)
  : status_t * list Z * list Z :=
  ram_read 0 (lba * bs) (count * bs) disk.

Definition ram_block_disk (blocks bs : Z) : Partition.block_device_t (list Z) :=
  {| Partition.total_sectors := blocks; Partition.block_size := bs;
     Partition.read_blocks := ram_read_blocks bs |}.

(** *** Descriptors and images for the helper functions *)

(** An MBR descriptor spanning the sectors [start] to [stop]. *)
Definition info_span (start stop : Z) : Mbr.mbr_partition_info_t :=
  {| Mbr.start_lba := start; Mbr.end_lba := stop;
     Mbr.size_sectors := stop - start + 1; Mbr.info_block_size := 512;
     Mbr.partition_type := 0x83; Mbr.bootable := false;
     Mbr.is_extended := false; Mbr.partition_number := 1;
     Mbr.type_name := "Linux" |}.

(** A RAM disk of four zeroed blocks. *)
Definition blank_disk : list Z := concat (replicate 4 zero_block).

(** A 128-byte entry whose name is "boot" followed by one code unit
    outside ASCII (U+00E9), in UTF-16LE. *)
Definition named_entry : list Z :=
  efi_type ++ replicate 16 7 ++ le64 4 ++ le64 5 ++ le64 0
  ++ [98; 0; 111; 0; 111; 0; 116; 0; 0xE9; 0] ++ replicate 62 0.

(** A 128-byte entry named "boot", and the descriptors of the array
    that holds [named_entry] ("boot" and one more character) before
    it. *)
Definition boot_entry : list Z :=
  efi_type ++ replicate 16 7 ++ le64 6 ++ le64 8 ++ le64 0
  ++ [98; 0; 111; 0; 111; 0; 116; 0] ++ replicate 64 0.

Definition named_infos : list Gpt.gpt_partition_info_t :=
  map (Gpt.gpt_partition_info (range_header 2) (named_entry ++ boot_entry))
      [0; 1]%nat.

(** The allocator as the sources have it: [alloc_pool] returns NULL,
    [free_pool] does nothing. *)
Definition null_platform : platform_t (list Z) :=
  {| alloc_pool := fun _ w => (false, w); free_pool := fun w => w |}.

(** [gpt_disk] cut off before its last block, on a device that still
    declares twelve blocks: a write to block 11 fails. *)
Definition short_gpt_disk : list Z := take (11 * 512) gpt_disk.

(** *** Partition devices over a RAM disk *)

Definition ram_write_blocks (bs lba count : Z) (data disk : list Z)
  : status_t * list Z :=
  ram_write 0 (lba * bs) (count * bs) data disk.

Definition ram_block_writer (bs : Z) : Partition.block_writer_t (list Z) :=
  {| Partition.write_blocks := ram_write_blocks bs;
     Partition.flush := fun disk => (STATUS_SUCCESS, disk) |}.

(** A descriptor for the blocks [start] to [stop] of a disk with
    512-byte blocks. *)
Definition span_info (start stop : Z) : Partition.partition_info_t :=
  {| Partition.type := Partition.PART_TYPE_MBR;
     Partition.start_lba := start; Partition.end_lba := stop;
     Partition.size_sectors := stop - start + 1;
     Partition.info_block_size := 512;
     Partition.type_guid := replicate 16 0;
     Partition.unique_guid := replicate 16 0;
     Partition.name := [76; 105; 110; 117; 120];
     Partition.bootable := false; Partition.mbr_type := 0x83 |}.

(** The partition device for blocks 4 to 15 of a RAM disk of twenty
    blocks, and the one for blocks 2 to 5 inside it. *)
Definition outer_device : Partition.partition_device_t (list Z) :=
  {| Partition.parent := ram_block_disk 20 512;
     Partition.parent_writer := ram_block_writer 512;
     Partition.info := span_info 4 15 |}.

Definition inner_device : Partition.partition_device_t (list Z) :=
  {| Partition.parent := Partition.block_dev outer_device;
     Partition.parent_writer := Partition.block_writer outer_device;
     Partition.info := span_info 2 5 |}.

(** A device with 4096-byte blocks. *)
Definition large_block_disk : block_device_t (list Z) :=
  {| total_sectors := 4; block_size := 4096; media_id := 1;
     read_disk := ram_read; write_disk := ram_write |}.

(** *** A header whose entry count times entry size passes 2^32 *)

Definition lone_entry : list Z := gpt_entry efi_type 3 3 0.

(** A header at block 1 that declares 2^25 + 1 entries of 128 bytes
    (2^32 + 128 bytes in all) at block 2, with the array checksum of
    the first 128 bytes. *)
Definition wrapped_header_block : list Z :=
  pad_block
    (Gpt.set_header_crc 92
       (le64 Gpt.GPT_HEADER_SIGNATURE ++ le32 0x00010000 ++ le32 92
        ++ le32 0 ++ le32 0 ++ le64 1 ++ le64 3 ++ le64 3 ++ le64 3
        ++ replicate 16 9 ++ le64 2 ++ le32 (2 ^ 25 + 1) ++ le32 128
        ++ le32 (Gpt.calculate_crc32 lone_entry 128))).

(** Four blocks: protective MBR, that header, one entry, zeros. *)
Definition wrapped_gpt_disk : list Z :=
  protective_block ++ wrapped_header_block ++ pad_block lone_entry
  ++ zero_block.

(** *** A disk with two extended partitions *)

(** Extended partitions at blocks 1 and 3, each with one EBR that holds
    one logical partition (at the block after the EBR) and no link. *)
Definition twin_extended_disk : list Z :=
  mbr_block (mbr_slot 0 0x05 1 2) (mbr_slot 0 0x05 3 2) empty_slot empty_slot
  ++ mbr_block (mbr_slot 0 0x83 1 1) empty_slot empty_slot empty_slot
  ++ zero_block
  ++ mbr_block (mbr_slot 0 0x83 1 1) empty_slot empty_slot empty_slot
  ++ zero_block.

End Fixtures.
Import Fixtures.

(* ====================================================================== *)
(** *** Vocabulary for the statements about Mbr.c *)

(** An EBR block with no logical partition whose second slot is a link. *)
Definition empty_link_block (buf : list Z) : Prop :=
  Layout.signature (Layout.as_mbr buf) = Layout.MBR_SIGNATURE
  ∧ Layout.os_indicator (Layout.partition_at (Layout.as_mbr buf) 0)
    = Mbr.PARTITION_TYPE_EMPTY
  ∧ Layout.os_indicator (Layout.partition_at (Layout.as_mbr buf) 1)
    ≠ Mbr.PARTITION_TYPE_EMPTY
  ∧ Mbr.is_extended_partition
      (Layout.os_indicator (Layout.partition_at (Layout.as_mbr buf) 1)) = true
  ∧ 0 < Layout.size_in_lba (Layout.partition_at (Layout.as_mbr buf) 1).

(** The descriptors of [l] carry the numbers [n0], [n0 + 1], ... (in
    32-bit arithmetic), in order. *)
Definition numbered_from (n0 : Z) (l : list Mbr.mbr_partition_info_t) : Prop :=
  ∀ (k : nat) p, l !! k = Some p →
    Mbr.partition_number p = u32 (n0 + Z.of_nat k).

(** What primary slot [i] of [mbr] may contribute to the output: nothing
    for an empty slot; logical partitions numbered from 5 for an extended
    slot; otherwise at most one descriptor, numbered [i + 1] and taken
    from the slot. *)
Definition slot_segment (mbr : Layout.master_boot_record_t) (i : nat)
           (seg : list Mbr.mbr_partition_info_t) : Prop :=
  let entry := Layout.partition_at mbr i in
  if (Layout.os_indicator entry =? Mbr.PARTITION_TYPE_EMPTY)
     || (Layout.size_in_lba entry =? 0) then seg = []
  else if Mbr.is_extended_partition (Layout.os_indicator entry) then
    numbered_from 5 seg
  else
    seg = [] ∨
    ∃ p, seg = [p]
         ∧ Mbr.partition_number p = Z.of_nat i + 1
         ∧ Mbr.start_lba p = Layout.starting_lba entry
         ∧ Mbr.size_sectors p = Layout.size_in_lba entry
         ∧ Mbr.partition_type p = Layout.os_indicator entry.

(** *** Vocabulary for the statements about the GPT parser *)

(** Entry [i] of the array is in use (its type GUID is not all zero). *)
Definition entry_used (header entries : list Z) (i : nat) : bool :=
  negb (Gpt.compare_guid
          (Gpt.partition_type_guid (Gpt.entry_at header entries i))
          Gpt.GUID_UNUSED).

(** Entry [i] lies inside the usable range, start before end. *)
Definition entry_in_range (header entries : list Z) (i : nat) : bool :=
  negb (Gpt.entry_out_of_range header (Gpt.entry_at header entries i)).

(** [a.end >= b.start && a.start <= b.end] *)
Definition entries_overlap (header entries : list Z) (a b : nat) : Prop :=
  Gpt.ending_lba (Gpt.entry_at header entries a)
    >= Gpt.starting_lba (Gpt.entry_at header entries b)
  ∧ Gpt.starting_lba (Gpt.entry_at header entries a)
    <= Gpt.ending_lba (Gpt.entry_at header entries b).

(** The status array [check_gpt_entries] leaves when started, as in
    [discover_gpt_partitions], on a zeroed array of one status per
    entry. *)
Definition checked_status (header entries : list Z)
  : list Gpt.partition_entry_status_t :=
  Gpt.check_gpt_entries header entries
    (replicate (Z.to_nat (Gpt.num_partition_entries header)) Gpt.zero_status).

Definition flagged_overlap (header entries : list Z) (k : nat) : bool :=
  Gpt.overlap (Gpt.status_at (checked_status header entries) k).

(** The test the inner loop of [check_gpt_entries] applies to the pair
    (i, j). *)
Definition pair_test (header entries : list Z) (i j : nat) : bool :=
  (Gpt.starting_lba (Gpt.entry_at header entries i)
     <=? Gpt.ending_lba (Gpt.entry_at header entries j))
  && (Gpt.starting_lba (Gpt.entry_at header entries j)
        <=? Gpt.ending_lba (Gpt.entry_at header entries i)).

(** The pairs the two loops of [check_gpt_entries] compare and find
    overlapping: [i] in use and in range, [j] a later index in use, and
    the two satisfying the test. *)
Definition compared (header entries : list Z) (i j : nat) : Prop :=
  (i < j < Z.to_nat (Gpt.num_partition_entries header))%nat
  ∧ entry_used header entries i = true
  ∧ entry_in_range header entries i = true
  ∧ entry_used header entries j = true
  ∧ pair_test header entries i j = true.

(** A computation that adds no write to the I/O log. *)
Definition read_only {W A : Type} (c : M W A) : Prop :=
  ∀ m, writes_of (snd (c m)) = writes_of m.

(** A computation that only appends to the I/O log. *)
Definition log_extends {W A : Type} (c : M W A) : Prop :=
  ∀ m, ∃ rest, io_log (snd (c m)) = io_log m ++ rest.

(** *** Vocabulary for the helper functions *)

(** The characters of a C string: none of them is the terminator. *)
Fixpoint no_terminator (s : string) : bool :=
  match s with
  | EmptyString => true
  | String c s' => negb (Ascii.eqb c Ascii.zero) && no_terminator s'
  end.

(** [i] is the first index below [num] whose descriptor passes [test]. *)
Definition first_passing {A : Type} (test : A → bool) (l : list A)
           (num : Z) (i : nat) : Prop :=
  Z.of_nat i < num
  ∧ (∃ p, l !! i = Some p ∧ test p = true)
  ∧ ∀ (j : nat) q, (j < i)%nat → l !! j = Some q → test q = false.

(** No index below [num] holds a descriptor that passes [test]. *)
Definition none_passing {A : Type} (test : A → bool) (l : list A)
           (num : Z) : Prop :=
  ∀ (j : nat) q, Z.of_nat j < num → l !! j = Some q → test q = false.

(** A descriptor that spans [size_sectors] sectors, at least one, from
    [start_lba] to [end_lba] without wrap-around, of a non-empty type
    and not marked extended. *)
Definition well_formed_info (p : Mbr.mbr_partition_info_t) : Prop :=
  0 <= Mbr.start_lba p
  ∧ 1 <= Mbr.size_sectors p
  ∧ Mbr.end_lba p = Mbr.start_lba p + Mbr.size_sectors p - 1
  ∧ Mbr.partition_type p ≠ Mbr.PARTITION_TYPE_EMPTY
  ∧ Mbr.is_extended p = false.

(** The character [utf16_to_ascii] stores for the code unit [j] of the
    name at [src]: the unit itself when it is ASCII, ['?'] otherwise. *)
Definition ascii_of_unit (buf : list Z) (src : Z) (j : nat) : Z :=
  let c := get_u16 buf (src + 2 * Z.of_nat j) in
  if c <? 128 then c else 63.

(** *** The bit-serial CRC-32, for comparison with the table-driven code

    One step of the reflected shift register with polynomial
    0xEDB88320, and the checksum of a byte string: register preset to
    all ones, each byte exclusive-ored into the low end and shifted out
    in eight steps, the result complemented. *)
Definition crc32_bit_step (c : Z) : Z :=
  if Z.testbit c 0 then Z.lxor (Z.shiftr c 1) 0xEDB88320 else Z.shiftr c 1.

Definition crc32_byte_step (c byte : Z) : Z :=
  Nat.iter 8 crc32_bit_step (Z.lxor c byte).

Definition crc32_bit_serial (bytes : list Z) : Z :=
  Z.lxor (fold_left crc32_byte_step bytes 0xFFFFFFFF) 0xFFFFFFFF.

(** *** Vocabulary for the enumeration of GPT entries *)

Definition flagged_out_of_range (header entries : list Z) (k : nat) : bool :=
  Gpt.out_of_range (Gpt.status_at (checked_status header entries) k).

Definition flagged_os_specific (header entries : list Z) (k : nat) : bool :=
  Gpt.os_specific (Gpt.status_at (checked_status header entries) k).

(** The test of the enumeration loop of [discover_gpt_partitions] on
    entry [i]: in use and none of its three flags set. *)
Definition entry_reported (header entries : list Z) (i : nat) : bool :=
  negb (Gpt.compare_guid
          (Gpt.partition_type_guid (Gpt.entry_at header entries i))
          Gpt.GUID_UNUSED
        || flagged_out_of_range header entries i
        || flagged_overlap header entries i
        || flagged_os_specific header entries i).

(** The indices of the entries the enumeration reports: the first
    [max_partitions] entries that pass the test, in the order of the
    array. *)
Definition reported_indices (header entries : list Z) (max_partitions : Z)
  : list nat :=
  take (Z.to_nat max_partitions)
       (filter (fun i => entry_reported header entries i = true)
               (seq 0 (Z.to_nat (Gpt.num_partition_entries header)))).

(** *** Vocabulary for [detect_mbr_partitions] of partition_aarch64.c *)




(** *** Discovery as a chain of visits to the primary slots *)

(** What the loop over the primary slots carries from slot to slot: the
    caller's array, the count and the machine. *)
Definition slot_state (W : Type) : Type :=
  (list Mbr.mbr_partition_info_t * Z * machine W)%type.

(** What the visit of primary slot [i] does to that state.  Nothing
    once the array is full, and nothing for an empty slot.  For an
    extended slot: one walk of [process_extended_partition] whose base
    address and whose first EBR address are both the starting address
    stored in the slot; its status is dropped, and the descriptors it
    appends are numbered from 5.  For any other slot: one descriptor
    taken from the slot, numbered [i + 1]. *)
Definition slot_visit {W : Type} (plat : platform_t W) (fuel : nat)
           (dev : block_device_t W) (mbr : Layout.master_boot_record_t)
           (max_partitions : Z) (i : nat) (s s' : slot_state W) : Prop :=
  let '(parts, count, m) := s in
  let entry := Layout.partition_at mbr i in
  if negb (count <? max_partitions) then s' = s
  else if (Layout.os_indicator entry =? Mbr.PARTITION_TYPE_EMPTY)
          || (Layout.size_in_lba entry =? 0) then s' = s
  else if Mbr.is_extended_partition (Layout.os_indicator entry) then
    ∃ status parts' count' m' emitted,
      s' = (parts', count', m')
      ∧ Mbr.process_extended_partition plat fuel dev
          (Layout.starting_lba entry) (Layout.starting_lba entry)
          parts count max_partitions m
        = Some (status, parts', count', m')
      ∧ take (Z.to_nat count') parts' = take (Z.to_nat count) parts ++ emitted
      ∧ count' = count + Z.of_nat (length emitted)
      ∧ numbered_from 5 emitted
  else
    let p := Mbr.primary_partition_info (block_size dev) entry (Z.of_nat i) in
    s' = (<[Z.to_nat count := p]> parts, count + 1, m)
    ∧ Mbr.partition_number p = Z.of_nat i + 1
    ∧ Mbr.start_lba p = Layout.starting_lba entry.

(** The visits of [slots], one after the other, lead from [s] to [s']. *)
Fixpoint slot_chain {W : Type}
         (visit : nat → slot_state W → slot_state W → Prop)
         (slots : list nat) (s s' : slot_state W) : Prop :=
  match slots with
  | [] => s' = s
  | i :: rest => ∃ s1, visit i s s1 ∧ slot_chain visit rest s1 s'
  end.

(* ====================================================================== *)
(** * Properties *)

(** ** Bytes and words *)

Lemma u8_testbit v n :
  Z.testbit (u8 v) n = if (0 <=? n) && (n <? 8) then Z.testbit v n else false.
Proof.
  unfold u8. destruct (Z.leb_spec 0 n); destruct (Z.ltb_spec n 8); simpl.
  - apply Z.mod_pow2_bits_low; lia.
  - apply Z.mod_pow2_bits_high; lia.
  - apply Z.testbit_neg_r; lia.
  - apply Z.testbit_neg_r; lia.
Qed.

Lemma join_bytes v :
  Z.lor (Z.lor (Z.lor (u8 v) (Z.shiftl (u8 (Z.shiftr v 8)) 8))
               (Z.shiftl (u8 (Z.shiftr v 16)) 16))
        (Z.shiftl (u8 (Z.shiftr v 24)) 24) = u32 v.
Proof.
  apply Z.bits_inj'. intros n Hn.
  rewrite !Z.lor_spec, !Z.shiftl_spec, !u8_testbit by lia.
  unfold u32.
  destruct (Z.ltb_spec n 32).
  - rewrite Z.mod_pow2_bits_low by lia.
    repeat match goal with |- context [ (?a <=? ?b) ] => destruct (Z.leb_spec a b) end;
    repeat match goal with |- context [ (?a <? ?b) ] => destruct (Z.ltb_spec a b) end;
    simpl; rewrite ?Z.shiftr_spec by lia; rewrite ?orb_false_r; try lia;
    try (f_equal; lia).
  - rewrite Z.mod_pow2_bits_high by lia.
    repeat match goal with |- context [ (?a <=? ?b) ] => destruct (Z.leb_spec a b) end;
    repeat match goal with |- context [ (?a <? ?b) ] => destruct (Z.ltb_spec a b) end;
    simpl; try lia; reflexivity.
Qed.

Lemma u8_idem v : u8 (u8 v) = u8 v.
Proof. unfold u8. apply Z.mod_mod. lia. Qed.

Lemma length_set_u8 buf off v : length (set_u8 buf off v) = length buf.
Proof. unfold set_u8. destruct (off <? 0); [done|]. apply length_insert. Qed.

Lemma length_set_u32 buf off v : length (set_u32 buf off v) = length buf.
Proof. unfold set_u32. by rewrite !length_set_u8. Qed.

Lemma lookup_set_u8_ne buf off v (i : nat) :
  Z.of_nat i ≠ off → set_u8 buf off v !! i = buf !! i.
Proof.
  intros Hne. unfold set_u8. destruct (Z.ltb_spec off 0); [done|].
  apply list_lookup_insert_ne. lia.
Qed.

Lemma lookup_set_u32_ne buf off v (i : nat) :
  ¬ (off <= Z.of_nat i < off + 4) → set_u32 buf off v !! i = buf !! i.
Proof.
  intros Hne. unfold set_u32. rewrite !lookup_set_u8_ne by lia. done.
Qed.

Lemma byte_at_set_u8_eq buf off v :
  0 <= off < Z.of_nat (length buf) → byte_at (set_u8 buf off v) off = u8 v.
Proof.
  intros H. unfold byte_at, set_u8.
  destruct (Z.ltb_spec off 0); [lia|].
  rewrite nth_lookup, list_lookup_insert_eq by lia. simpl. apply u8_idem.
Qed.

Lemma byte_at_set_u8_ne buf off v i :
  i ≠ off → byte_at (set_u8 buf off v) i = byte_at buf i.
Proof.
  intros H. unfold byte_at.
  destruct (Z.ltb_spec i 0); [done|].
  rewrite !nth_lookup, lookup_set_u8_ne by lia. done.
Qed.

Lemma get_u32_set_u32 buf off v :
  0 <= off → off + 4 <= Z.of_nat (length buf) →
  get_u32 (set_u32 buf off v) off = u32 v.
Proof.
  intros H0 H1. unfold get_u32, set_u32.
  rewrite (byte_at_set_u8_eq _ (off + 3)) by (rewrite !length_set_u8; lia).
  rewrite (byte_at_set_u8_ne _ (off + 3) _ (off + 2)) by lia.
  rewrite (byte_at_set_u8_eq _ (off + 2)) by (rewrite !length_set_u8; lia).
  rewrite (byte_at_set_u8_ne _ (off + 3) _ (off + 1)) by lia.
  rewrite (byte_at_set_u8_ne _ (off + 2) _ (off + 1)) by lia.
  rewrite (byte_at_set_u8_eq _ (off + 1)) by (rewrite !length_set_u8; lia).
  rewrite (byte_at_set_u8_ne _ (off + 3) _ off) by lia.
  rewrite (byte_at_set_u8_ne _ (off + 2) _ off) by lia.
  rewrite (byte_at_set_u8_ne _ (off + 1) _ off) by lia.
  rewrite (byte_at_set_u8_eq _ off) by lia.
  apply join_bytes.
Qed.

Lemma lxor_range n a b :
  0 <= n → 0 <= a < 2 ^ n → 0 <= b < 2 ^ n → 0 <= Z.lxor a b < 2 ^ n.
Proof.
  intros Hn Ha Hb. split; [apply Z.lxor_nonneg; lia|].
  destruct (Z.eq_dec (Z.lxor a b) 0) as [->|Hne]; [lia|].
  assert (0 < Z.lxor a b) by (pose proof (proj2 (Z.lxor_nonneg a b)); lia).
  apply Z.log2_lt_pow2; [done|].
  pose proof (Z.log2_lxor a b ltac:(lia) ltac:(lia)).
  destruct (Z.eq_dec a 0) as [->|]; destruct (Z.eq_dec b 0) as [->|];
    rewrite ?Z.lxor_0_l, ?Z.lxor_0_r in *; try lia.
  - apply Z.log2_lt_pow2; lia.
  - apply Z.log2_lt_pow2; lia.
  - assert (Z.log2 a < n) by (apply Z.log2_lt_pow2; lia).
    assert (Z.log2 b < n) by (apply Z.log2_lt_pow2; lia). lia.
Qed.

Lemma crc32_table_range :
  Forall (fun x => 0 <= x < 2 ^ 32) Gpt.crc32_table.
Proof.
  apply Forall_forall. intros x Hx.
  assert (forallb (fun x => (0 <=? x) && (x <? 2 ^ 32)) Gpt.crc32_table = true)
    as Hall by (vm_compute; reflexivity).
  rewrite forallb_forall in Hall. apply list_elem_of_In in Hx.
  specialize (Hall x Hx). lia.
Qed.

Lemma crc32_step_range crc b :
  0 <= crc < 2 ^ 32 → 0 <= Gpt.crc32_step crc b < 2 ^ 32.
Proof.
  intros Hc. unfold Gpt.crc32_step. apply lxor_range; [lia| |].
  - set (k := Z.to_nat _).
    destruct (Gpt.crc32_table !! k) as [x|] eqn:E.
    + rewrite nth_lookup, E. simpl.
      exact (proj1 (Forall_lookup _ _) crc32_table_range k x E).
    + rewrite nth_lookup, E. simpl. lia.
  - rewrite Z.shiftr_div_pow2 by lia. split.
    + apply Z.div_pos; lia.
    + apply Z.div_lt_upper_bound; lia.
Qed.

Lemma calculate_crc32_range data len : 0 <= Gpt.calculate_crc32 data len < 2 ^ 32.
Proof.
  unfold Gpt.calculate_crc32.
  apply lxor_range; [lia| |lia].
  generalize (get_bytes data 0 (Z.to_nat len)). intros l.
  assert (0 <= 0xFFFFFFFF < 2 ^ 32) as H by lia. revert H.
  generalize 0xFFFFFFFF. induction l as [|b l IH]; intros c Hc; simpl; [done|].
  apply IH, crc32_step_range, Hc.
Qed.

(* ====================================================================== *)
(** ** check_header_crc *)

Lemma check_header_crc_rejected max_size size header :
  size = 0 ∨ (max_size ≠ 0 ∧ max_size < size) →
  Gpt.check_header_crc max_size size header = (false, header).
Proof.
  intros [->|[Hm Hs]]; unfold Gpt.check_header_crc; [done|].
  destruct (Z.eqb_spec size 0); [done|].
  destruct (Z.eqb_spec max_size 0); [lia|].
  destruct (Z.ltb_spec max_size size); [done|lia].
Qed.

Lemma check_header_crc_computed max_size size header :
  size ≠ 0 → (max_size = 0 ∨ size <= max_size) →
  Gpt.check_header_crc max_size size header =
    (Gpt.header_crc32 header
       =? Gpt.calculate_crc32 (Gpt.set_header_crc32 header 0) size,
     Gpt.set_header_crc size header).
Proof.
  intros Hs Hm. unfold Gpt.check_header_crc, Gpt.set_header_crc.
  destruct (Z.eqb_spec size 0); [done|].
  destruct (Z.eqb_spec max_size 0); [done|].
  destruct (Z.ltb_spec max_size size); [lia|done].
Qed.

Lemma header_crc32_set_header_crc size header :
  (20 <= length header)%nat →
  Gpt.header_crc32 (Gpt.set_header_crc size header) =
    Gpt.calculate_crc32 (Gpt.set_header_crc32 header 0) size.
Proof.
  intros Hlen. unfold Gpt.set_header_crc, Gpt.header_crc32, Gpt.set_header_crc32.
  rewrite get_u32_set_u32 by (rewrite ?length_set_u32; lia).
  unfold u32. apply Z.mod_small, calculate_crc32_range.
Qed.

Lemma set_header_crc_frame size header (i : nat) :
  ¬ (16 <= i < 20)%nat → Gpt.set_header_crc size header !! i = header !! i.
Proof.
  intros Hi. unfold Gpt.set_header_crc, Gpt.set_header_crc32.
  rewrite !lookup_set_u32_ne by lia. done.
Qed.

Lemma length_set_header_crc size header :
  length (Gpt.set_header_crc size header) = length header.
Proof. unfold Gpt.set_header_crc, Gpt.set_header_crc32. by rewrite !length_set_u32. Qed.

(** C8, as stated, fails: a call rejected by a size guard leaves the
    stored checksum (5) in place; the checksum recomputed over the
    declared size with the field zeroed is a different value. *)
Lemma check_header_crc_guard_keeps_stored_crc :
  Gpt.check_header_crc 512 0 stale_header = (false, stale_header)
  ∧ Gpt.header_crc32 (snd (Gpt.check_header_crc 512 0 stale_header)) = 5
  ∧ Gpt.calculate_crc32 (Gpt.set_header_crc32 stale_header 0) 0 ≠ 5
  ∧ Gpt.check_header_crc 64 92 stale_header = (false, stale_header)
  ∧ Gpt.calculate_crc32 (Gpt.set_header_crc32 stale_header 0) 92 ≠ 5.
Proof. vm_compute. repeat split; congruence. Qed.

(** C8 (amended).  Once [check_header_crc] is past its size guards
    ([size] non-zero and, for a non-zero [max_size], [size <= max_size]),
    the checksum field of the header holds the checksum recomputed over
    the header with that field zeroed, whether or not the comparison with
    the stored value succeeded, and the verdict is that comparison; when a
    guard rejects the call the header is returned as it was.  In both
    cases the buffer keeps its length and every byte outside the checksum
    field (offsets 16..19). *)
Theorem check_header_crc_stores_recomputed max_size size header :
  (20 <= length header)%nat →
  let recomputed := Gpt.calculate_crc32 (Gpt.set_header_crc32 header 0) size in
  let result := Gpt.check_header_crc max_size size header in
  (size ≠ 0 ∧ (max_size = 0 ∨ size <= max_size) →
     Gpt.header_crc32 (snd result) = recomputed
     ∧ fst result = (Gpt.header_crc32 header =? recomputed))
  ∧ (size = 0 ∨ (max_size ≠ 0 ∧ max_size < size) →
     result = (false, header))
  ∧ length (snd result) = length header
  ∧ (∀ i : nat, ¬ (16 <= i < 20)%nat → snd result !! i = header !! i).
Proof.
  intros Hlen recomputed result. subst recomputed result.
  assert (size = 0 ∨ (max_size ≠ 0 ∧ max_size < size)
          ∨ (size ≠ 0 ∧ (max_size = 0 ∨ size <= max_size))) as Hcase by lia.
  split; [|split; [|split]].
  - intros [Hs Hm]. rewrite check_header_crc_computed by done. simpl.
    split; [by apply header_crc32_set_header_crc|done].
  - apply check_header_crc_rejected.
  - destruct Hcase as [H|[H|[Hs Hm]]].
    + rewrite check_header_crc_rejected by auto. done.
    + rewrite check_header_crc_rejected by auto. done.
    + rewrite check_header_crc_computed by done. apply length_set_header_crc.
  - intros i Hi. destruct Hcase as [H|[H|[Hs Hm]]].
    + rewrite check_header_crc_rejected by auto. done.
    + rewrite check_header_crc_rejected by auto. done.
    + rewrite check_header_crc_computed by done. by apply set_header_crc_frame.
Qed.

Lemma check_header_crc_stores_recomputed_witness :
  (20 <= length stale_header)%nat
  ∧ Gpt.header_crc32 (snd (Gpt.check_header_crc 512 92 stale_header))
    = Gpt.calculate_crc32 (Gpt.set_header_crc32 stale_header 0) 92
  ∧ fst (Gpt.check_header_crc 512 92 stale_header) = false.
Proof.
  assert (20 <= length stale_header)%nat as Hlen by (vm_compute; lia).
  split; [exact Hlen|].
  destruct (check_header_crc_stores_recomputed 512 92 stale_header Hlen)
    as [H _].
  destruct H as [H1 H2]; [lia|].
  split; [exact H1|]. rewrite H2. vm_compute. reflexivity.
Defined.

(* ====================================================================== *)
(** ** Mbr.c: argument checks, protective MBR, result status *)

Section MbrFacts.
Context {W : Type} (plat : platform_t W).
Import Layout.

Lemma status_eqb_eq a b : status_eqb a b = true ↔ a = b.
Proof. destruct a, b; simpl; split; intros; congruence. Qed.

Lemma is_protective_mbr_intro mbr (i : nat) :
  (i < 4)%nat →
  boot_indicator (partition_at mbr i) = 0 →
  os_indicator (partition_at mbr i) = PMBR_GPT_PARTITION →
  starting_lba (partition_at mbr i) = 1 →
  Mbr.is_protective_mbr mbr = true.
Proof.
  intros Hi Hb Ho Hs. unfold Mbr.is_protective_mbr.
  apply existsb_exists. exists i. split.
  - apply in_seq. unfold MAX_MBR_PARTITIONS. lia.
  - rewrite Hb, Ho, Hs. reflexivity.
Qed.

(** Small block sizes and NULL / zero arguments are rejected before
    anything else happens: the machine (world and I/O log) is untouched. *)
Lemma discover_mbr_partitions_small_block fuel dev partitions num_partitions
      max_partitions m :
  block_size dev < sizeof_master_boot_record_t →
  Mbr.discover_mbr_partitions plat fuel (Some dev) partitions num_partitions
                              max_partitions m
  = Some (STATUS_INVALID_PARAM, partitions, num_partitions, m).
Proof.
  intros Hbs. unfold Mbr.discover_mbr_partitions.
  destruct partitions, num_partitions; try reflexivity.
  destruct (max_partitions =? 0); [reflexivity|].
  destruct (Z.ltb_spec (block_size dev) sizeof_master_boot_record_t);
    [reflexivity|lia].
Qed.

(** The MBR path reports success only with at least one descriptor. *)
Lemma discover_mbr_partitions_success_nonempty fuel dev partitions
      num_partitions max_partitions m parts' num' m' :
  Mbr.discover_mbr_partitions plat fuel dev partitions num_partitions
                              max_partitions m
  = Some (STATUS_SUCCESS, parts', num', m') →
  ∃ count, num' = Some count ∧ 0 < count.
Proof.
  unfold Mbr.discover_mbr_partitions.
  destruct dev as [dev|], partitions as [parts|], num_partitions as [num|];
    try discriminate.
  destruct (max_partitions =? 0); [discriminate|].
  destruct (block_size dev <? sizeof_master_boot_record_t); [discriminate|].
  destruct (alloc plat (block_size dev) m) as [ok m0].
  destruct ok; cbn [negb]; [|discriminate].
  destruct (dev_read dev 0 (block_size dev) m0) as [[status buf] m1].
  destruct (status_eqb status STATUS_SUCCESS) eqn:Hst; cbn [negb].
  2:{ intros [= -> _ _ _]. discriminate. }
  destruct (Mbr.validate_mbr (as_mbr buf)); cbn [negb]; [|discriminate].
  destruct (Mbr.is_protective_mbr (as_mbr buf)); [discriminate|].
  destruct (Mbr.primary_loop plat _ _ _ _ _ _ _ _) as [[[parts1 count] m2]|];
    [|discriminate].
  destruct (Z.ltb_spec 0 count); [|discriminate].
  intros [= <- <- <-]. eauto.
Qed.

(** C6.  When the block read from LBA 0 carries a slot with boot flag 0,
    type code 0xEE and starting address 1, [discover_mbr_partitions]
    returns [STATUS_NOT_FOUND] (for every amount of fuel: the chain walk
    is never entered), and leaves the caller's array and count as they
    were. *)
Theorem discover_mbr_partitions_protective fuel dev parts num max_partitions
        m m0 buf m1 (i : nat) :
  max_partitions ≠ 0 →
  sizeof_master_boot_record_t <= block_size dev →
  alloc plat (block_size dev) m = (true, m0) →
  dev_read dev 0 (block_size dev) m0 = ((STATUS_SUCCESS, buf), m1) →
  (i < 4)%nat →
  boot_indicator (partition_at (as_mbr buf) i) = 0 →
  os_indicator (partition_at (as_mbr buf) i) = 0xEE →
  starting_lba (partition_at (as_mbr buf) i) = 1 →
  Mbr.discover_mbr_partitions plat fuel (Some dev) (Some parts) (Some num)
                              max_partitions m
  = Some (STATUS_NOT_FOUND, Some parts, Some num, snd (free plat m1)).
Proof.
  intros Hmax Hbs Halloc Hread Hi Hb Ho Hs.
  unfold Mbr.discover_mbr_partitions.
  destruct (Z.eqb_spec max_partitions 0); [lia|].
  destruct (Z.ltb_spec (block_size dev) sizeof_master_boot_record_t); [lia|].
  rewrite Halloc. cbn [negb]. rewrite Hread. cbn [negb status_eqb].
  destruct (Mbr.validate_mbr (as_mbr buf)); cbn [negb]; [|reflexivity].
  rewrite (is_protective_mbr_intro _ i) by assumption. reflexivity.
Qed.

End MbrFacts.

Lemma discover_mbr_partitions_protective_witness :
  (4 : Z) ≠ 0
  ∧ Layout.sizeof_master_boot_record_t <= block_size (ram_disk 4)
  ∧ Mbr.discover_mbr_partitions ram_platform 0 (Some (ram_disk 4)) (Some [])
      (Some 0) 4 (boot protective_disk)
    = Some (STATUS_NOT_FOUND, Some [], Some 0,
            {| world := protective_disk; io_log := [IoRead 0 512] |}).
Proof.
  split; [lia|]. split; [vm_compute; discriminate|].
  apply (discover_mbr_partitions_protective ram_platform 0 (ram_disk 4) [] 0 4
           (boot protective_disk) (boot protective_disk) protective_block
           {| world := protective_disk; io_log := [IoRead 0 512] |} 0%nat).
  - lia.
  - vm_compute. discriminate.
  - reflexivity.
  - vm_compute. reflexivity.
  - lia.
  - vm_compute. reflexivity.
  - vm_compute. reflexivity.
  - vm_compute. reflexivity.
Defined.

(* ====================================================================== *)
(** ** Mbr.c: an EBR chain that links back to itself *)

Section EbrDivergence.
Context {W : Type} (plat : platform_t W).
Import Layout.

(** If, in every world satisfying [Inv], the block read at address [A]
    is an empty link block whose link leads back to [A], the loop of
    [process_extended_partition] entered at [A] runs out of any fuel. *)
Lemma ebr_loop_self_link_diverges (Inv : W → Prop) dev base A :
  A ≠ 0 →
  (∀ m, Inv (world m) →
     ∃ buf m1,
       dev_read dev (u64 (A * block_size dev)) (block_size dev) m
         = ((STATUS_SUCCESS, buf), m1)
       ∧ Inv (world m1) ∧ empty_link_block buf
       ∧ u64 (base + starting_lba (partition_at (as_mbr buf) 1)) = A) →
  ∀ fuel num parts count max_partitions m,
    count < max_partitions → Inv (world m) →
    Mbr.ebr_loop plat fuel dev base A num parts count max_partitions m = None.
Proof.
  intros HA Hdev fuel. induction fuel as [|fuel IH];
    intros num parts count max_partitions m Hc HI.
  - simpl. destruct (Z.eqb_spec A 0); [lia|].
    destruct (Z.ltb_spec count max_partitions); [reflexivity|lia].
  - cbn [Mbr.ebr_loop].
    destruct (Z.eqb_spec A 0); [lia|].
    destruct (Z.ltb_spec count max_partitions); [|lia]. cbn [negb andb].
    destruct (Hdev m HI) as (buf & m1 & -> & HI1 & (Hsig & H0 & H1 & Hext & Hsz) & Hnext).
    cbn [status_eqb negb]. rewrite Hsig, Z.eqb_refl. cbn [negb].
    rewrite H0, Z.eqb_refl. cbn [negb andb].
    destruct (Z.eqb_spec (os_indicator (partition_at (as_mbr buf) 1))
                         Mbr.PARTITION_TYPE_EMPTY); [contradiction|].
    rewrite Hext. destruct (Z.ltb_spec 0 (size_in_lba (partition_at (as_mbr buf) 1)));
      [|lia].
    cbn [negb andb]. rewrite Hnext. apply IH; assumption.
Qed.

End EbrDivergence.

Lemma looping_disk_block0 :
  dev_read (ram_disk 4) 0 512 (boot looping_disk)
  = ((STATUS_SUCCESS,
      mbr_block (mbr_slot 0 0x05 1 3) empty_slot empty_slot empty_slot),
     {| world := looping_disk; io_log := [IoRead 0 512] |}).
Proof. vm_compute. reflexivity. Qed.

Lemma looping_disk_block1 log :
  dev_read (ram_disk 4) 512 512 {| world := looping_disk; io_log := log |}
  = ((STATUS_SUCCESS,
      mbr_block empty_slot (mbr_slot 0 0x05 0 1) empty_slot empty_slot),
     {| world := looping_disk; io_log := log ++ [IoRead 512 512] |}).
Proof.
  unfold dev_read. cbn [read_disk ram_disk media_id world io_log].
  assert (ram_read 1 512 512 looping_disk
          = (STATUS_SUCCESS,
             mbr_block empty_slot (mbr_slot 0 0x05 0 1) empty_slot empty_slot,
             looping_disk)) as -> by (vm_compute; reflexivity).
  assert (resize (Z.to_nat 512) 0
            (mbr_block empty_slot (mbr_slot 0 0x05 0 1) empty_slot empty_slot)
          = mbr_block empty_slot (mbr_slot 0 0x05 0 1) empty_slot empty_slot)
    as -> by (vm_compute; reflexivity).
  reflexivity.
Qed.

Lemma looping_disk_walk_diverges fuel num parts count max_partitions log :
  count < max_partitions →
  Mbr.ebr_loop ram_platform fuel (ram_disk 4) 1 1 num parts count
               max_partitions {| world := looping_disk; io_log := log |}
  = None.
Proof.
  intros Hc.
  apply (ebr_loop_self_link_diverges ram_platform (fun w => w = looping_disk));
    [lia| |assumption|reflexivity].
  intros [w l] Hw. simpl in Hw. subst w.
  eexists _, _. split; [apply looping_disk_block1|].
  split; [reflexivity|]. split; [|vm_compute; reflexivity].
  unfold empty_link_block. vm_compute. repeat split; congruence.
Qed.

Lemma process_extended_partition_self_link fuel parts count max_partitions log :
  count < max_partitions →
  Mbr.process_extended_partition ram_platform fuel (ram_disk 4) 1 1 parts count
    max_partitions {| world := looping_disk; io_log := log |}
  = None.
Proof.
  intros Hc. unfold Mbr.process_extended_partition.
  change (alloc ram_platform (block_size (ram_disk 4))
                {| world := looping_disk; io_log := log |})
    with (true, {| world := looping_disk; io_log := log |}).
  cbv iota beta. cbn [negb].
  by apply looping_disk_walk_diverges.
Qed.

(** C10 fails on the code: on [looping_disk] (an extended partition at
    block 1 whose EBR holds no logical partition and whose second slot
    links back to block 1) the chain walk is still running after any
    number of iterations, both when [process_extended_partition] is
    entered directly and when [discover_mbr_partitions] reaches it. *)
Theorem ebr_walk_self_link_never_returns fuel parts :
  Mbr.process_extended_partition ram_platform fuel (ram_disk 4) 1 1 parts 0 8
                                 (boot looping_disk)
  = None
  ∧ Mbr.discover_mbr_partitions ram_platform fuel (Some (ram_disk 4))
                                (Some parts) (Some 0) 8 (boot looping_disk)
    = None.
Proof.
  split; [apply process_extended_partition_self_link; lia|].
  unfold Mbr.discover_mbr_partitions.
  change (8 =? 0) with false. cbv iota.
  change (block_size (ram_disk 4) <? Layout.sizeof_master_boot_record_t)
    with false. cbv iota.
  change (alloc ram_platform (block_size (ram_disk 4)) (boot looping_disk))
    with (true, boot looping_disk). cbv iota beta. cbn [negb].
  change (block_size (ram_disk 4)) with 512.
  rewrite looping_disk_block0. cbn [status_eqb negb].
  set (block0 := mbr_block _ _ _ _).
  assert (Mbr.validate_mbr (Layout.as_mbr block0) = true) as ->
    by (vm_compute; reflexivity).
  assert (Mbr.is_protective_mbr (Layout.as_mbr block0) = false) as ->
    by (vm_compute; reflexivity).
  cbn [negb]. change (Z.to_nat Layout.MAX_MBR_PARTITIONS) with 4%nat.
  cbn [seq Mbr.primary_loop].
  change (0 <? 8) with true. cbn [negb].
  assert (Layout.partition_at (Layout.as_mbr block0) 0
          = Layout.as_mbr_partition block0 446) as -> by reflexivity.
  assert (Layout.os_indicator (Layout.as_mbr_partition block0 446) = 5) as ->
    by (vm_compute; reflexivity).
  assert (Layout.size_in_lba (Layout.as_mbr_partition block0 446) = 3) as ->
    by (vm_compute; reflexivity).
  assert (Layout.starting_lba (Layout.as_mbr_partition block0 446) = 1) as ->
    by (vm_compute; reflexivity).
  change ((5 =? Mbr.PARTITION_TYPE_EMPTY) || (3 =? 0)) with false.
  change (Mbr.is_extended_partition 5) with true. cbv iota.
  rewrite process_extended_partition_self_link by lia. reflexivity.
Qed.

(* ====================================================================== *)
(** ** Mbr.c: the EBR chain walk and the numbering of descriptors *)

Lemma lor_range n a b :
  0 <= n → 0 <= a < 2 ^ n → 0 <= b < 2 ^ n → 0 <= Z.lor a b < 2 ^ n.
Proof.
  intros Hn Ha Hb. split; [apply Z.lor_nonneg; lia|].
  destruct (Z.eq_dec a 0) as [->|]; [rewrite Z.lor_0_l; lia|].
  destruct (Z.eq_dec b 0) as [->|]; [rewrite Z.lor_0_r; lia|].
  assert (0 < Z.lor a b).
  { pose proof (proj2 (Z.lor_nonneg a b)).
    destruct (Z.eq_dec (Z.lor a b) 0) as [E|]; [|lia].
    apply Z.lor_eq_0_iff in E. lia. }
  apply Z.log2_lt_pow2; [done|].
  rewrite Z.log2_lor by lia.
  assert (Z.log2 a < n) by (apply Z.log2_lt_pow2; lia).
  assert (Z.log2 b < n) by (apply Z.log2_lt_pow2; lia). lia.
Qed.

Lemma byte_at_range buf i : 0 <= byte_at buf i < 2 ^ 8.
Proof.
  unfold byte_at, u8. destruct (i <? 0); [lia|]. apply Z.mod_pos_bound. lia.
Qed.

Lemma get_u32_range buf off : 0 <= get_u32 buf off < 2 ^ 32.
Proof.
  unfold get_u32.
  pose proof (byte_at_range buf off).
  pose proof (byte_at_range buf (off + 1)).
  pose proof (byte_at_range buf (off + 2)).
  pose proof (byte_at_range buf (off + 3)).
  repeat apply lor_range; try lia; rewrite Z.shiftl_mul_pow2 by lia; lia.
Qed.

Section EbrWalk.
Context {W : Type} (plat : platform_t W).
Import Layout.

Lemma starting_lba_range buf (i : nat) :
  0 <= starting_lba (partition_at (as_mbr buf) i) < 2 ^ 32.
Proof.
  unfold partition_at, as_mbr. cbn [partition].
  destruct (decide (i < 4)%nat) as [Hi|Hi].
  - do 4 (destruct i as [|i]; [apply get_u32_range|]). lia.
  - rewrite nth_overflow by (rewrite length_map, length_seq; lia).
    simpl. lia.
Qed.

Lemma ebr_loop_length fuel dev base current num parts count max_partitions m
      st parts' count' m' :
  Mbr.ebr_loop plat fuel dev base current num parts count max_partitions m
  = Some (st, parts', count', m') →
  length parts' = length parts.
Proof.
  revert current num parts count m.
  induction fuel as [|fuel IH]; intros current num parts count m;
    cbn [Mbr.ebr_loop];
    destruct (negb (current =? 0) && (count <? max_partitions));
    try discriminate; try (intros [= _ <- _ _]; reflexivity).
  destruct (dev_read dev _ _ m) as [[status buf] m1].
  destruct (status_eqb status STATUS_SUCCESS); cbn [negb];
    [|intros [= _ <- _ _]; reflexivity].
  destruct (signature (as_mbr buf) =? MBR_SIGNATURE); cbn [negb];
    [|intros [= _ <- _ _]; reflexivity].
  destruct (negb (os_indicator (partition_at (as_mbr buf) 0)
                  =? Mbr.PARTITION_TYPE_EMPTY)
            && (0 <? size_in_lba (partition_at (as_mbr buf) 0)));
    intros H; apply IH in H; rewrite H; [apply length_insert|reflexivity].
Qed.

Lemma numbered_from_cons n0 p l :
  0 <= n0 < 2 ^ 32 →
  Mbr.partition_number p = n0 →
  numbered_from (u32 (n0 + 1)) l →
  numbered_from n0 (p :: l).
Proof.
  intros Hn Hp Hl [|k] q; simpl.
  - intros [= <-]. rewrite Hp. unfold u32. rewrite Z.add_0_r.
    symmetry. apply Z.mod_small. lia.
  - intros Hq. rewrite (Hl k q Hq). unfold u32.
    rewrite Zplus_mod_idemp_l. f_equal. lia.
Qed.

Lemma numbered_from_nil n0 : numbered_from n0 [].
Proof. intros k p. rewrite lookup_nil. discriminate. Qed.

Lemma u32_range z : 0 <= u32 z < 2 ^ 32.
Proof. unfold u32. apply Z.mod_pos_bound. lia. Qed.

(** Descriptors already in the array stay, new ones are appended after
    them and are numbered consecutively from the running number. *)
Lemma ebr_loop_numbering fuel dev base current num parts count max_partitions m
      st parts' count' m' :
  Mbr.ebr_loop plat fuel dev base current num parts count max_partitions m
  = Some (st, parts', count', m') →
  0 <= num < 2 ^ 32 → 0 <= count →
  max_partitions <= Z.of_nat (length parts) →
  ∃ emitted,
    take (Z.to_nat count') parts' = take (Z.to_nat count) parts ++ emitted
    ∧ count' = count + Z.of_nat (length emitted)
    ∧ count' <= Z.max count max_partitions
    ∧ numbered_from num emitted.
Proof.
  revert current num parts count m.
  induction fuel as [|fuel IH]; intros current num parts count m;
    cbn [Mbr.ebr_loop];
    destruct (negb (current =? 0) && (count <? max_partitions)) eqn:Hcond;
    try discriminate;
    try (intros [= _ <- <- _] _ _ _; exists [];
         rewrite app_nil_r; simpl; split; [done|split; [lia|split; [lia|]]];
         apply numbered_from_nil).
  destruct (dev_read dev _ _ m) as [[status buf] m1].
  destruct (status_eqb status STATUS_SUCCESS); cbn [negb].
  2:{ intros [= _ <- <- _] _ _ _; exists [].
      rewrite app_nil_r; simpl; split; [done|split; [lia|split; [lia|]]].
      apply numbered_from_nil. }
  destruct (signature (as_mbr buf) =? MBR_SIGNATURE); cbn [negb].
  2:{ intros [= _ <- <- _] _ _ _; exists [].
      rewrite app_nil_r; simpl; split; [done|split; [lia|split; [lia|]]].
      apply numbered_from_nil. }
  apply andb_prop in Hcond as [_ Hlt]. apply Z.ltb_lt in Hlt.
  destruct (negb (os_indicator (partition_at (as_mbr buf) 0)
                  =? Mbr.PARTITION_TYPE_EMPTY)
            && (0 <? size_in_lba (partition_at (as_mbr buf) 0)));
    intros H Hnum Hcount Hlen.
  - apply IH in H; [|apply u32_range|lia|rewrite length_insert; lia].
    destruct H as (emitted & Htake & Hc & Hb & Hn).
    set (p := Mbr.logical_partition_info _ _ _ _) in *.
    exists (p :: emitted). split; [|split; [|split]].
    + rewrite Htake.
      replace (Z.to_nat (count + 1)) with (S (Z.to_nat count)) by lia.
      rewrite (take_S_r _ _ p) by (apply list_lookup_insert_eq; lia).
      rewrite take_insert_ge by lia. by rewrite <- app_assoc.
    + simpl length. lia.
    + lia.
    + apply numbered_from_cons; [assumption|reflexivity|assumption].
  - apply IH in H; assumption.
Qed.

(** Below the wrap-around of the 32-bit counter the numbers are the
    integers themselves. *)
Lemma numbered_from_exact n0 l bound :
  numbered_from n0 l → 0 <= n0 → Z.of_nat (length l) <= bound →
  n0 + bound <= 2 ^ 32 →
  ∀ (k : nat) p, l !! k = Some p →
    Mbr.partition_number p = n0 + Z.of_nat k.
Proof.
  intros Hn H0 Hlen Hb k p Hk. rewrite (Hn k p Hk).
  apply lookup_lt_Some in Hk. unfold u32. apply Z.mod_small. lia.
Qed.

Lemma process_extended_partition_numbering fuel dev base ebr_lba parts count
      max_partitions m st parts' count' m' :
  Mbr.process_extended_partition plat fuel dev base ebr_lba parts count
                                 max_partitions m
  = Some (st, parts', count', m') →
  0 <= count → max_partitions <= Z.of_nat (length parts) →
  length parts' = length parts
  ∧ ∃ emitted,
      take (Z.to_nat count') parts' = take (Z.to_nat count) parts ++ emitted
      ∧ count' = count + Z.of_nat (length emitted)
      ∧ count' <= Z.max count max_partitions
      ∧ numbered_from 5 emitted.
Proof.
  unfold Mbr.process_extended_partition.
  destruct (alloc plat (block_size dev) m) as [ok m0].
  destruct ok; cbn [negb].
  - intros H Hc Hlen. split; [by eapply ebr_loop_length|].
    eapply ebr_loop_numbering; eauto. lia.
  - intros [= _ <- <- _] _ _. split; [done|]. exists [].
    rewrite app_nil_r. simpl. split; [done|split; [lia|split; [lia|]]].
    apply numbered_from_nil.
Qed.

Lemma primary_loop_segments fuel dev mbr slots parts count max_partitions m
      parts' count' m' :
  Mbr.primary_loop plat fuel dev mbr slots parts count max_partitions m
  = Some (parts', count', m') →
  Forall (fun i => (i < 4)%nat) slots →
  0 <= count → max_partitions <= Z.of_nat (length parts) →
  length parts' = length parts
  ∧ ∃ segs,
      Forall2 (slot_segment mbr) slots segs
      ∧ take (Z.to_nat count') parts'
        = take (Z.to_nat count) parts ++ concat segs
      ∧ count' = count + Z.of_nat (length (concat segs)).
Proof.
  revert parts count m.
  induction slots as [|i rest IH]; intros parts count m; cbn [Mbr.primary_loop].
  - intros [= <- <- _] _ _ _. split; [done|]. exists []. simpl.
    rewrite app_nil_r. split; [constructor|split; [done|lia]].
  - intros H Hslots Hc Hlen.
    apply Forall_cons in Hslots as [Hi Hrest].
    destruct (Z.ltb_spec count max_partitions) as [Hlt|Hge]; cbn [negb] in H.
    2:{ (* the array is full: no slot contributes any more *)
      injection H as <- <- _. split; [done|].
      exists (map (fun _ => []) (i :: rest)). split; [|split].
      - clear. generalize (i :: rest). intros l. induction l as [|j l IHl];
          simpl; constructor; [|exact IHl].
        unfold slot_segment.
        destruct ((os_indicator (partition_at mbr j)
                   =? Mbr.PARTITION_TYPE_EMPTY)
                  || (size_in_lba (partition_at mbr j) =? 0)); [done|].
        destruct (Mbr.is_extended_partition _);
          [apply numbered_from_nil|by left].
      - replace (concat (map (fun _ => []) (i :: rest)))
          with (@nil Mbr.mbr_partition_info_t).
        + by rewrite app_nil_r.
        + clear. generalize (i :: rest). intros l.
          induction l; simpl; congruence.
      - replace (concat (map (fun _ => []) (i :: rest)))
          with (@nil Mbr.mbr_partition_info_t).
        + simpl. lia.
        + clear. generalize (i :: rest). intros l.
          induction l; simpl; congruence. }
    unfold slot_segment at 1.
    destruct ((os_indicator (partition_at mbr i) =? Mbr.PARTITION_TYPE_EMPTY)
              || (size_in_lba (partition_at mbr i) =? 0)) eqn:Hempty.
    + apply IH in H; try assumption.
      destruct H as (Hl & segs & Hsegs & Htake & Hcount).
      split; [done|]. exists ([] :: segs). split; [|split]; simpl; try done.
      constructor; [|done]. unfold slot_segment. by rewrite Hempty.
    + destruct (Mbr.is_extended_partition (os_indicator (partition_at mbr i)))
        eqn:Hext.
      * destruct (Mbr.process_extended_partition plat fuel dev _ _ parts count
                    max_partitions m) as [[[[st parts1] count1] m1]|] eqn:Hp;
          [|discriminate].
        apply process_extended_partition_numbering in Hp; try assumption.
        destruct Hp as (Hl1 & emitted & Htake1 & Hc1 & _ & Hn1).
        apply IH in H; [|assumption|lia|lia].
        destruct H as (Hl & segs & Hsegs & Htake & Hcount).
        split; [congruence|]. exists (emitted :: segs). split; [|split].
        -- constructor; [|done]. unfold slot_segment.
           by rewrite Hempty, Hext.
        -- simpl. rewrite Htake, Htake1. by rewrite <- app_assoc.
        -- simpl. rewrite length_app. lia.
      * apply IH in H; [|assumption|lia|rewrite length_insert; lia].
        destruct H as (Hl & segs & Hsegs & Htake & Hcount).
        rewrite length_insert in Hl. split; [done|].
        set (p := Mbr.primary_partition_info _ _ _) in *.
        exists ([p] :: segs). split; [|split].
        -- constructor; [|done]. unfold slot_segment.
           rewrite Hempty, Hext. right. exists p. split; [done|].
           subst p. cbn. split; [|done].
           unfold u32. apply Z.mod_small. lia.
        -- rewrite Htake.
           replace (Z.to_nat (count + 1)) with (S (Z.to_nat count)) by lia.
           rewrite (take_S_r _ _ p) by (apply list_lookup_insert_eq; lia).
           rewrite take_insert_ge by lia. simpl. by rewrite <- app_assoc.
        -- simpl. lia.
Qed.


(** One trip round the loop of [process_extended_partition]. *)
Lemma ebr_loop_iteration fuel dev base current num parts count max_partitions
      m buf m1 :
  current ≠ 0 → count < max_partitions →
  dev_read dev (u64 (current * block_size dev)) (block_size dev) m
  = ((STATUS_SUCCESS, buf), m1) →
  let logical := partition_at (as_mbr buf) 0 in
  let next := partition_at (as_mbr buf) 1 in
  let has_logical :=
    negb (os_indicator logical =? Mbr.PARTITION_TYPE_EMPTY)
    && (0 <? size_in_lba logical) in
  let has_next :=
    negb (os_indicator next =? Mbr.PARTITION_TYPE_EMPTY)
    && Mbr.is_extended_partition (os_indicator next)
    && (0 <? size_in_lba next) in
  let part := Mbr.logical_partition_info (block_size dev) current logical num in
  let parts1 := if has_logical then <[Z.to_nat count := part]> parts else parts in
  let count1 := if has_logical then count + 1 else count in
  let num1 := if has_logical then u32 (num + 1) else num in
  Mbr.ebr_loop plat (S fuel) dev base current num parts count max_partitions m
  = if negb (signature (as_mbr buf) =? MBR_SIGNATURE) then
      Some (STATUS_SUCCESS, parts, count, snd (free plat m1))
    else if has_next then
      Mbr.ebr_loop plat fuel dev base (u64 (base + starting_lba next)) num1
                   parts1 count1 max_partitions m1
    else Some (STATUS_SUCCESS, parts1, count1, snd (free plat m1)).
Proof.
  intros Hcur Hcount Hread. cbn zeta. cbn [Mbr.ebr_loop].
  destruct (Z.eqb_spec current 0); [lia|].
  destruct (Z.ltb_spec count max_partitions); [|lia]. cbn [negb andb].
  rewrite Hread. cbn [status_eqb negb].
  destruct (signature (as_mbr buf) =? MBR_SIGNATURE); cbn [negb]; [|done].
  destruct (negb (os_indicator (partition_at (as_mbr buf) 0)
                  =? Mbr.PARTITION_TYPE_EMPTY)
            && (0 <? size_in_lba (partition_at (as_mbr buf) 0)));
    destruct (negb (os_indicator (partition_at (as_mbr buf) 1)
                    =? Mbr.PARTITION_TYPE_EMPTY)
              && Mbr.is_extended_partition
                   (os_indicator (partition_at (as_mbr buf) 1))
              && (0 <? size_in_lba (partition_at (as_mbr buf) 1)));
    try reflexivity.
  - destruct fuel; cbn [Mbr.ebr_loop]; rewrite Z.eqb_refl; reflexivity.
  - destruct fuel; cbn [Mbr.ebr_loop]; rewrite Z.eqb_refl; reflexivity.
Qed.

End EbrWalk.

Section MbrWalkSpec.
Context {W : Type} (plat : platform_t W).
Import Layout.

(** Once the array is full no visit changes the state. *)
Lemma slot_chain_full fuel dev mbr max_partitions slots parts count
      (m : machine W) :
  max_partitions <= count →
  slot_chain (slot_visit plat fuel dev mbr max_partitions) slots
             (parts, count, m) (parts, count, m).
Proof.
  intros Hfull. induction slots as [|i rest IH]; cbn [slot_chain]; [done|].
  exists (parts, count, m). split; [|exact IH].
  unfold slot_visit. destruct (Z.ltb_spec count max_partitions); [lia|done].
Qed.

(** The loop over the primary slots is the chain of their visits. *)
Lemma primary_loop_chain fuel dev mbr slots parts count max_partitions m
      parts' count' m' :
  Mbr.primary_loop plat fuel dev mbr slots parts count max_partitions m
  = Some (parts', count', m') →
  Forall (fun i => (i < 4)%nat) slots →
  0 <= count → max_partitions <= Z.of_nat (length parts) →
  slot_chain (slot_visit plat fuel dev mbr max_partitions) slots
             (parts, count, m) (parts', count', m').
Proof.
  revert parts count m.
  induction slots as [|i rest IH]; intros parts count m; cbn [Mbr.primary_loop].
  - intros [= <- <- <-] _ _ _. done.
  - intros H Hslots Hc Hlen.
    apply Forall_cons in Hslots as [Hi Hrest].
    destruct (Z.ltb_spec count max_partitions) as [Hlt|Hge]; cbn [negb] in H.
    2:{ injection H as <- <- <-. by apply slot_chain_full. }
    cbn [slot_chain]. unfold slot_visit at 1.
    destruct (Z.ltb_spec count max_partitions) as [_|]; [|lia]. cbn [negb].
    destruct ((os_indicator (partition_at mbr i) =? Mbr.PARTITION_TYPE_EMPTY)
              || (size_in_lba (partition_at mbr i) =? 0)).
    { exists (parts, count, m). split; [done|]. by apply IH. }
    destruct (Mbr.is_extended_partition (os_indicator (partition_at mbr i))).
    + destruct (Mbr.process_extended_partition plat fuel dev _ _ parts count
                  max_partitions m) as [[[[st parts1] count1] m1]|] eqn:Hp;
        [|discriminate].
      pose proof Hp as Hwalk.
      apply process_extended_partition_numbering in Hp; try assumption.
      destruct Hp as (Hl1 & emitted & Htake1 & Hc1 & _ & Hn1).
      exists (parts1, count1, m1). split.
      * exists st, parts1, count1, m1, emitted. done.
      * apply IH; [done|done|lia|lia].
    + eexists. split.
      * split; [reflexivity|]. cbn. split; [|done].
        unfold u32. apply Z.mod_small. lia.
      * apply IH; [done|done|lia|rewrite length_insert; lia].
Qed.

(** A walk starts at the address it is given, with number 5, once its
    buffer is allocated. *)
Lemma process_extended_partition_start fuel dev base ebr_lba parts count
      max_partitions m :
  Mbr.process_extended_partition plat fuel dev base ebr_lba parts count
                                 max_partitions m
  = if fst (alloc plat (block_size dev) m) then
      Mbr.ebr_loop plat fuel dev base ebr_lba 5 parts count max_partitions
                   (snd (alloc plat (block_size dev) m))
    else Some (STATUS_OUT_OF_MEMORY, parts, count,
               snd (alloc plat (block_size dev) m)).
Proof.
  unfold Mbr.process_extended_partition.
  by destruct (alloc plat (block_size dev) m) as [[] m0].
Qed.

Lemma discover_mbr_partitions_chain fuel dev parts num max_partitions m
      parts' count' m' :
  Mbr.discover_mbr_partitions plat fuel (Some dev) (Some parts) (Some num)
                              max_partitions m
  = Some (STATUS_SUCCESS, Some parts', Some count', m') →
  max_partitions <= Z.of_nat (length parts) →
  ∃ m0 buf m1 m2 segs,
    alloc plat (block_size dev) m = (true, m0)
    ∧ dev_read dev 0 (block_size dev) m0 = ((STATUS_SUCCESS, buf), m1)
    ∧ slot_chain (slot_visit plat fuel dev (as_mbr buf) max_partitions)
                 [0; 1; 2; 3]%nat (parts, 0, m1) (parts', count', m2)
    ∧ m' = snd (free plat m2)
    ∧ Forall2 (slot_segment (as_mbr buf)) [0; 1; 2; 3]%nat segs
    ∧ take (Z.to_nat count') parts' = concat segs.
Proof.
  unfold Mbr.discover_mbr_partitions.
  destruct (max_partitions =? 0); [discriminate|].
  destruct (block_size dev <? sizeof_master_boot_record_t); [discriminate|].
  destruct (alloc plat (block_size dev) m) as [ok m0].
  destruct ok; cbn [negb]; [|discriminate].
  destruct (dev_read dev 0 (block_size dev) m0) as [[status buf] m1] eqn:Hread.
  destruct (status_eqb status STATUS_SUCCESS) eqn:Hst; cbn [negb].
  2:{ intros [= -> _ _ _]. discriminate. }
  apply status_eqb_eq in Hst. subst status.
  destruct (Mbr.validate_mbr (as_mbr buf)); cbn [negb]; [|discriminate].
  destruct (Mbr.is_protective_mbr (as_mbr buf)); [discriminate|].
  destruct (Mbr.primary_loop plat _ _ _ _ _ _ _ _)
    as [[[parts1 count] m2]|] eqn:Hloop; [|discriminate].
  destruct (Z.ltb_spec 0 count); [|discriminate].
  intros [= <- <- <-] Hlen.
  pose proof Hloop as Hsegs.
  apply primary_loop_chain in Hloop; [|repeat constructor; lia|lia|lia].
  apply primary_loop_segments in Hsegs; [|repeat constructor; lia|lia|lia].
  destruct Hsegs as (_ & segs & Hsegs & Htake & _).
  exists m0, buf, m1, m2, segs. by rewrite Htake.
Qed.

(** C5.  (1) One trip round the loop of [process_extended_partition] at
    EBR address [current]: a bad signature ends the walk; otherwise a
    non-empty first slot yields the descriptor [part], stored at index
    [count], whose start is [current] plus the slot's stored start and
    whose number is the running number [num]; the walk then continues at
    [base] plus the second slot's stored start when that slot is a
    non-empty extended entry of non-zero size, and ends with success
    otherwise.  (2) A walk begins, once its buffer is allocated, at the
    EBR address it is given with the number 5, and the descriptors it
    appends to the array are numbered 5, 6, 7, ... in order (the
    counter is 32 bits wide; it cannot wrap when
    [max_partitions <= 2^32 - 5]).  (3) A successful discovery reads
    block 0 and visits the four primary slots in order, each visit
    starting from the array, count and machine the one before left: an
    extended slot starts one walk whose base address and first EBR
    address are both the slot's stored start, and every such walk
    numbers its logical partitions from 5 again; any other used slot
    [i] gives one descriptor numbered [i + 1].  The result is the
    concatenation of what the slots contribute. *)
Theorem ebr_chain_walk_and_numbering :
  (∀ fuel dev base current num parts count max_partitions m buf m1,
     current ≠ 0 → count < max_partitions →
     dev_read dev (u64 (current * block_size dev)) (block_size dev) m
     = ((STATUS_SUCCESS, buf), m1) →
     let logical := partition_at (as_mbr buf) 0 in
     let next := partition_at (as_mbr buf) 1 in
     let has_logical :=
       negb (os_indicator logical =? Mbr.PARTITION_TYPE_EMPTY)
       && (0 <? size_in_lba logical) in
     let has_next :=
       negb (os_indicator next =? Mbr.PARTITION_TYPE_EMPTY)
       && Mbr.is_extended_partition (os_indicator next)
       && (0 <? size_in_lba next) in
     let part :=
       Mbr.logical_partition_info (block_size dev) current logical num in
     let parts1 :=
       if has_logical then <[Z.to_nat count := part]> parts else parts in
     let count1 := if has_logical then count + 1 else count in
     let num1 := if has_logical then u32 (num + 1) else num in
     Mbr.start_lba part = u64 (current + starting_lba logical)
     ∧ (0 <= current < 2 ^ 64 - 2 ^ 32 →
        Mbr.start_lba part = current + starting_lba logical)
     ∧ Mbr.partition_number part = num
     ∧ Mbr.ebr_loop plat (S fuel) dev base current num parts count
                    max_partitions m
       = if negb (signature (as_mbr buf) =? MBR_SIGNATURE) then
           Some (STATUS_SUCCESS, parts, count, snd (free plat m1))
         else if has_next then
           Mbr.ebr_loop plat fuel dev base (u64 (base + starting_lba next))
                        num1 parts1 count1 max_partitions m1
         else Some (STATUS_SUCCESS, parts1, count1, snd (free plat m1)))
  ∧ (∀ fuel dev base ebr_lba parts count max_partitions m,
       Mbr.process_extended_partition plat fuel dev base ebr_lba parts count
                                      max_partitions m
       = if fst (alloc plat (block_size dev) m) then
           Mbr.ebr_loop plat fuel dev base ebr_lba 5 parts count
                        max_partitions (snd (alloc plat (block_size dev) m))
         else Some (STATUS_OUT_OF_MEMORY, parts, count,
                    snd (alloc plat (block_size dev) m)))
  ∧ (∀ fuel dev base ebr_lba parts count max_partitions m st parts' count' m',
       Mbr.process_extended_partition plat fuel dev base ebr_lba parts count
                                      max_partitions m
       = Some (st, parts', count', m') →
       0 <= count → max_partitions <= Z.of_nat (length parts) →
       ∃ emitted,
         take (Z.to_nat count') parts' = take (Z.to_nat count) parts ++ emitted
         ∧ count' = count + Z.of_nat (length emitted)
         ∧ numbered_from 5 emitted
         ∧ (max_partitions <= 2 ^ 32 - 5 →
            ∀ (k : nat) p, emitted !! k = Some p →
              Mbr.partition_number p = 5 + Z.of_nat k))
  ∧ (∀ fuel dev parts num max_partitions m parts' count' m',
       Mbr.discover_mbr_partitions plat fuel (Some dev) (Some parts) (Some num)
                                   max_partitions m
       = Some (STATUS_SUCCESS, Some parts', Some count', m') →
       max_partitions <= Z.of_nat (length parts) →
       ∃ m0 buf m1 m2 segs,
         alloc plat (block_size dev) m = (true, m0)
         ∧ dev_read dev 0 (block_size dev) m0 = ((STATUS_SUCCESS, buf), m1)
         ∧ slot_chain (slot_visit plat fuel dev (as_mbr buf) max_partitions)
                      [0; 1; 2; 3]%nat (parts, 0, m1) (parts', count', m2)
         ∧ m' = snd (free plat m2)
         ∧ Forall2 (slot_segment (as_mbr buf)) [0; 1; 2; 3]%nat segs
         ∧ take (Z.to_nat count') parts' = concat segs).
Proof.
  split; [|split; [|split]].
  - intros fuel dev base current num parts count max_partitions m buf m1
           Hcur Hcount Hread. cbn zeta.
    split; [reflexivity|]. split; [|split; [reflexivity|]].
    + intros Hrange. cbn [Mbr.logical_partition_info Mbr.start_lba].
      pose proof (starting_lba_range buf 0).
      unfold u64. apply Z.mod_small. lia.
    + by apply ebr_loop_iteration.
  - intros. apply process_extended_partition_start.
  - intros fuel dev base ebr_lba parts count max_partitions m st parts' count'
           m' H Hc Hlen.
    apply (process_extended_partition_numbering plat) in H
      as (_ & emitted & Htake & Hcount & Hbound & Hnum); [|done..].
    exists emitted. repeat split; try done.
    intros Hmax.
    apply (numbered_from_exact 5 emitted (Z.max 0 max_partitions));
      [exact Hnum|lia..].
  - intros fuel dev parts num max_partitions m parts' count' m' H Hlen.
    by eapply discover_mbr_partitions_chain.
Qed.

End MbrWalkSpec.

(** On [chained_disk] (primaries in slots 0 and 2, an extended partition
    in slot 1 at block 4 with a chain of three EBRs): the first trip of
    the walk, at block 4, emits the logical partition starting at block
    5 with number 5 and continues at block 7; the whole walk appends
    three descriptors numbered 5, 6, 7; discovery yields five descriptors
    numbered 1, 5, 6, 7, 3. *)
Lemma ebr_chain_walk_and_numbering_witness :
  (let part :=
     Mbr.logical_partition_info 512 4
       (Layout.partition_at (Layout.as_mbr first_ebr_block) 0) 5 in
   Mbr.start_lba part = 5
   ∧ Mbr.partition_number part = 5
   ∧ Mbr.ebr_loop ram_platform 3 (ram_disk 20) 4 4 5
                  (replicate 8 blank_info) 1 8 after_mbr_read
     = Mbr.ebr_loop ram_platform 2 (ram_disk 20) 4 7 6
                    (<[1%nat := part]> (replicate 8 blank_info)) 2 8
                    {| world := chained_disk;
                       io_log := [IoRead 0 512; IoRead 2048 512] |})
  ∧ (∃ st parts' m' emitted,
       Mbr.process_extended_partition ram_platform 3 (ram_disk 20) 4 4
         (replicate 8 blank_info) 1 8 after_mbr_read
       = Some (st, parts', 4, m')
       ∧ take 4 parts' = take 1 (replicate 8 blank_info) ++ emitted
       ∧ length emitted = 3%nat
       ∧ ∀ (k : nat) p, emitted !! k = Some p →
           Mbr.partition_number p = 5 + Z.of_nat k)
  ∧ (∃ parts' m',
       Mbr.discover_mbr_partitions ram_platform 3 (Some (ram_disk 20))
         (Some (replicate 8 blank_info)) (Some 0) 8 (boot chained_disk)
       = Some (STATUS_SUCCESS, Some parts', Some 5, m')
       ∧ 8 <= Z.of_nat (length (replicate 8 blank_info))
       ∧ map Mbr.partition_number (take 5 parts') = [1; 5; 6; 7; 3]
       ∧ map Mbr.start_lba (take 5 parts') = [1; 5; 8; 11; 16]
       ∧ ∃ m0 buf m1 m2 segs,
           alloc ram_platform (block_size (ram_disk 20)) (boot chained_disk)
           = (true, m0)
           ∧ dev_read (ram_disk 20) 0 (block_size (ram_disk 20)) m0
             = ((STATUS_SUCCESS, buf), m1)
           ∧ slot_chain
               (slot_visit ram_platform 3 (ram_disk 20) (Layout.as_mbr buf) 8)
               [0; 1; 2; 3]%nat (replicate 8 blank_info, 0, m1)
               (parts', 5, m2)
           ∧ m' = snd (free ram_platform m2)
           ∧ Forall2 (slot_segment (Layout.as_mbr buf)) [0; 1; 2; 3]%nat segs
           ∧ take (Z.to_nat 5) parts' = concat segs).
Proof.
  destruct (ebr_chain_walk_and_numbering ram_platform) as (H1 & _ & H2 & H3).
  assert (8 <= Z.of_nat (length (replicate 8 blank_info))) as Hlen
    by (vm_compute; discriminate).
  split; [|split].
  - cbn zeta.
    assert (dev_read (ram_disk 20) (u64 (4 * block_size (ram_disk 20)))
                     (block_size (ram_disk 20)) after_mbr_read
            = ((STATUS_SUCCESS, first_ebr_block),
               {| world := chained_disk;
                  io_log := [IoRead 0 512; IoRead 2048 512] |})) as Hread
      by (vm_compute; reflexivity).
    specialize (H1 2%nat (ram_disk 20) 4 4 5 (replicate 8 blank_info) 1 8
                   after_mbr_read first_ebr_block _ ltac:(lia) ltac:(lia)
                   Hread).
    cbn zeta in H1. change (block_size (ram_disk 20)) with 512 in H1.
    destruct H1 as (_ & Hstart & Hnum & Hloop).
    split; [|split].
    + rewrite (Hstart ltac:(lia)). vm_compute. reflexivity.
    + exact Hnum.
    + rewrite Hloop.
      assert (Layout.signature (Layout.as_mbr first_ebr_block)
              = Layout.MBR_SIGNATURE) as -> by (vm_compute; reflexivity).
      assert (Layout.os_indicator
                (Layout.partition_at (Layout.as_mbr first_ebr_block) 0)
              = 0x83) as -> by (vm_compute; reflexivity).
      assert (Layout.size_in_lba
                (Layout.partition_at (Layout.as_mbr first_ebr_block) 0)
              = 2) as -> by (vm_compute; reflexivity).
      assert (Layout.os_indicator
                (Layout.partition_at (Layout.as_mbr first_ebr_block) 1)
              = 0x05) as -> by (vm_compute; reflexivity).
      assert (Layout.size_in_lba
                (Layout.partition_at (Layout.as_mbr first_ebr_block) 1)
              = 3) as -> by (vm_compute; reflexivity).
      assert (Layout.starting_lba
                (Layout.partition_at (Layout.as_mbr first_ebr_block) 1)
              = 3) as -> by (vm_compute; reflexivity).
      reflexivity.
  - match eval vm_compute in
          (Mbr.process_extended_partition ram_platform 3 (ram_disk 20) 4 4
             (replicate 8 blank_info) 1 8 after_mbr_read) with
    | Some (?st, ?p, _, ?m) =>
      assert (Mbr.process_extended_partition ram_platform 3 (ram_disk 20) 4 4
                (replicate 8 blank_info) 1 8 after_mbr_read
              = Some (st, p, 4, m)) as Hrun by (vm_compute; reflexivity);
      destruct (H2 _ _ _ _ _ _ _ _ _ _ _ _ Hrun ltac:(lia) Hlen)
        as (emitted & Htake & Hcount & _ & Hexact);
      exists st, p, m, emitted
    end.
    split; [exact Hrun|]. split; [exact Htake|]. split; [lia|].
    apply Hexact. lia.
  - match eval vm_compute in
          (Mbr.discover_mbr_partitions ram_platform 3 (Some (ram_disk 20))
             (Some (replicate 8 blank_info)) (Some 0) 8 (boot chained_disk))
    with
    | Some (_, Some ?p, _, ?m) =>
      assert (Mbr.discover_mbr_partitions ram_platform 3 (Some (ram_disk 20))
                (Some (replicate 8 blank_info)) (Some 0) 8 (boot chained_disk)
              = Some (STATUS_SUCCESS, Some p, Some 5, m)) as Hrun
        by (vm_compute; reflexivity);
      exists p, m
    end.
    split; [exact Hrun|]. split; [exact Hlen|].
    split; [vm_compute; reflexivity|]. split; [vm_compute; reflexivity|].
    exact (H3 _ _ _ _ _ _ _ _ _ Hrun Hlen).
Defined.

(** On [twin_extended_disk] (extended partitions in slots 0 and 1, each
    with one logical partition) discovery reports two logical
    partitions, at blocks 2 and 4, and numbers both of them 5. *)
Lemma logical_numbers_repeat_across_extended_slots :
  ∃ parts' m',
    Mbr.discover_mbr_partitions ram_platform 2 (Some (ram_disk 5))
      (Some (replicate 4 blank_info)) (Some 0) 4 (boot twin_extended_disk)
    = Some (STATUS_SUCCESS, Some parts', Some 2, m')
    ∧ map Mbr.start_lba (take 2 parts') = [2; 4]
    ∧ map Mbr.partition_number (take 2 parts') = [5; 5]
    ∧ ¬ numbered_from 5 (take 2 parts').
Proof.
  match eval vm_compute in
        (Mbr.discover_mbr_partitions ram_platform 2 (Some (ram_disk 5))
           (Some (replicate 4 blank_info)) (Some 0) 4
           (boot twin_extended_disk)) with
  | Some (_, Some ?p, _, ?m) =>
    exists p, m; split; [vm_compute; reflexivity|];
    split; [vm_compute; reflexivity|];
    split; [vm_compute; reflexivity|];
    intros Hn;
    match eval vm_compute in (p !! 1%nat) with
    | Some ?q =>
      specialize (Hn 1%nat q ltac:(vm_compute; reflexivity));
      vm_compute in Hn; discriminate Hn
    end
  end.
Qed.

(* ====================================================================== *)
(** ** Header fields under stores and copies *)

Lemma byte_at_set_u32_ne buf off v i :
  i < off ∨ off + 4 <= i → byte_at (set_u32 buf off v) i = byte_at buf i.
Proof.
  intros H. unfold set_u32. rewrite !byte_at_set_u8_ne by lia. done.
Qed.

Lemma get_u32_set_u32_ne buf off v o :
  o + 4 <= off ∨ off + 4 <= o → get_u32 (set_u32 buf off v) o = get_u32 buf o.
Proof.
  intros H. unfold get_u32. rewrite !byte_at_set_u32_ne by lia. done.
Qed.

Lemma get_u64_set_u32_ne buf off v o :
  o + 8 <= off ∨ off + 4 <= o → get_u64 (set_u32 buf off v) o = get_u64 buf o.
Proof.
  intros H. unfold get_u64. rewrite !get_u32_set_u32_ne by lia. done.
Qed.

Lemma length_set_u64 buf off v : length (set_u64 buf off v) = length buf.
Proof. unfold set_u64. by rewrite !length_set_u32. Qed.

Lemma get_u32_set_u64_ne buf off v o :
  o + 4 <= off ∨ off + 8 <= o → get_u32 (set_u64 buf off v) o = get_u32 buf o.
Proof.
  intros H. unfold set_u64. rewrite !get_u32_set_u32_ne by lia. done.
Qed.

Lemma get_u64_set_u64_ne buf off v o :
  o + 8 <= off ∨ off + 8 <= o → get_u64 (set_u64 buf off v) o = get_u64 buf o.
Proof.
  intros H. unfold get_u64. rewrite !get_u32_set_u64_ne by lia. done.
Qed.

Lemma join_words v :
  Z.lor (u32 v) (Z.shiftl (u32 (Z.shiftr v 32)) 32) = u64 v.
Proof.
  apply Z.bits_inj'. intros n Hn. unfold u32, u64.
  rewrite Z.lor_spec, Z.shiftl_spec by lia.
  destruct (Z.ltb_spec n 32).
  - rewrite !Z.mod_pow2_bits_low by lia.
    rewrite (Z.testbit_neg_r _ (n - 32)) by lia. apply orb_false_r.
  - rewrite (Z.mod_pow2_bits_high v 32 n) by lia. cbn [orb].
    destruct (Z.ltb_spec n 64).
    + rewrite !Z.mod_pow2_bits_low by lia.
      rewrite Z.shiftr_spec by lia. f_equal. lia.
    + rewrite !Z.mod_pow2_bits_high by lia. done.
Qed.

Lemma get_u64_set_u64 buf off v :
  0 <= off → off + 8 <= Z.of_nat (length buf) →
  get_u64 (set_u64 buf off v) off = u64 v.
Proof.
  intros H0 H1. unfold get_u64, set_u64.
  rewrite get_u32_set_u32_ne by lia.
  rewrite !get_u32_set_u32 by (rewrite ?length_set_u32; lia).
  apply join_words.
Qed.

Lemma get_u64_range buf off : 0 <= get_u64 buf off < 2 ^ 64.
Proof.
  unfold get_u64.
  pose proof (get_u32_range buf off). pose proof (get_u32_range buf (off + 4)).
  apply lor_range; try lia. rewrite Z.shiftl_mul_pow2 by lia. lia.
Qed.

Lemma byte_at_memcpy dest src n i :
  0 <= i < n → byte_at (memcpy dest src n) i = byte_at src i.
Proof.
  intros Hi. unfold byte_at, memcpy.
  destruct (Z.ltb_spec i 0); [lia|]. f_equal.
  rewrite !nth_lookup.
  rewrite lookup_app_l by (rewrite length_resize; lia).
  destruct (decide (Z.to_nat i < length src)%nat).
  - rewrite lookup_resize by lia. done.
  - rewrite lookup_resize_new by lia.
    rewrite (lookup_ge_None_2 src) by lia. done.
Qed.

Lemma get_u32_memcpy dest src n off :
  0 <= off → off + 4 <= n → get_u32 (memcpy dest src n) off = get_u32 src off.
Proof. intros. unfold get_u32. rewrite !byte_at_memcpy by lia. done. Qed.

Lemma get_u64_memcpy dest src n off :
  0 <= off → off + 8 <= n → get_u64 (memcpy dest src n) off = get_u64 src off.
Proof. intros. unfold get_u64. rewrite !get_u32_memcpy by lia. done. Qed.

Lemma length_memcpy_ge dest src n :
  0 <= n → (Z.to_nat n <= length (memcpy dest src n))%nat.
Proof. intros. unfold memcpy. rewrite length_app, length_resize. lia. Qed.

Lemma get_u32_set_header_crc size h o :
  o + 4 <= 16 ∨ 20 <= o → get_u32 (Gpt.set_header_crc size h) o = get_u32 h o.
Proof.
  intros H. unfold Gpt.set_header_crc, Gpt.set_header_crc32.
  rewrite !get_u32_set_u32_ne by lia. done.
Qed.

Lemma get_u64_set_header_crc size h o :
  o + 8 <= 16 ∨ 20 <= o → get_u64 (Gpt.set_header_crc size h) o = get_u64 h o.
Proof.
  intros H. unfold get_u64. rewrite !get_u32_set_header_crc by lia. done.
Qed.

(** "EFI PART", read as a little-endian 64-bit word, is the signature
    constant the code compares with. *)
Lemma signature_is_EFI_PART :
  get_u64 [69; 70; 73; 32; 80; 65; 82; 84] 0 = Gpt.GPT_HEADER_SIGNATURE.
Proof. vm_compute. reflexivity. Qed.

(* ====================================================================== *)
(** ** validate_gpt_table *)

Section GptValidate.
Context {W : Type} (plat : platform_t W).

Ltac run_step :=
  match goal with
  | |- context [ alloc plat ?s ?m ] =>
    let ok := fresh "ok" in let m' := fresh "m" in let E := fresh "Ealloc" in
    destruct (alloc plat s m) as [ok m'] eqn:E; destruct ok; cbn [negb]
  | |- context [ alloc_zero plat ?s ?m ] =>
    let ok := fresh "ok" in let m' := fresh "m" in let E := fresh "Ealloc" in
    destruct (alloc_zero plat s m) as [ok m'] eqn:E; destruct ok; cbn [negb]
  | |- context [ dev_read ?d ?o ?s ?m ] =>
    let st := fresh "status" in let b := fresh "buf" in
    let m' := fresh "m" in let E := fresh "Eread" in
    destruct (dev_read d o s m) as [[st b] m'] eqn:E;
    destruct (status_eqb st STATUS_SUCCESS) eqn:?; cbn [negb]
  end.

Lemma validate_gpt_entry_array_crc_true dev header m m' :
  Gpt.validate_gpt_entry_array_crc plat dev header m = (true, m') →
  let entries_size :=
    u32 (Gpt.num_partition_entries header * Gpt.partition_entry_size header) in
  ∃ m2 entries m3,
    alloc plat entries_size m = (true, m2)
    ∧ dev_read dev (u64 (Gpt.partition_entry_lba header * block_size dev))
               entries_size m2 = ((STATUS_SUCCESS, entries), m3)
    ∧ Gpt.partition_array_crc32 header
      = Gpt.calculate_crc32 entries entries_size.
Proof.
  unfold Gpt.validate_gpt_entry_array_crc, bind, ret. cbn zeta.
  run_step; [|discriminate].
  run_step; [|discriminate].
  apply status_eqb_eq in Heqb. subst status.
  intros [= Hcrc _]. apply Z.eqb_eq in Hcrc. eauto 10.
Qed.

(** [validate_gpt_table] at [lba] answers true only if the block read at
    [lba] passes the checks the code makes: the signature is
    "EFI PART"; the stored header checksum equals the checksum
    recomputed over [header_size] bytes with the checksum field zeroed;
    the header's own address is [lba]; the entry size is at least the
    size of [gpt_partition_entry_t]; and the entry array read at the
    header's [partition_entry_lba] has the stored array checksum, the
    array being the first [u32 (count * size)] bytes.  (That the product
    of count and size fits 64 bits is true of any two 32-bit fields.)
    The structure handed back is the first 92 bytes of that block. *)
Lemma validate_gpt_table_sound dev lba header_out m header_out' m' :
  Gpt.validate_gpt_table plat dev lba header_out m
  = ((true, header_out'), m') →
  ∃ m0 header m1 m2 entries m3,
    alloc_zero plat (block_size dev) m = (true, m0)
    ∧ dev_read dev (u64 (lba * block_size dev)) (block_size dev) m0
      = ((STATUS_SUCCESS, header), m1)
    ∧ Gpt.signature header = Gpt.GPT_HEADER_SIGNATURE
    ∧ Gpt.header_crc32 header
      = Gpt.calculate_crc32 (Gpt.set_header_crc32 header 0)
                            (Gpt.header_size header)
    ∧ Gpt.my_lba header = lba
    ∧ Gpt.sizeof_gpt_partition_entry_t <= Gpt.partition_entry_size header
    ∧ Gpt.num_partition_entries header * Gpt.partition_entry_size header
      <= 0xFFFFFFFFFFFFFFFF
    ∧ (let entries_size :=
         u32 (Gpt.num_partition_entries header
              * Gpt.partition_entry_size header) in
       alloc plat entries_size m1 = (true, m2)
       ∧ dev_read dev (u64 (Gpt.partition_entry_lba header * block_size dev))
                  entries_size m2 = ((STATUS_SUCCESS, entries), m3)
       ∧ Gpt.partition_array_crc32 header
         = Gpt.calculate_crc32 entries entries_size)
    ∧ header_out'
      = memcpy header_out
               (Gpt.set_header_crc (Gpt.header_size header) header)
               Gpt.sizeof_gpt_header_t.
Proof.
  unfold Gpt.validate_gpt_table, bind, ret. cbn zeta.
  run_step; [|discriminate].
  run_step; [|discriminate].
  apply status_eqb_eq in Heqb. subst status.
  destruct (Z.eqb_spec (Gpt.signature buf) Gpt.GPT_HEADER_SIGNATURE) as [Hsig|];
    cbn [negb]; [|discriminate].
  destruct (Gpt.check_header_crc (block_size dev) (Gpt.header_size buf) buf)
    as [crc_ok header'] eqn:Hcheck.
  destruct crc_ok; cbn [negb]; [|discriminate].
  assert (Gpt.header_size buf ≠ 0
          ∧ (block_size dev = 0 ∨ Gpt.header_size buf <= block_size dev))
    as [Hsz Hmax].
  { destruct (Z.eq_dec (Gpt.header_size buf) 0) as [E|];
      [rewrite check_header_crc_rejected in Hcheck by auto; discriminate|].
    split; [done|].
    destruct (Z.eq_dec (block_size dev) 0); [by left|]. right.
    destruct (Z.le_gt_cases (Gpt.header_size buf) (block_size dev)); [done|].
    rewrite check_header_crc_rejected in Hcheck by (right; lia). discriminate. }
  rewrite check_header_crc_computed in Hcheck by done.
  injection Hcheck as Hcrc <-. apply Z.eqb_eq in Hcrc.
  set (header' := Gpt.set_header_crc (Gpt.header_size buf) buf).
  assert (Gpt.my_lba header' = Gpt.my_lba buf) as ->
    by (apply get_u64_set_header_crc; lia).
  assert (Gpt.partition_entry_size header' = Gpt.partition_entry_size buf)
    as -> by (apply get_u32_set_header_crc; lia).
  assert (Gpt.num_partition_entries header' = Gpt.num_partition_entries buf)
    as -> by (apply get_u32_set_header_crc; lia).
  destruct (Z.eqb_spec (Gpt.my_lba buf) lba) as [Hlba|]; cbn [negb];
    [|discriminate].
  destruct (Z.ltb_spec (Gpt.partition_entry_size buf)
                       Gpt.sizeof_gpt_partition_entry_t) as [|Hes];
    [discriminate|].
  destruct (Z.ltb_spec (0xFFFFFFFFFFFFFFFF / Gpt.partition_entry_size buf)
                       (Gpt.num_partition_entries buf)) as [|Hnum];
    [discriminate|].
  set (hout := memcpy header_out header' Gpt.sizeof_gpt_header_t).
  destruct (Gpt.validate_gpt_entry_array_crc plat dev hout m1)
    as [entries_ok m4] eqn:Hentries.
  destruct entries_ok; cbn [negb]; [|discriminate].
  intros [= <- _].
  apply validate_gpt_entry_array_crc_true in Hentries.
  cbn zeta in Hentries.
  destruct Hentries as (m2 & entries & m3 & Ha & Hr & Hc).
  assert (Gpt.partition_entry_size hout = Gpt.partition_entry_size buf) as Es.
  { unfold hout, Gpt.partition_entry_size.
    rewrite get_u32_memcpy by (unfold Gpt.sizeof_gpt_header_t; lia).
    apply get_u32_set_header_crc; lia. }
  assert (Gpt.num_partition_entries hout = Gpt.num_partition_entries buf) as En.
  { unfold hout, Gpt.num_partition_entries.
    rewrite get_u32_memcpy by (unfold Gpt.sizeof_gpt_header_t; lia).
    apply get_u32_set_header_crc; lia. }
  assert (Gpt.partition_array_crc32 hout = Gpt.partition_array_crc32 buf) as Ec.
  { unfold hout, Gpt.partition_array_crc32.
    rewrite get_u32_memcpy by (unfold Gpt.sizeof_gpt_header_t; lia).
    apply get_u32_set_header_crc; lia. }
  assert (Gpt.partition_entry_lba hout = Gpt.partition_entry_lba buf) as El.
  { unfold hout, Gpt.partition_entry_lba.
    rewrite get_u64_memcpy by (unfold Gpt.sizeof_gpt_header_t; lia).
    apply get_u64_set_header_crc; lia. }
  rewrite Es, En, Ec, El in *.
  exists m0, buf, m1, m2, entries, m3.
  repeat split; try assumption.
  unfold Gpt.sizeof_gpt_partition_entry_t in Hes.
  pose proof (Z.mul_div_le 0xFFFFFFFFFFFFFFFF (Gpt.partition_entry_size buf)
                ltac:(lia)).
  pose proof (get_u32_range buf 80). unfold Gpt.num_partition_entries in *.
  nia.
Qed.

(** The product test of [validate_gpt_table] never rejects: both factors
    are 32-bit fields, so their product always fits 64 bits.  (The size
    actually allocated and read is the product taken in 32 bits.) *)
Lemma entry_product_check_never_fires header :
  1 <= Gpt.partition_entry_size header →
  (0xFFFFFFFFFFFFFFFF / Gpt.partition_entry_size header
     <? Gpt.num_partition_entries header) = false.
Proof.
  intros Hs. apply Z.ltb_ge.
  pose proof (get_u32_range header 80) as Hn.
  pose proof (get_u32_range header 84) as Hz.
  unfold Gpt.partition_entry_size, Gpt.num_partition_entries in *.
  assert (0xFFFFFFFFFFFFFFFF / (2 ^ 32 - 1)
          <= 0xFFFFFFFFFFFFFFFF / get_u32 header 84)
    by (apply Z.div_le_compat_l; lia).
  assert (0xFFFFFFFFFFFFFFFF / (2 ^ 32 - 1) = 4294967297) as E by reflexivity.
  lia.
Qed.

(** Conversely, a block that passes the checks is accepted when the two
    allocations and the two reads succeed. *)
Lemma validate_gpt_table_complete dev lba header_out m m0 header m1 m2
      entries m3 :
  let entries_size :=
    u32 (Gpt.num_partition_entries header * Gpt.partition_entry_size header) in
  alloc_zero plat (block_size dev) m = (true, m0) →
  dev_read dev (u64 (lba * block_size dev)) (block_size dev) m0
  = ((STATUS_SUCCESS, header), m1) →
  Gpt.signature header = Gpt.GPT_HEADER_SIGNATURE →
  Gpt.header_size header ≠ 0 →
  (block_size dev = 0 ∨ Gpt.header_size header <= block_size dev) →
  Gpt.header_crc32 header
  = Gpt.calculate_crc32 (Gpt.set_header_crc32 header 0)
                        (Gpt.header_size header) →
  Gpt.my_lba header = lba →
  Gpt.sizeof_gpt_partition_entry_t <= Gpt.partition_entry_size header →
  alloc plat entries_size m1 = (true, m2) →
  dev_read dev (u64 (Gpt.partition_entry_lba header * block_size dev))
           entries_size m2 = ((STATUS_SUCCESS, entries), m3) →
  Gpt.partition_array_crc32 header = Gpt.calculate_crc32 entries entries_size →
  Gpt.validate_gpt_table plat dev lba header_out m
  = ((true, memcpy header_out
                   (Gpt.set_header_crc (Gpt.header_size header) header)
                   Gpt.sizeof_gpt_header_t),
     snd (free plat (snd (free plat m3)))).
Proof.
  intros entries_size Ha0 Hr1 Hsig Hsz Hmax Hcrc Hlba Hes Ha2 Hr3 Harr.
  unfold Gpt.validate_gpt_table, bind, ret. cbn zeta.
  rewrite Ha0. cbn [negb]. rewrite Hr1. cbn [status_eqb negb].
  rewrite Hsig, Z.eqb_refl. cbn [negb].
  rewrite check_header_crc_computed by done.
  rewrite <- Hcrc, Z.eqb_refl. cbn [negb].
  set (header' := Gpt.set_header_crc (Gpt.header_size header) header).
  assert (Gpt.my_lba header' = Gpt.my_lba header) as ->
    by (apply get_u64_set_header_crc; lia).
  assert (Gpt.partition_entry_size header' = Gpt.partition_entry_size header)
    as -> by (apply get_u32_set_header_crc; lia).
  assert (Gpt.num_partition_entries header' = Gpt.num_partition_entries header)
    as -> by (apply get_u32_set_header_crc; lia).
  rewrite Hlba, Z.eqb_refl. cbn [negb].
  unfold Gpt.sizeof_gpt_partition_entry_t in *.
  destruct (Z.ltb_spec (Gpt.partition_entry_size header) 128); [lia|].
  rewrite entry_product_check_never_fires by lia.
  set (hout := memcpy header_out header' Gpt.sizeof_gpt_header_t).
  assert (Gpt.partition_entry_size hout = Gpt.partition_entry_size header) as Es.
  { unfold hout, Gpt.partition_entry_size.
    rewrite get_u32_memcpy by (unfold Gpt.sizeof_gpt_header_t; lia).
    apply get_u32_set_header_crc; lia. }
  assert (Gpt.num_partition_entries hout = Gpt.num_partition_entries header)
    as En.
  { unfold hout, Gpt.num_partition_entries.
    rewrite get_u32_memcpy by (unfold Gpt.sizeof_gpt_header_t; lia).
    apply get_u32_set_header_crc; lia. }
  assert (Gpt.partition_array_crc32 hout = Gpt.partition_array_crc32 header)
    as Ec.
  { unfold hout, Gpt.partition_array_crc32.
    rewrite get_u32_memcpy by (unfold Gpt.sizeof_gpt_header_t; lia).
    apply get_u32_set_header_crc; lia. }
  assert (Gpt.partition_entry_lba hout = Gpt.partition_entry_lba header) as El.
  { unfold hout, Gpt.partition_entry_lba.
    rewrite get_u64_memcpy by (unfold Gpt.sizeof_gpt_header_t; lia).
    apply get_u64_set_header_crc; lia. }
  unfold Gpt.validate_gpt_entry_array_crc, bind, ret. cbn zeta.
  rewrite Es, En, Ec, El. fold entries_size.
  rewrite Ha2. cbn [negb]. rewrite Hr3. cbn [status_eqb negb].
  rewrite <- Harr, Z.eqb_refl. reflexivity.
Qed.

(** A false verdict leaves [*header_out] as it was, unless the block
    passed every test of the header and the rejection came from the
    entry array: the header is copied out before the array is
    checked. *)
Lemma validate_gpt_table_rejected dev lba header_out m header_out' m' :
  Gpt.validate_gpt_table plat dev lba header_out m
  = ((false, header_out'), m') →
  header_out' = header_out
  ∨ ∃ m0 header m1,
      alloc_zero plat (block_size dev) m = (true, m0)
      ∧ dev_read dev (u64 (lba * block_size dev)) (block_size dev) m0
        = ((STATUS_SUCCESS, header), m1)
      ∧ Gpt.signature header = Gpt.GPT_HEADER_SIGNATURE
      ∧ Gpt.header_crc32 header
        = Gpt.calculate_crc32 (Gpt.set_header_crc32 header 0)
                              (Gpt.header_size header)
      ∧ Gpt.my_lba header = lba
      ∧ Gpt.sizeof_gpt_partition_entry_t <= Gpt.partition_entry_size header
      ∧ header_out'
        = memcpy header_out
                 (Gpt.set_header_crc (Gpt.header_size header) header)
                 Gpt.sizeof_gpt_header_t
      ∧ fst (Gpt.validate_gpt_entry_array_crc plat dev header_out' m1)
        = false.
Proof.
  unfold Gpt.validate_gpt_table, bind, ret. cbn zeta.
  run_step; [|intros [= <- _]; by left].
  run_step; [|destruct (free plat _); intros [= <- _]; by left].
  apply status_eqb_eq in Heqb. subst status.
  destruct (Z.eqb_spec (Gpt.signature buf) Gpt.GPT_HEADER_SIGNATURE) as [Hsig|];
    cbn [negb]; [|destruct (free plat _); intros [= <- _]; by left].
  destruct (Gpt.check_header_crc (block_size dev) (Gpt.header_size buf) buf)
    as [crc_ok header'] eqn:Hcheck.
  destruct crc_ok; cbn [negb];
    [|destruct (free plat _); intros [= <- _]; by left].
  assert (Gpt.header_size buf ≠ 0
          ∧ (block_size dev = 0 ∨ Gpt.header_size buf <= block_size dev))
    as [Hsz Hmax].
  { destruct (Z.eq_dec (Gpt.header_size buf) 0) as [E|];
      [rewrite check_header_crc_rejected in Hcheck by auto; discriminate|].
    split; [done|].
    destruct (Z.eq_dec (block_size dev) 0); [by left|]. right.
    destruct (Z.le_gt_cases (Gpt.header_size buf) (block_size dev)); [done|].
    rewrite check_header_crc_rejected in Hcheck by (right; lia). discriminate. }
  rewrite check_header_crc_computed in Hcheck by done.
  injection Hcheck as Hcrc <-. apply Z.eqb_eq in Hcrc.
  set (header' := Gpt.set_header_crc (Gpt.header_size buf) buf).
  assert (Gpt.my_lba header' = Gpt.my_lba buf) as ->
    by (apply get_u64_set_header_crc; lia).
  assert (Gpt.partition_entry_size header' = Gpt.partition_entry_size buf)
    as -> by (apply get_u32_set_header_crc; lia).
  assert (Gpt.num_partition_entries header' = Gpt.num_partition_entries buf)
    as -> by (apply get_u32_set_header_crc; lia).
  destruct (Z.eqb_spec (Gpt.my_lba buf) lba) as [Hlba|]; cbn [negb];
    [|destruct (free plat _); intros [= <- _]; by left].
  destruct (Z.ltb_spec (Gpt.partition_entry_size buf)
                       Gpt.sizeof_gpt_partition_entry_t) as [|Hes];
    [destruct (free plat _); intros [= <- _]; by left|].
  destruct (Z.ltb_spec (0xFFFFFFFFFFFFFFFF / Gpt.partition_entry_size buf)
                       (Gpt.num_partition_entries buf)) as [|Hnum];
    [destruct (free plat _); intros [= <- _]; by left|].
  set (hout := memcpy header_out header' Gpt.sizeof_gpt_header_t).
  destruct (Gpt.validate_gpt_entry_array_crc plat dev hout m1)
    as [entries_ok m4] eqn:Hentries.
  destruct entries_ok; cbn [negb]; destruct (free plat _);
    [discriminate|].
  intros [= <- _]. right. exists m0, buf, m1.
  rewrite Hentries. repeat split; assumption || reflexivity.
Qed.

End GptValidate.

Lemma validate_gpt_table_sound_witness :
  ∃ header_out' m',
    Gpt.validate_gpt_table ram_platform (ram_disk 12) 1
                           (zero_buffer 92) (boot gpt_disk)
    = ((true, header_out'), m')
    ∧ Gpt.my_lba header_out' = 1
    ∧ ∃ m0 header m1 m2 entries m3,
        alloc_zero ram_platform 512 (boot gpt_disk) = (true, m0)
        ∧ dev_read (ram_disk 12) (u64 (1 * 512)) 512 m0
          = ((STATUS_SUCCESS, header), m1)
        ∧ Gpt.signature header = Gpt.GPT_HEADER_SIGNATURE
        ∧ Gpt.header_crc32 header
          = Gpt.calculate_crc32 (Gpt.set_header_crc32 header 0)
                                (Gpt.header_size header)
        ∧ Gpt.my_lba header = 1
        ∧ Gpt.sizeof_gpt_partition_entry_t <= Gpt.partition_entry_size header
        ∧ Gpt.num_partition_entries header * Gpt.partition_entry_size header
          <= 0xFFFFFFFFFFFFFFFF
        ∧ (let entries_size :=
             u32 (Gpt.num_partition_entries header
                  * Gpt.partition_entry_size header) in
           alloc ram_platform entries_size m1 = (true, m2)
           ∧ dev_read (ram_disk 12)
                      (u64 (Gpt.partition_entry_lba header * 512))
                      entries_size m2 = ((STATUS_SUCCESS, entries), m3)
           ∧ Gpt.partition_array_crc32 header
             = Gpt.calculate_crc32 entries entries_size)
        ∧ header_out'
          = memcpy (zero_buffer 92)
                   (Gpt.set_header_crc (Gpt.header_size header) header)
                   Gpt.sizeof_gpt_header_t.
Proof.
  match eval vm_compute in
        (Gpt.validate_gpt_table ram_platform (ram_disk 12) 1
                                (zero_buffer 92) (boot gpt_disk)) with
  | ((_, ?h), ?m) =>
    assert (Gpt.validate_gpt_table ram_platform (ram_disk 12) 1
                                   (zero_buffer 92) (boot gpt_disk)
            = ((true, h), m)) as Hrun by (vm_compute; reflexivity);
    exists h, m
  end.
  split; [exact Hrun|]. split; [vm_compute; reflexivity|].
  exact (validate_gpt_table_sound ram_platform _ _ _ _ _ _ Hrun).
Defined.

(** C2.  On [wrapped_gpt_disk] the header at block 1 declares 2^25 + 1
    entries of 128 bytes each, 2^32 + 128 bytes in all.  The test that
    is to catch an overflowing product compares the count with
    [0xFFFFFFFFFFFFFFFF / size] and lets the header pass; the size of
    the array is then taken in 32 bits, which leaves 128.
    [validate_gpt_table] allocates, reads and checksums these 128
    bytes, one entry of the array the header declares, and answers
    true. *)
Theorem validate_gpt_table_accepts_wrapped_array_size :
  let header := take 92 wrapped_header_block in
  Gpt.num_partition_entries header = 2 ^ 25 + 1
  ∧ Gpt.partition_entry_size header = 128
  ∧ Gpt.num_partition_entries header * Gpt.partition_entry_size header
    = 2 ^ 32 + 128
  ∧ (0xFFFFFFFFFFFFFFFF / Gpt.partition_entry_size header
       <? Gpt.num_partition_entries header) = false
  ∧ u32 (Gpt.num_partition_entries header * Gpt.partition_entry_size header)
    = 128
  ∧ Gpt.partition_array_crc32 header = Gpt.calculate_crc32 lone_entry 128
  ∧ Gpt.validate_gpt_table ram_platform (ram_disk 4) 1 (zero_buffer 92)
                           (boot wrapped_gpt_disk)
    = ((true, header),
       {| world := wrapped_gpt_disk;
          io_log := [IoRead 512 512; IoRead 1024 128] |}).
Proof.
  cbn zeta.
  assert (Gpt.num_partition_entries (take 92 wrapped_header_block)
          = 2 ^ 25 + 1) as Hn by (vm_compute; reflexivity).
  assert (Gpt.partition_entry_size (take 92 wrapped_header_block) = 128)
    as Hs by (vm_compute; reflexivity).
  rewrite Hn, Hs.
  repeat split; vm_compute; reflexivity.
Qed.

(* ====================================================================== *)
(** ** check_gpt_entries: the overlap flag *)

Section OverlapFlag.
Variables header entries : list Z.

Local Abbreviation E := (Gpt.entry_at header entries).
Local Abbreviation used := (entry_used header entries).
Local Abbreviation n := (Z.to_nat (Gpt.num_partition_entries header)).
Local Abbreviation ptest := (pair_test header entries).
Local Abbreviation cmpd := (compared header entries).

Lemma pair_test_sym i j : ptest i j = ptest j i.
Proof. unfold pair_test. apply andb_comm. Qed.

Lemma pair_test_overlap i j : ptest i j = true ↔ entries_overlap header entries i j.
Proof.
  unfold pair_test, entries_overlap.
  rewrite andb_true_iff, !Z.leb_le. lia.
Qed.

Lemma status_at_alter_eq f st i :
  (i < length st)%nat →
  Gpt.status_at (alter f i st) i = f (Gpt.status_at st i).
Proof.
  intros Hi. unfold Gpt.status_at. rewrite !nth_lookup, list_lookup_alter_eq.
  destruct (lookup_lt_is_Some_2 st i Hi) as [x ->]. done.
Qed.

Lemma status_at_alter_ne f st i k :
  i ≠ k → Gpt.status_at (alter f i st) k = Gpt.status_at st k.
Proof.
  intros Hi. unfold Gpt.status_at.
  by rewrite !nth_lookup, list_lookup_alter_ne.
Qed.

Lemma overlap_alter_set_overlap st i k :
  (i < length st)%nat →
  Gpt.overlap (Gpt.status_at (alter Gpt.set_overlap i st) k) = true
  ↔ Gpt.overlap (Gpt.status_at st k) = true ∨ k = i.
Proof.
  intros Hi. destruct (decide (i = k)) as [->|Hne].
  - rewrite status_at_alter_eq by done. simpl. tauto.
  - rewrite status_at_alter_ne by done. split; [tauto|].
    intros [H|H]; [done|congruence].
Qed.

Lemma length_check_overlap_with i st j :
  length (Gpt.check_overlap_with header entries i st j) = length st.
Proof.
  unfold Gpt.check_overlap_with.
  repeat destruct (_ : bool); rewrite ?length_alter; done.
Qed.

Lemma overlap_check_overlap_with i st j k :
  (i < length st)%nat → (j < length st)%nat →
  Gpt.overlap (Gpt.status_at (Gpt.check_overlap_with header entries i st j) k)
    = true
  ↔ Gpt.overlap (Gpt.status_at st k) = true
    ∨ (used j = true ∧ ptest i j = true ∧ (k = i ∨ k = j)).
Proof.
  intros Hi Hj. unfold Gpt.check_overlap_with, entry_used.
  destruct (Gpt.compare_guid _ _); cbn [negb].
  { split; [tauto|]. intros [H|[H _]]; [done|discriminate]. }
  fold (pair_test header entries i j). destruct (ptest i j).
  - rewrite !overlap_alter_set_overlap by (rewrite ?length_alter; done).
    tauto.
  - split; [tauto|]. intros [H|(_ & H & _)]; [done|discriminate].
Qed.

Lemma overlap_inner_loop i js st k :
  (i < length st)%nat → Forall (fun j => (j < length st)%nat) js →
  Gpt.overlap
    (Gpt.status_at
       (fold_left (Gpt.check_overlap_with header entries i) js st) k) = true
  ↔ Gpt.overlap (Gpt.status_at st k) = true
    ∨ ∃ j, j ∈ js ∧ used j = true ∧ ptest i j = true ∧ (k = i ∨ k = j).
Proof.
  revert st. induction js as [|j js IH]; intros st Hi Hjs; simpl.
  - split; [tauto|]. intros [H|(j & Hj & _)]; [done|]. by apply elem_of_nil in Hj.
  - apply Forall_cons in Hjs as [Hj Hjs].
    rewrite IH by (rewrite ?length_check_overlap_with; done).
    rewrite overlap_check_overlap_with by done.
    split.
    + intros [[H|H]|(j' & Hin & H)]; [tauto| |].
      * right. exists j. split; [left|done].
      * right. exists j'. split; [by right|done].
    + intros [H|(j' & Hin & H)]; [tauto|].
      apply elem_of_cons in Hin as [->|Hin]; [tauto|].
      right. exists j'. done.
Qed.

Lemma length_inner_loop i js st :
  length (fold_left (Gpt.check_overlap_with header entries i) js st)
  = length st.
Proof.
  revert st. induction js as [|j js IH]; intros st; simpl; [done|].
  by rewrite IH, length_check_overlap_with.
Qed.

Lemma length_check_entry st i :
  length (Gpt.check_entry header entries st i) = length st.
Proof.
  unfold Gpt.check_entry.
  repeat destruct (_ : bool);
    rewrite ?length_inner_loop, ?length_alter; done.
Qed.

Lemma overlap_check_entry st i k :
  (n <= length st)%nat → (i < n)%nat →
  Gpt.overlap (Gpt.status_at (Gpt.check_entry header entries st i) k) = true
  ↔ Gpt.overlap (Gpt.status_at st k) = true
    ∨ ∃ j, cmpd i j ∧ (k = i ∨ k = j).
Proof.
  intros Hn Hi. unfold Gpt.check_entry, compared, entry_used, entry_in_range.
  destruct (Gpt.compare_guid (Gpt.partition_type_guid (E i)) Gpt.GUID_UNUSED);
    cbn [negb].
  { split; [tauto|]. intros [H|(j & (_ & H & _) & _)]; [done|discriminate]. }
  destruct (Gpt.entry_out_of_range header (E i)); cbn [negb].
  { destruct (decide (i = k)) as [->|Hne].
    - rewrite status_at_alter_eq by lia. simpl.
      split; [tauto|]. intros [H|(j & (_ & _ & H & _) & _)]; [done|discriminate].
    - rewrite status_at_alter_ne by done.
      split; [tauto|]. intros [H|(j & (_ & _ & H & _) & _)]; [done|discriminate]. }
  set (st1 := if Z.testbit _ 1 then _ else _).
  assert (length st1 = length st) as Hl
    by (subst st1; destruct (Z.testbit _ 1); rewrite ?length_alter; done).
  assert (Gpt.overlap (Gpt.status_at st1 k) = Gpt.overlap (Gpt.status_at st k))
    as Ho.
  { subst st1. destruct (Z.testbit _ 1); [|done].
    destruct (decide (i = k)) as [->|Hne].
    - rewrite status_at_alter_eq by lia. done.
    - rewrite status_at_alter_ne by done. done. }
  rewrite overlap_inner_loop.
  - rewrite Ho. split.
    + intros [H|(j & Hin & Hu & Hp & Hk)]; [tauto|]. right. exists j.
      apply elem_of_seq in Hin. repeat split; try done; lia.
    + intros [H|(j & ((Hij & Hjn) & _ & _ & Hu & Hp) & Hk)]; [tauto|].
      right. exists j. split; [|done]. apply elem_of_seq. lia.
  - lia.
  - apply Forall_forall. intros j Hin. apply elem_of_seq in Hin. lia.
Qed.

Lemma overlap_outer_loop idxs st k :
  (n <= length st)%nat → Forall (fun i => (i < n)%nat) idxs →
  Gpt.overlap
    (Gpt.status_at (fold_left (Gpt.check_entry header entries) idxs st) k) = true
  ↔ Gpt.overlap (Gpt.status_at st k) = true
    ∨ ∃ i j, i ∈ idxs ∧ cmpd i j ∧ (k = i ∨ k = j).
Proof.
  revert st. induction idxs as [|i idxs IH]; intros st Hn His; simpl.
  - split; [tauto|]. intros [H|(i & j & Hin & _)]; [done|].
    by apply elem_of_nil in Hin.
  - apply Forall_cons in His as [Hi His].
    rewrite IH by (rewrite ?length_check_entry; done).
    rewrite overlap_check_entry by done.
    split.
    + intros [[H|(j & H)]|(i' & j & Hin & H)]; [tauto| |].
      * right. exists i, j. split; [left|done].
      * right. exists i', j. split; [by right|done].
    + intros [H|(i' & j & Hin & H)]; [tauto|].
      apply elem_of_cons in Hin as [->|Hin]; [left; right; by exists j|].
      right. exists i', j. done.
Qed.

(** An entry ends up flagged exactly when it is a member of a compared
    pair. *)
Lemma flagged_overlap_iff k :
  flagged_overlap header entries k = true
  ↔ ∃ i j, cmpd i j ∧ (k = i ∨ k = j).
Proof.
  unfold flagged_overlap, checked_status, Gpt.check_gpt_entries.
  rewrite overlap_outer_loop.
  - split.
    + intros [H|(i & j & _ & H)]; [|by exists i, j].
      unfold Gpt.status_at in H. rewrite nth_lookup in H.
      destruct (replicate n Gpt.zero_status !! k) as [x|] eqn:Hx;
        [apply lookup_replicate in Hx as [-> _]|]; discriminate.
    + intros (i & j & H & Hk). right. exists i, j. split; [|done].
      apply elem_of_seq. destruct H as ((? & ?) & _). lia.
  - by rewrite length_replicate.
  - apply Forall_forall. intros i Hin. apply elem_of_seq in Hin. lia.
Qed.

End OverlapFlag.

(** C4, as stated, fails: with the entries [10,20], [40,50], [15,45]
    the first two are in use, in range and both flagged overlapping
    (each overlaps the third), yet they do not overlap each other. *)
Lemma overlap_flags_from_third_entry :
  let h := range_header 3 in
  let e := bridged_entries in
  entry_used h e 0 = true ∧ entry_used h e 1 = true
  ∧ entry_in_range h e 0 = true ∧ entry_in_range h e 1 = true
  ∧ flagged_overlap h e 0 = true ∧ flagged_overlap h e 1 = true
  ∧ ¬ entries_overlap h e 0 1.
Proof.
  cbn zeta. repeat split; try (vm_compute; reflexivity).
  unfold entries_overlap.
  assert (Gpt.ending_lba (Gpt.entry_at (range_header 3) bridged_entries 0) = 20)
    as -> by (vm_compute; reflexivity).
  assert (Gpt.starting_lba (Gpt.entry_at (range_header 3) bridged_entries 1) = 40)
    as -> by (vm_compute; reflexivity).
  lia.
Qed.

(** C4 (amended).  For two distinct entries [a] and [b] of the array,
    both in use and in range: if [a.end >= b.start] and
    [a.start <= b.end] then both are flagged overlapping; an entry that
    is flagged overlaps, in this sense, some other entry in use; and when
    every entry other than [a] and [b] is unused, [a] and [b] are both
    flagged if and only if [a.end >= b.start] and [a.start <= b.end]. *)
Theorem overlap_flags_of_pair header entries (a b : nat) :
  let n := Z.to_nat (Gpt.num_partition_entries header) in
  (a < n)%nat → (b < n)%nat → a ≠ b →
  entry_used header entries a = true →
  entry_used header entries b = true →
  entry_in_range header entries a = true →
  entry_in_range header entries b = true →
  (entries_overlap header entries a b →
     flagged_overlap header entries a = true
     ∧ flagged_overlap header entries b = true)
  ∧ (flagged_overlap header entries a = true →
     ∃ c, (c < n)%nat ∧ c ≠ a ∧ entry_used header entries c = true
          ∧ entries_overlap header entries a c)
  ∧ ((∀ c, (c < n)%nat → c ≠ a → c ≠ b →
          entry_used header entries c = false) →
     (flagged_overlap header entries a = true
      ∧ flagged_overlap header entries b = true
      ↔ entries_overlap header entries a b)).
Proof.
  intros n Ha Hb Hab Hua Hub Hra Hrb.
  assert (entries_overlap header entries a b →
          flagged_overlap header entries a = true
          ∧ flagged_overlap header entries b = true) as H1.
  { intros Hov. apply pair_test_overlap in Hov.
    rewrite !flagged_overlap_iff.
    destruct (decide (a < b)%nat).
    - split; exists a, b; (split; [|tauto]); unfold compared;
        repeat split; try done; lia.
    - rewrite pair_test_sym in Hov.
      split; exists b, a; (split; [|tauto]); unfold compared;
        repeat split; try done; lia. }
  assert (flagged_overlap header entries a = true →
          ∃ c, (c < n)%nat ∧ c ≠ a ∧ entry_used header entries c = true
               ∧ entries_overlap header entries a c) as H2.
  { rewrite flagged_overlap_iff.
    intros (i & j & ((Hij & Hjn) & Hui & _ & Huj & Hp) & [-> | ->]).
    - exists j. repeat split; try done; try lia.
      + apply pair_test_overlap in Hp. apply Hp.
      + apply pair_test_overlap in Hp. apply Hp.
    - exists i. rewrite pair_test_sym in Hp.
      repeat split; try done; try (subst n; lia).
      + apply pair_test_overlap in Hp. apply Hp.
      + apply pair_test_overlap in Hp. apply Hp. }
  split; [exact H1|]. split; [exact H2|].
  intros Hrest. split; [|exact H1].
  intros [Hfa _]. destruct (H2 Hfa) as (c & Hc & Hca & Huc & Hov).
  destruct (decide (c = b)) as [->|Hcb]; [done|].
  rewrite (Hrest c Hc Hca Hcb) in Huc. discriminate.
Qed.

Lemma touching_entries_fields :
  let h := range_header 2 in
  let e := touching_entries in
  Z.to_nat (Gpt.num_partition_entries h) = 2%nat
  ∧ entry_used h e 0 = true ∧ entry_used h e 1 = true
  ∧ entry_in_range h e 0 = true ∧ entry_in_range h e 1 = true
  ∧ Gpt.starting_lba (Gpt.entry_at h e 0) = 10
  ∧ Gpt.ending_lba (Gpt.entry_at h e 0) = 20
  ∧ Gpt.starting_lba (Gpt.entry_at h e 1) = 20
  ∧ Gpt.ending_lba (Gpt.entry_at h e 1) = 30.
Proof. vm_compute. repeat split; reflexivity. Qed.

Lemma adjacent_entries_fields :
  let h := range_header 2 in
  let e := adjacent_entries in
  Z.to_nat (Gpt.num_partition_entries h) = 2%nat
  ∧ entry_used h e 0 = true ∧ entry_used h e 1 = true
  ∧ entry_in_range h e 0 = true ∧ entry_in_range h e 1 = true
  ∧ Gpt.starting_lba (Gpt.entry_at h e 0) = 10
  ∧ Gpt.ending_lba (Gpt.entry_at h e 0) = 19
  ∧ Gpt.starting_lba (Gpt.entry_at h e 1) = 20
  ∧ Gpt.ending_lba (Gpt.entry_at h e 1) = 30.
Proof. vm_compute. repeat split; reflexivity. Qed.

(** [10,20] and [20,30] are both flagged; [10,19] and [20,30] are not. *)
Lemma overlap_flags_of_pair_witness :
  (flagged_overlap (range_header 2) touching_entries 0 = true
   ∧ flagged_overlap (range_header 2) touching_entries 1 = true)
  ∧ ¬ (flagged_overlap (range_header 2) adjacent_entries 0 = true
       ∧ flagged_overlap (range_header 2) adjacent_entries 1 = true).
Proof.
  split.
  - destruct touching_entries_fields
      as (En & U0 & U1 & R0 & R1 & S0 & E0 & S1 & E1).
    pose proof (overlap_flags_of_pair (range_header 2) touching_entries 0 1)
      as H.
    cbv zeta in H. rewrite En in H.
    specialize (H ltac:(lia) ltac:(lia) ltac:(lia) U0 U1 R0 R1).
    apply (proj1 H). unfold entries_overlap. rewrite S0, E0, S1, E1. lia.
  - destruct adjacent_entries_fields
      as (En & U0 & U1 & R0 & R1 & S0 & E0 & S1 & E1).
    pose proof (overlap_flags_of_pair (range_header 2) adjacent_entries 0 1)
      as H.
    cbv zeta in H. rewrite En in H.
    specialize (H ltac:(lia) ltac:(lia) ltac:(lia) U0 U1 R0 R1).
    destruct H as (_ & _ & H). intros Hf. apply H in Hf.
    + unfold entries_overlap in Hf. rewrite E0, S1 in Hf. lia.
    + intros c Hc Hc0 Hc1. lia.
Defined.

(* ====================================================================== *)
(** ** restore_gpt_table *)

Lemma lookup_set_u8 buf off v (i : nat) :
  set_u8 buf off v !! i
  = if decide (Z.of_nat i = off) then (fun _ => u8 v) <$> buf !! i
    else buf !! i.
Proof.
  case_decide as Hi.
  - unfold set_u8. destruct (Z.ltb_spec off 0); [lia|].
    replace (Z.to_nat off) with i by lia.
    destruct (buf !! i) as [x|] eqn:E.
    + rewrite list_lookup_insert_eq by (by eapply lookup_lt_Some). done.
    + rewrite list_insert_ge by (by apply lookup_ge_None). by rewrite E.
  - by apply lookup_set_u8_ne.
Qed.

Lemma set_u32_set_u32 buf off a b :
  set_u32 (set_u32 buf off a) off b = set_u32 buf off b.
Proof.
  apply list_eq. intros i. unfold set_u32. rewrite !lookup_set_u8.
  repeat case_decide; try lia; destruct (buf !! i); done.
Qed.

Lemma set_header_crc32_set_header_crc size h :
  Gpt.set_header_crc32 (Gpt.set_header_crc size h) 0 = Gpt.set_header_crc32 h 0.
Proof.
  unfold Gpt.set_header_crc, Gpt.set_header_crc32.
  by rewrite !set_u32_set_u32.
Qed.

Lemma byte_at_set_u64_ne buf off v i :
  i < off ∨ off + 8 <= i → byte_at (set_u64 buf off v) i = byte_at buf i.
Proof.
  intros H. unfold set_u64. rewrite !byte_at_set_u32_ne by lia. done.
Qed.

Lemma byte_at_set_header_crc size h i :
  i < 16 ∨ 20 <= i → byte_at (Gpt.set_header_crc size h) i = byte_at h i.
Proof.
  intros H. unfold Gpt.set_header_crc, Gpt.set_header_crc32.
  rewrite !byte_at_set_u32_ne by lia. done.
Qed.

Lemma u64_get_u64 buf off : u64 (get_u64 buf off) = get_u64 buf off.
Proof. unfold u64. apply Z.mod_small, get_u64_range. Qed.

Lemma u64_idem z : u64 (u64 z) = u64 z.
Proof. unfold u64. apply Z.mod_mod. lia. Qed.

Section RestoredHeader.
Variables (block_size : Z) (header : list Z).

Lemma length_copied :
  (92 <= length (memcpy (zero_buffer block_size) header
                        Gpt.sizeof_gpt_header_t))%nat.
Proof. apply (length_memcpy_ge _ _ 92). lia. Qed.

Lemma restored_header_my_lba :
  Gpt.my_lba (Gpt.restored_header block_size header)
  = Gpt.alternate_lba header.
Proof.
  pose proof length_copied.
  unfold Gpt.restored_header, Gpt.my_lba, Gpt.set_partition_entry_lba,
    Gpt.set_alternate_lba, Gpt.set_my_lba.
  rewrite get_u64_set_header_crc by lia.
  rewrite !get_u64_set_u64_ne by lia.
  rewrite get_u64_set_u64 by lia.
  apply u64_get_u64.
Qed.

Lemma restored_header_alternate_lba :
  Gpt.alternate_lba (Gpt.restored_header block_size header)
  = Gpt.my_lba header.
Proof.
  pose proof length_copied.
  unfold Gpt.restored_header, Gpt.alternate_lba, Gpt.set_partition_entry_lba,
    Gpt.set_alternate_lba, Gpt.set_my_lba.
  rewrite get_u64_set_header_crc by lia.
  rewrite !get_u64_set_u64_ne by lia.
  rewrite get_u64_set_u64 by (rewrite ?length_set_u64; lia).
  apply u64_get_u64.
Qed.

Lemma restored_header_partition_entry_lba :
  Gpt.partition_entry_lba (Gpt.restored_header block_size header)
  = if Gpt.my_lba header =? Gpt.PRIMARY_PART_HEADER_LBA
    then u64 (Gpt.last_usable_lba header + 1)
    else 2.
Proof.
  pose proof length_copied.
  unfold Gpt.restored_header, Gpt.partition_entry_lba,
    Gpt.set_partition_entry_lba, Gpt.set_alternate_lba, Gpt.set_my_lba.
  rewrite get_u64_set_header_crc by lia.
  rewrite get_u64_set_u64 by (rewrite ?length_set_u64; lia).
  unfold Gpt.PRIMARY_PART_HEADER_LBA.
  destruct (Gpt.my_lba header =? 1); [apply u64_idem|reflexivity].
Qed.

Lemma restored_header_crc :
  Gpt.header_crc32 (Gpt.restored_header block_size header)
  = Gpt.calculate_crc32
      (Gpt.set_header_crc32 (Gpt.restored_header block_size header) 0)
      (Gpt.header_size (Gpt.restored_header block_size header)).
Proof.
  pose proof length_copied.
  unfold Gpt.restored_header.
  set (nh := Gpt.set_partition_entry_lba _ _).
  assert (92 <= length nh)%nat
    by (subst nh; unfold Gpt.set_partition_entry_lba, Gpt.set_alternate_lba,
          Gpt.set_my_lba; rewrite !length_set_u64; lia).
  rewrite header_crc32_set_header_crc by lia.
  rewrite set_header_crc32_set_header_crc.
  f_equal. unfold Gpt.header_size. symmetry.
  apply get_u32_set_header_crc. lia.
Qed.

Lemma restored_header_copy i :
  0 <= i < 92 → ¬ (16 <= i < 20) → ¬ (24 <= i < 40) → ¬ (72 <= i < 80) →
  byte_at (Gpt.restored_header block_size header) i = byte_at header i.
Proof.
  intros Hi H1 H2 H3.
  unfold Gpt.restored_header, Gpt.set_partition_entry_lba,
    Gpt.set_alternate_lba, Gpt.set_my_lba.
  rewrite byte_at_set_header_crc by lia.
  rewrite !byte_at_set_u64_ne by lia.
  apply byte_at_memcpy. unfold Gpt.sizeof_gpt_header_t. lia.
Qed.

End RestoredHeader.

Section IoLog.
Context {W : Type} (plat : platform_t W).

Lemma io_log_alloc size m ok m' :
  alloc plat size m = (ok, m') → io_log m' = io_log m.
Proof.
  unfold alloc. destruct (alloc_pool plat size (world m)).
  by intros [= _ <-].
Qed.

Lemma io_log_free m : io_log (snd (free plat m)) = io_log m.
Proof. reflexivity. Qed.

Lemma io_log_dev_read (dev : block_device_t W) offset size m r m' :
  dev_read dev offset size m = (r, m') →
  io_log m' = io_log m ++ [IoRead offset size].
Proof.
  unfold dev_read.
  destruct (read_disk dev (media_id dev) offset size (world m)) as [[st d] w].
  by intros [= _ <-].
Qed.

Lemma io_log_dev_write (dev : block_device_t W) offset size buffer m st m' :
  dev_write dev offset size buffer m = (st, m') →
  io_log m' = io_log m
              ++ [IoWrite offset size (resize (Z.to_nat size) 0 buffer)].
Proof.
  unfold dev_write. cbn zeta.
  destruct (write_disk dev (media_id dev) offset size _ (world m)) as [s w].
  by intros [= _ <-].
Qed.

(** C1 (amended).  [restore_gpt_table] builds the new header as a copy
    of the source with [my_lba] and [alternate_lba] exchanged, with the
    entry location set to the block after the usable range when the
    source is the primary header at block 1 (the backup slot is being
    restored) and to block 2 otherwise (the primary slot is being
    restored), and with the checksum recomputed over the header with its
    checksum field zeroed.  With the allocations and transfers
    succeeding, it writes the new header at the new header's own address
    first, then reads the source's entry array and writes it at the new
    entry location; the verdict is the status of that last write. *)
Theorem restore_gpt_table_spec dev header m m0 m1 m2 entries m3 status m4 :
  let bs := block_size dev in
  let new_header := Gpt.restored_header bs header in
  let new_entry_lba :=
    if Gpt.my_lba header =? Gpt.PRIMARY_PART_HEADER_LBA
    then u64 (Gpt.last_usable_lba header + 1)
    else 2 in
  let entries_size :=
    u32 (Gpt.num_partition_entries header * Gpt.partition_entry_size header) in
  alloc_zero plat bs m = (true, m0) →
  dev_write dev (u64 (Gpt.my_lba new_header * bs)) bs new_header m0
  = (STATUS_SUCCESS, m1) →
  alloc plat entries_size m1 = (true, m2) →
  dev_read dev (u64 (Gpt.partition_entry_lba header * bs)) entries_size m2
  = ((STATUS_SUCCESS, entries), m3) →
  dev_write dev (u64 (new_entry_lba * bs)) entries_size entries m3
  = (status, m4) →
  Gpt.my_lba new_header = Gpt.alternate_lba header
  ∧ Gpt.alternate_lba new_header = Gpt.my_lba header
  ∧ Gpt.partition_entry_lba new_header = new_entry_lba
  ∧ Gpt.header_crc32 new_header
    = Gpt.calculate_crc32 (Gpt.set_header_crc32 new_header 0)
                          (Gpt.header_size new_header)
  ∧ (∀ i, 0 <= i < 92 → ¬ (16 <= i < 20) → ¬ (24 <= i < 40) →
          ¬ (72 <= i < 80) → byte_at new_header i = byte_at header i)
  ∧ ∃ m',
      Gpt.restore_gpt_table plat dev header m
      = (status_eqb status STATUS_SUCCESS, m')
      ∧ io_log m'
        = io_log m
          ++ [IoWrite (u64 (Gpt.my_lba new_header * bs)) bs
                      (resize (Z.to_nat bs) 0 new_header);
              IoRead (u64 (Gpt.partition_entry_lba header * bs)) entries_size;
              IoWrite (u64 (new_entry_lba * bs)) entries_size
                      (resize (Z.to_nat entries_size) 0 entries)].
Proof.
  intros bs new_header new_entry_lba entries_size Ha0 Hw1 Ha2 Hr3 Hw4.
  split; [apply restored_header_my_lba|].
  split; [apply restored_header_alternate_lba|].
  split; [apply restored_header_partition_entry_lba|].
  split; [apply restored_header_crc|].
  split; [apply restored_header_copy|].
  exists (snd (free plat (snd (free plat m4)))). split.
  - unfold Gpt.restore_gpt_table, bind, ret. cbn zeta.
    fold bs. rewrite Ha0. cbn [negb].
    fold new_header. rewrite Hw1. cbn [status_eqb negb].
    fold entries_size. rewrite Ha2. cbn [negb].
    rewrite Hr3. cbn [status_eqb negb].
    change (Gpt.PRIMARY_PART_HEADER_LBA + 1) with 2.
    fold new_entry_lba. rewrite Hw4. reflexivity.
  - rewrite !io_log_free.
    rewrite (io_log_dev_write _ _ _ _ _ _ _ Hw4).
    rewrite (io_log_dev_read _ _ _ _ _ _ Hr3).
    rewrite (io_log_alloc _ _ _ _ Ha2).
    rewrite (io_log_dev_write _ _ _ _ _ _ _ Hw1).
    rewrite (io_log_alloc _ _ _ _ Ha0).
    by rewrite <- !app_assoc.
Qed.

(** A failed write of the new header is reported at once: nothing is
    read or written after it. *)
Lemma restore_gpt_table_header_write_fails dev header m m0 status m1 :
  let bs := block_size dev in
  let new_header := Gpt.restored_header bs header in
  alloc_zero plat bs m = (true, m0) →
  dev_write dev (u64 (Gpt.my_lba new_header * bs)) bs new_header m0
  = (status, m1) →
  status ≠ STATUS_SUCCESS →
  Gpt.restore_gpt_table plat dev header m = (false, snd (free plat m1))
  ∧ io_log (snd (free plat m1))
    = io_log m ++ [IoWrite (u64 (Gpt.my_lba new_header * bs)) bs
                           (resize (Z.to_nat bs) 0 new_header)].
Proof.
  intros bs new_header Ha0 Hw1 Hst. split.
  - unfold Gpt.restore_gpt_table, bind, ret. cbn zeta.
    fold bs. rewrite Ha0. cbn [negb]. fold new_header. rewrite Hw1.
    destruct (status_eqb status STATUS_SUCCESS) eqn:E; [|reflexivity].
    apply status_eqb_eq in E. contradiction.
  - rewrite io_log_free, (io_log_dev_write _ _ _ _ _ _ _ Hw1).
    by rewrite (io_log_alloc _ _ _ _ Ha0).
Qed.

End IoLog.

(** C1, as stated, fails: restoring into the primary slot (source: the
    backup header at block 11, whose usable range ends at 8) puts the
    entry array at block 2, not after the usable range; restoring into
    the backup slot (source: the primary header at block 1) puts it at
    block 9, right after the usable range, not at block 2. *)
Lemma restore_entry_location_by_slot :
  let from_backup := Gpt.restored_header 512 (backup_header_of gpt_disk) in
  let from_primary := Gpt.restored_header 512 (primary_header_of gpt_disk) in
  Gpt.my_lba from_backup = 1
  ∧ Gpt.partition_entry_lba from_backup = 2
  ∧ Gpt.partition_entry_lba from_backup
    ≠ Gpt.last_usable_lba (backup_header_of gpt_disk) + 1
  ∧ Gpt.my_lba from_primary = 11
  ∧ Gpt.partition_entry_lba from_primary
    = Gpt.last_usable_lba (primary_header_of gpt_disk) + 1
  ∧ Gpt.partition_entry_lba from_primary ≠ 2.
Proof. vm_compute. repeat split; congruence. Qed.

(** Restoring the primary of [gpt_disk] from its backup header. *)
Lemma restore_gpt_table_spec_witness :
  ∃ m0 m1 m2 entries m3 m4 m',
    let dev := ram_disk 12 in
    let header := backup_header_of gpt_disk in
    let new_header := Gpt.restored_header 512 header in
    alloc_zero ram_platform 512 (boot gpt_disk) = (true, m0)
    ∧ dev_write dev (u64 (Gpt.my_lba new_header * 512)) 512 new_header m0
      = (STATUS_SUCCESS, m1)
    ∧ alloc ram_platform 1024 m1 = (true, m2)
    ∧ dev_read dev (u64 (Gpt.partition_entry_lba header * 512)) 1024 m2
      = ((STATUS_SUCCESS, entries), m3)
    ∧ dev_write dev (u64 (2 * 512)) 1024 entries m3 = (STATUS_SUCCESS, m4)
    ∧ Gpt.restore_gpt_table ram_platform dev header (boot gpt_disk)
      = (true, m')
    ∧ Gpt.my_lba new_header = 1
    ∧ Gpt.partition_entry_lba new_header = 2
    ∧ io_log m'
      = [IoWrite 512 512 (resize 512 0 new_header);
         IoRead 4608 1024;
         IoWrite 1024 1024 (resize 1024 0 entries)].
Proof.
  set (dev := ram_disk 12).
  set (header := backup_header_of gpt_disk).
  set (new_header := Gpt.restored_header 512 header).
  set (m0 := boot gpt_disk).
  assert (alloc_zero ram_platform 512 (boot gpt_disk) = (true, m0)) as H0
    by reflexivity.
  set (m1 := snd (dev_write dev (u64 (Gpt.my_lba new_header * 512)) 512
                            new_header m0)).
  assert (dev_write dev (u64 (Gpt.my_lba new_header * 512)) 512 new_header m0
          = (STATUS_SUCCESS, m1)) as H1 by (vm_compute; reflexivity).
  assert (alloc ram_platform 1024 m1 = (true, m1)) as H2
    by (vm_compute; reflexivity).
  set (entries := snd (fst (dev_read dev
                    (u64 (Gpt.partition_entry_lba header * 512)) 1024 m1))).
  set (m3 := snd (dev_read dev
                    (u64 (Gpt.partition_entry_lba header * 512)) 1024 m1)).
  assert (dev_read dev (u64 (Gpt.partition_entry_lba header * 512)) 1024 m1
          = ((STATUS_SUCCESS, entries), m3)) as H3
    by (vm_compute; reflexivity).
  set (m4 := snd (dev_write dev (u64 (2 * 512)) 1024 entries m3)).
  assert (dev_write dev (u64 (2 * 512)) 1024 entries m3
          = (STATUS_SUCCESS, m4)) as H4 by (vm_compute; reflexivity).
  assert ((Gpt.my_lba header =? Gpt.PRIMARY_PART_HEADER_LBA) = false) as Hsrc
    by (vm_compute; reflexivity).
  assert (u32 (Gpt.num_partition_entries header
               * Gpt.partition_entry_size header) = 1024) as Hsz
    by (vm_compute; reflexivity).
  pose proof (restore_gpt_table_spec ram_platform dev header (boot gpt_disk)
                m0 m1 m1 entries m3 STATUS_SUCCESS m4) as H.
  cbv zeta in H. rewrite Hsrc, Hsz in H.
  specialize (H H0 H1 H2 H3 H4).
  destruct H as (Hmy & _ & Hent & _ & _ & m' & Hrun & Hlog).
  exists m0, m1, m1, entries, m3, m4, m'. cbv zeta.
  split; [exact H0|]. split; [exact H1|]. split; [exact H2|].
  split; [exact H3|]. split; [exact H4|]. split; [exact Hrun|].
  split; [vm_compute; reflexivity|].
  split; [vm_compute; reflexivity|].
  rewrite Hlog. change (io_log (boot gpt_disk)) with (@nil io_event).
  cbn [app].
  assert (u64 (Gpt.my_lba (Gpt.restored_header (block_size dev) header)
               * block_size dev) = 512) as -> by (vm_compute; reflexivity).
  assert (u64 (Gpt.partition_entry_lba header * block_size dev) = 4608) as ->
    by (vm_compute; reflexivity).
  reflexivity.
Defined.

(* ====================================================================== *)
(** ** discover_gpt_partitions: writes, argument checks, result status *)

Section GptDiscover.
Context {W : Type} (plat : platform_t W).

Lemma read_only_ret {A} (a : A) : read_only (@ret W A a).
Proof. intros m. reflexivity. Qed.

Lemma read_only_bind {A B} (c : M W A) (k : A → M W B) :
  read_only c → (∀ a, read_only (k a)) → read_only (bind c k).
Proof.
  intros Hc Hk m. unfold bind. specialize (Hc m).
  destruct (c m) as [a m1]. rewrite Hk. exact Hc.
Qed.

Lemma read_only_alloc size : read_only (alloc plat size).
Proof.
  intros m. unfold alloc, writes_of.
  destruct (alloc_pool plat size (world m)). reflexivity.
Qed.

Lemma read_only_free : read_only (free plat).
Proof. intros m. reflexivity. Qed.

Lemma read_only_dev_read (dev : block_device_t W) offset size :
  read_only (dev_read dev offset size).
Proof.
  intros m. unfold dev_read, writes_of.
  destruct (read_disk dev (media_id dev) offset size (world m)) as [[st d] w].
  cbn [snd io_log]. rewrite filter_app. cbn. apply app_nil_r.
Qed.

Lemma read_only_cleanup live : read_only (Gpt.cleanup plat live).
Proof.
  induction live as [|live IH]; cbn [Gpt.cleanup].
  - apply read_only_ret.
  - apply read_only_bind; [apply read_only_free|intros _; exact IH].
Qed.

Ltac read_only_step :=
  lazymatch goal with
  | |- read_only (bind _ _) => apply read_only_bind; [|intros ?]
  | |- read_only (ret _) => apply read_only_ret
  | |- read_only (alloc _ _) => apply read_only_alloc
  | |- read_only (alloc_zero _ _) => apply read_only_alloc
  | |- read_only (free _) => apply read_only_free
  | |- read_only (dev_read _ _ _) => apply read_only_dev_read
  | |- read_only (Gpt.cleanup _ _) => apply read_only_cleanup
  | |- read_only (if ?b then _ else _) => destruct b
  | |- read_only (match ?x with _ => _ end) => destruct x
  end.

Lemma read_only_validate_gpt_entry_array_crc dev header :
  read_only (Gpt.validate_gpt_entry_array_crc plat dev header).
Proof. unfold Gpt.validate_gpt_entry_array_crc. repeat read_only_step. Qed.

Lemma read_only_validate_gpt_table dev lba header_out :
  read_only (Gpt.validate_gpt_table plat dev lba header_out).
Proof.
  unfold Gpt.validate_gpt_table. cbn zeta.
  repeat first [apply read_only_validate_gpt_entry_array_crc | read_only_step].
Qed.

Lemma read_only_enumerate_partitions dev header parts num max_partitions :
  read_only (Gpt.enumerate_partitions plat dev header parts num max_partitions).
Proof. unfold Gpt.enumerate_partitions. cbn zeta. repeat read_only_step. Qed.

Lemma read_only_read_protective_mbr dev :
  read_only (Gpt.read_protective_mbr plat dev).
Proof. unfold Gpt.read_protective_mbr. cbn zeta. repeat read_only_step. Qed.

(** What follows the validation of the two copies adds no write. *)
Lemma discover_tail_read_only dev parts num max_partitions
      (pv bv : bool) (ph bh : list Z) :
  read_only
    (if negb pv && negb bv then
       bind (Gpt.cleanup plat 3)
            (fun _ => ret (STATUS_NOT_FOUND, parts, num))
     else Gpt.enumerate_partitions plat dev (if pv then ph else bh)
                                   parts num max_partitions).
Proof.
  destruct (negb pv && negb bv).
  - repeat read_only_step.
  - apply read_only_enumerate_partitions.
Qed.

Lemma discover_gpt_partitions_eq dev parts num max_partitions m :
  Gpt.discover_gpt_partitions plat dev parts num max_partitions m
  = let (early, mA) := Gpt.read_protective_mbr plat dev m in
    match early with
    | Some status => ((status, parts, num), mA)
    | None =>
      let '((pv, bv, ph, bh), mB) :=
        Gpt.validate_both_copies plat dev
          (zero_buffer Gpt.sizeof_gpt_header_t)
          (zero_buffer Gpt.sizeof_gpt_header_t) mA in
      (if negb pv && negb bv then
         bind (Gpt.cleanup plat 3)
              (fun _ => ret (STATUS_NOT_FOUND, parts, num))
       else Gpt.enumerate_partitions plat dev (if pv then ph else bh)
                                     parts num max_partitions) mB
    end.
Proof.
  unfold Gpt.discover_gpt_partitions. unfold bind at 1.
  destruct (Gpt.read_protective_mbr plat dev m) as [[status|] mA];
    [reflexivity|].
  unfold bind at 1.
  destruct (Gpt.validate_both_copies plat dev _ _ mA)
    as [[[[pv bv] ph] bh] mB].
  reflexivity.
Qed.

(** The two initial verdicts agree: [validate_both_copies] restores
    nothing and hands back the state the second validation left. *)
Lemma validate_both_copies_agree dev zp zb mA pv ph m1 bh m2 :
  Gpt.validate_gpt_table plat dev Gpt.PRIMARY_PART_HEADER_LBA zp mA
  = ((pv, ph), m1) →
  Gpt.validate_gpt_table plat dev
    (if pv then Gpt.alternate_lba ph else u64 (total_sectors dev - 1)) zb m1
  = ((pv, bh), m2) →
  Gpt.validate_both_copies plat dev zp zb mA = ((pv, pv, ph, bh), m2).
Proof.
  intros H1 H2. unfold Gpt.validate_both_copies. cbn zeta.
  unfold bind at 1. rewrite H1.
  destruct pv; cbn [negb]; unfold bind at 1; rewrite H2; reflexivity.
Qed.

(** C9.  When the primary header at block 1 and then the backup header
    at the primary's [alternate_lba] both validate, a call of
    [discover_gpt_partitions] adds no write to the I/O log.  More
    generally a call adds a write only when, of the primary validated at
    block 1 and the backup validated next (at the primary's
    [alternate_lba], or at the last block when the primary failed),
    exactly one is valid. *)
Theorem discover_gpt_partitions_writes dev parts num max_partitions m :
  let zero := zero_buffer Gpt.sizeof_gpt_header_t in
  let m' := snd (Gpt.discover_gpt_partitions plat dev parts num
                                             max_partitions m) in
  (∀ mA ph m1 bh m2,
     Gpt.read_protective_mbr plat dev m = (None, mA) →
     Gpt.validate_gpt_table plat dev Gpt.PRIMARY_PART_HEADER_LBA zero mA
     = ((true, ph), m1) →
     Gpt.validate_gpt_table plat dev (Gpt.alternate_lba ph) zero m1
     = ((true, bh), m2) →
     writes_of m' = writes_of m)
  ∧ (writes_of m' ≠ writes_of m →
     ∃ mA pv ph m1 bv bh m2,
       Gpt.read_protective_mbr plat dev m = (None, mA)
       ∧ Gpt.validate_gpt_table plat dev Gpt.PRIMARY_PART_HEADER_LBA zero mA
         = ((pv, ph), m1)
       ∧ Gpt.validate_gpt_table plat dev
           (if pv then Gpt.alternate_lba ph else u64 (total_sectors dev - 1))
           zero m1
         = ((bv, bh), m2)
       ∧ bv = negb pv).
Proof.
  intros zero m'.
  assert (∀ mA pv ph m1 bh m2,
            Gpt.read_protective_mbr plat dev m = (None, mA) →
            Gpt.validate_gpt_table plat dev Gpt.PRIMARY_PART_HEADER_LBA zero mA
            = ((pv, ph), m1) →
            Gpt.validate_gpt_table plat dev
              (if pv then Gpt.alternate_lba ph
               else u64 (total_sectors dev - 1)) zero m1
            = ((pv, bh), m2) →
            writes_of m' = writes_of m) as Hagree.
  { intros mA pv ph m1 bh m2 Hpro Hv1 Hv2. subst m' zero.
    rewrite discover_gpt_partitions_eq, Hpro. cbv beta iota.
    rewrite (validate_both_copies_agree _ _ _ _ _ _ _ _ _ Hv1 Hv2).
    rewrite (discover_tail_read_only dev parts num max_partitions pv pv ph bh).
    pose proof (read_only_validate_gpt_table dev
                  (if pv then Gpt.alternate_lba ph
                   else u64 (total_sectors dev - 1))
                  (zero_buffer Gpt.sizeof_gpt_header_t) m1) as R2.
    rewrite Hv2 in R2.
    pose proof (read_only_validate_gpt_table dev Gpt.PRIMARY_PART_HEADER_LBA
                  (zero_buffer Gpt.sizeof_gpt_header_t) mA) as R1.
    rewrite Hv1 in R1.
    pose proof (read_only_read_protective_mbr dev m) as R0.
    rewrite Hpro in R0. cbn [snd] in *. congruence. }
  split.
  - intros mA ph m1 bh m2 Hpro Hv1 Hv2. by eapply (Hagree mA true).
  - intros Hw.
    destruct (Gpt.read_protective_mbr plat dev m) as [early mA] eqn:Hpro.
    destruct early as [status|].
    { exfalso. apply Hw. subst m'.
      rewrite discover_gpt_partitions_eq, Hpro.
      pose proof (read_only_read_protective_mbr dev m) as R0.
      rewrite Hpro in R0. exact R0. }
    destruct (Gpt.validate_gpt_table plat dev Gpt.PRIMARY_PART_HEADER_LBA
                zero mA) as [[pv ph] m1] eqn:Hv1.
    destruct (Gpt.validate_gpt_table plat dev
                (if pv then Gpt.alternate_lba ph
                 else u64 (total_sectors dev - 1)) zero m1)
      as [[bv bh] m2] eqn:Hv2.
    exists mA, pv, ph, m1, bv, bh, m2.
    repeat split; try done.
    destruct (bool_decide (bv = pv)) eqn:Hb.
    + apply bool_decide_eq_true in Hb. subst bv.
      exfalso. apply Hw. by eapply Hagree.
    + apply bool_decide_eq_false in Hb. destruct bv, pv; done.
Qed.

(** Block sizes below the size of an MBR are rejected by both discovery
    routines before any allocation or transfer: the status is
    [STATUS_INVALID_PARAM] and the machine, I/O log included, is
    unchanged. *)
Lemma discover_gpt_partitions_small_block dev parts num max_partitions m :
  block_size dev < Layout.sizeof_master_boot_record_t →
  Gpt.discover_gpt_partitions plat dev parts num max_partitions m
  = ((STATUS_INVALID_PARAM, parts, num), m).
Proof.
  intros Hbs. unfold Gpt.discover_gpt_partitions, Gpt.read_protective_mbr, bind.
  cbn zeta.
  destruct (Z.ltb_spec (block_size dev) Layout.sizeof_master_boot_record_t);
    [reflexivity|lia].
Qed.

Lemma log_extends_ret {A} (a : A) : log_extends (@ret W A a).
Proof. intros m. exists []. cbn. by rewrite app_nil_r. Qed.

Lemma log_extends_bind {A B} (c : M W A) (k : A → M W B) :
  log_extends c → (∀ a, log_extends (k a)) → log_extends (bind c k).
Proof.
  intros Hc Hk m. unfold bind. destruct (Hc m) as [r1 H1].
  destruct (c m) as [a m1]. destruct (Hk a m1) as [r2 H2].
  exists (r1 ++ r2). cbn [snd] in *. by rewrite H2, H1, app_assoc.
Qed.

Lemma log_extends_alloc size : log_extends (alloc plat size).
Proof.
  intros m. exists []. unfold alloc.
  destruct (alloc_pool plat size (world m)). cbn. by rewrite app_nil_r.
Qed.

Lemma log_extends_free : log_extends (free plat).
Proof. intros m. exists []. cbn. by rewrite app_nil_r. Qed.

Lemma log_extends_dev_read_blocks (device : Partition.block_device_t W)
      lba count size :
  log_extends (Partition.dev_read_blocks device lba count size).
Proof.
  intros m. exists [IoReadBlocks lba count]. unfold Partition.dev_read_blocks.
  destruct (Partition.read_blocks device lba count (world m)) as [[st d] w].
  reflexivity.
Qed.

Ltac log_extends_step :=
  lazymatch goal with
  | |- log_extends (bind _ _) => apply log_extends_bind; [|intros ?]
  | |- log_extends (ret _) => apply log_extends_ret
  | |- log_extends (Partition.simple_malloc _ _) => apply log_extends_alloc
  | |- log_extends (Partition.simple_free _) => apply log_extends_free
  | |- log_extends (Partition.dev_read_blocks _ _ _ _) =>
    apply log_extends_dev_read_blocks
  | |- log_extends (if ?b then _ else _) => destruct b
  | |- log_extends (match ?x with _ => _ end) => destruct x
  end.

Lemma log_extends_detect_mbr_partitions (device : Partition.block_device_t W)
      parts num max_partitions :
  log_extends (Partition.detect_mbr_partitions device parts num
                                               max_partitions).
Proof.
  unfold Partition.detect_mbr_partitions. repeat log_extends_step.
Qed.

(** [detect_gpt_partitions] starts by reading block 1. *)
Lemma detect_gpt_partitions_first_read (device : Partition.block_device_t W)
      parts num max_partitions m :
  ∃ rest,
    io_log (snd (Partition.detect_gpt_partitions plat device parts num
                                                 max_partitions m))
    = io_log m ++ IoReadBlocks 1 1 :: rest.
Proof.
  unfold Partition.detect_gpt_partitions. unfold bind at 1.
  destruct (Partition.dev_read_blocks device 1 1 Partition.SECTOR_SIZE m)
    as [[status sector_buf] m1] eqn:Hread.
  assert (io_log m1 = io_log m ++ [IoReadBlocks 1 1]) as Hlog.
  { unfold Partition.dev_read_blocks in Hread.
    destruct (Partition.read_blocks device 1 1 (world m)) as [[st d] w].
    by injection Hread as _ _ <-. }
  match goal with
  | |- ∃ rest, io_log (snd (?k m1)) = _ =>
    assert (log_extends k) as Hk
  end.
  { cbn zeta. repeat log_extends_step. }
  destruct (Hk m1) as [rest Hrest]. exists rest.
  rewrite Hrest, Hlog, <- app_assoc. reflexivity.
Qed.

(** [discover_partitions] validates nothing about the device: whatever
    its geometry, the first thing it does is read block 1, and the only
    statuses it returns are success and not-found. *)
Lemma discover_partitions_unguarded (device : Partition.block_device_t W)
      parts num max_partitions m :
  let r := Partition.discover_partitions plat device parts num
                                         max_partitions m in
  (fst (fst (fst r)) = STATUS_SUCCESS ∨ fst (fst (fst r)) = STATUS_NOT_FOUND)
  ∧ ∃ rest, io_log (snd r) = io_log m ++ IoReadBlocks 1 1 :: rest.
Proof.
  cbn zeta.
  remember (Partition.discover_partitions plat device parts num
                                          max_partitions m) as r eqn:Hr.
  unfold Partition.discover_partitions, bind at 1 in Hr.
  destruct (detect_gpt_partitions_first_read device parts num max_partitions m)
    as [rest1 Hlog1].
  destruct (Partition.detect_gpt_partitions plat device parts num
                                            max_partitions m)
    as [[[st1 parts1] num1] m1].
  cbn [snd] in Hlog1.
  destruct (status_eqb st1 STATUS_SUCCESS).
  { subst r. cbn [ret fst snd]. split; [by left|]. exists rest1. exact Hlog1. }
  unfold bind at 1 in Hr.
  destruct (log_extends_detect_mbr_partitions device parts1 num1
              max_partitions m1) as [rest2 Hlog2].
  destruct (Partition.detect_mbr_partitions device parts1 num1
                                            max_partitions m1)
    as [[[st2 parts2] num2] m2].
  cbn [snd] in Hlog2.
  destruct (status_eqb st2 STATUS_SUCCESS); subst r; cbn [ret fst snd];
    (split; [tauto|]); exists (rest1 ++ rest2);
    rewrite Hlog2, Hlog1, <- app_assoc; reflexivity.
Qed.

(** C7 (amended).  For every device whose block size is smaller than the
    size of an MBR (512 bytes), [discover_gpt_partitions] and
    [discover_mbr_partitions] return [STATUS_INVALID_PARAM] and leave the
    machine as it was: no read is issued.  (A block count of zero is not
    examined by either; the front end [discover_partitions] examines
    nothing at all: it starts by reading block 1 and returns success or
    not-found only.) *)
Theorem discover_small_block_invalid_param fuel dev gpt_parts gpt_num
        mbr_parts mbr_num max_partitions m :
  block_size dev < Layout.sizeof_master_boot_record_t →
  Gpt.discover_gpt_partitions plat dev gpt_parts gpt_num max_partitions m
  = ((STATUS_INVALID_PARAM, gpt_parts, gpt_num), m)
  ∧ Mbr.discover_mbr_partitions plat fuel (Some dev) mbr_parts mbr_num
                                max_partitions m
    = Some (STATUS_INVALID_PARAM, mbr_parts, mbr_num, m)
  ∧ ∀ (device : Partition.block_device_t W) parts num,
      let r := Partition.discover_partitions plat device parts num
                                             max_partitions m in
      fst (fst (fst r)) ≠ STATUS_INVALID_PARAM
      ∧ ∃ rest, io_log (snd r) = io_log m ++ IoReadBlocks 1 1 :: rest.
Proof.
  intros Hbs. split; [by apply discover_gpt_partitions_small_block|].
  split; [by apply discover_mbr_partitions_small_block|].
  intros device parts num.
  destruct (discover_partitions_unguarded device parts num max_partitions m)
    as [Hst Hlog].
  cbn zeta. split; [|exact Hlog].
  destruct Hst as [-> | ->]; discriminate.
Qed.

(** With an allocator that hands out nothing (the placeholder bodies of
    [alloc_pool] in the sources return NULL), both discovery routines
    stop at their first allocation, before any transfer. *)
Lemma discover_without_memory fuel dev gpt_parts gpt_num mbr_parts mbr_num
      max_partitions m :
  (∀ size w, fst (alloc_pool plat size w) = false) →
  Layout.sizeof_master_boot_record_t <= block_size dev →
  max_partitions ≠ 0 →
  ∃ m',
    io_log m' = io_log m
    ∧ Gpt.discover_gpt_partitions plat dev gpt_parts gpt_num max_partitions m
      = ((STATUS_OUT_OF_MEMORY, gpt_parts, gpt_num), m')
    ∧ Mbr.discover_mbr_partitions plat fuel (Some dev) (Some mbr_parts)
                                  (Some mbr_num) max_partitions m
      = Some (STATUS_OUT_OF_MEMORY, Some mbr_parts, Some mbr_num, m').
Proof.
  intros Hnull Hbs Hmax.
  destruct (alloc plat (block_size dev) m) as [ok m'] eqn:Ha.
  assert (ok = false) as ->.
  { unfold alloc in Ha. specialize (Hnull (block_size dev) (world m)).
    destruct (alloc_pool plat (block_size dev) (world m)) as [b w].
    cbn in Hnull. congruence. }
  exists m'. split; [by eapply io_log_alloc|]. split.
  - unfold Gpt.discover_gpt_partitions, Gpt.read_protective_mbr, bind, ret.
    cbn zeta.
    destruct (Z.ltb_spec (block_size dev) Layout.sizeof_master_boot_record_t);
      [lia|].
    rewrite Ha. reflexivity.
  - unfold Mbr.discover_mbr_partitions.
    destruct (Z.eqb_spec max_partitions 0); [lia|].
    destruct (Z.ltb_spec (block_size dev) Layout.sizeof_master_boot_record_t);
      [lia|].
    rewrite Ha. reflexivity.
Qed.

End GptDiscover.

(** On [gpt_disk] both copies validate and nothing is written; on
    [gpt_disk_no_backup] the backup is rebuilt, and of the two first
    verdicts exactly one is true. *)
Lemma discover_gpt_partitions_writes_witness :
  (∃ mA ph m1 bh m2,
     Gpt.read_protective_mbr ram_platform (ram_disk 12) (boot gpt_disk)
     = (None, mA)
     ∧ Gpt.validate_gpt_table ram_platform (ram_disk 12)
         Gpt.PRIMARY_PART_HEADER_LBA (zero_buffer Gpt.sizeof_gpt_header_t) mA
       = ((true, ph), m1)
     ∧ Gpt.validate_gpt_table ram_platform (ram_disk 12) (Gpt.alternate_lba ph)
         (zero_buffer Gpt.sizeof_gpt_header_t) m1
       = ((true, bh), m2)
     ∧ writes_of (snd (Gpt.discover_gpt_partitions ram_platform (ram_disk 12)
                         (replicate 4 blank_gpt_info) 0 4 (boot gpt_disk)))
       = writes_of (boot gpt_disk))
  ∧ (writes_of (snd (Gpt.discover_gpt_partitions ram_platform (ram_disk 12)
                       (replicate 4 blank_gpt_info) 0 4
                       (boot gpt_disk_no_backup)))
     ≠ writes_of (boot gpt_disk_no_backup)
     ∧ ∃ mA pv ph m1 bv bh m2,
         Gpt.read_protective_mbr ram_platform (ram_disk 12)
                                 (boot gpt_disk_no_backup)
         = (None, mA)
         ∧ Gpt.validate_gpt_table ram_platform (ram_disk 12)
             Gpt.PRIMARY_PART_HEADER_LBA
             (zero_buffer Gpt.sizeof_gpt_header_t) mA
           = ((pv, ph), m1)
         ∧ Gpt.validate_gpt_table ram_platform (ram_disk 12)
             (if pv then Gpt.alternate_lba ph
              else u64 (total_sectors (ram_disk 12) - 1))
             (zero_buffer Gpt.sizeof_gpt_header_t) m1
           = ((bv, bh), m2)
         ∧ bv = negb pv).
Proof.
  split.
  - set (dev := ram_disk 12).
    set (zero := zero_buffer Gpt.sizeof_gpt_header_t).
    set (mA := snd (Gpt.read_protective_mbr ram_platform dev (boot gpt_disk))).
    assert (Gpt.read_protective_mbr ram_platform dev (boot gpt_disk)
            = (None, mA)) as H0 by (vm_compute; reflexivity).
    set (r1 := Gpt.validate_gpt_table ram_platform dev
                 Gpt.PRIMARY_PART_HEADER_LBA zero mA).
    set (ph := snd (fst r1)). set (m1 := snd r1).
    assert (r1 = ((true, ph), m1)) as H1 by (vm_compute; reflexivity).
    set (r2 := Gpt.validate_gpt_table ram_platform dev (Gpt.alternate_lba ph)
                 zero m1).
    set (bh := snd (fst r2)). set (m2 := snd r2).
    assert (r2 = ((true, bh), m2)) as H2 by (vm_compute; reflexivity).
    exists mA, ph, m1, bh, m2.
    split; [exact H0|]. split; [exact H1|]. split; [exact H2|].
    exact (proj1 (discover_gpt_partitions_writes ram_platform dev
                    (replicate 4 blank_gpt_info) 0 4 (boot gpt_disk))
                 mA ph m1 bh m2 H0 H1 H2).
  - assert (writes_of (snd (Gpt.discover_gpt_partitions ram_platform
                              (ram_disk 12) (replicate 4 blank_gpt_info) 0 4
                              (boot gpt_disk_no_backup)))
            ≠ writes_of (boot gpt_disk_no_backup)) as Hne
      by (vm_compute; discriminate).
    split; [exact Hne|].
    exact (proj2 (discover_gpt_partitions_writes ram_platform (ram_disk 12)
                    (replicate 4 blank_gpt_info) 0 4
                    (boot gpt_disk_no_backup)) Hne).
Defined.

(** C7, as stated, fails for a zero block count: no routine checks
    [total_sectors]; on a device of no blocks with 512-byte blocks
    [discover_gpt_partitions] and [discover_mbr_partitions] issue the
    read of block 0 and report the failure of that read, not
    [STATUS_INVALID_PARAM].  The front end [discover_partitions] checks
    the block size no more than the block count: on a device of 256-byte
    blocks, as on the device of no blocks, it reads block 1, then block
    0, and reports not-found. *)
Lemma zero_block_count_is_not_rejected :
  total_sectors (ram_disk 0) = 0
  ∧ Gpt.discover_gpt_partitions ram_platform (ram_disk 0) [] 0 4
                                (boot empty_disk)
    = ((STATUS_ERROR, [], 0),
       {| world := empty_disk; io_log := [IoRead 0 512] |})
  ∧ Mbr.discover_mbr_partitions ram_platform 0 (Some (ram_disk 0)) (Some [])
                                (Some 0) 4 (boot empty_disk)
    = Some (STATUS_ERROR, Some [], Some 0,
            {| world := empty_disk; io_log := [IoRead 0 512] |})
  ∧ Partition.discover_partitions ram_platform (ram_block_disk 0 512) [] 0 4
                                  (boot empty_disk)
    = ((STATUS_NOT_FOUND, [], 0),
       {| world := empty_disk;
          io_log := [IoReadBlocks 1 1; IoReadBlocks 0 1] |})
  ∧ Partition.discover_partitions ram_platform (ram_block_disk 16 256) [] 0 4
                                  (boot protective_disk)
    = ((STATUS_NOT_FOUND, [], 0),
       {| world := protective_disk;
          io_log := [IoReadBlocks 1 1; IoReadBlocks 0 1] |}).
Proof. vm_compute. repeat split; reflexivity. Qed.

Lemma discover_small_block_invalid_param_witness :
  block_size small_block_disk < Layout.sizeof_master_boot_record_t
  ∧ Gpt.discover_gpt_partitions ram_platform small_block_disk [] 0 4
                                (boot protective_disk)
    = ((STATUS_INVALID_PARAM, [], 0), boot protective_disk)
  ∧ Mbr.discover_mbr_partitions ram_platform 0 (Some small_block_disk)
                                (Some []) (Some 0) 4 (boot protective_disk)
    = Some (STATUS_INVALID_PARAM, Some [], Some 0, boot protective_disk).
Proof.
  assert (block_size small_block_disk < Layout.sizeof_master_boot_record_t)
    as Hbs by (vm_compute; reflexivity).
  split; [exact Hbs|].
  destruct (discover_small_block_invalid_param ram_platform 0 small_block_disk
              [] 0 (Some []) (Some 0) 4 (boot protective_disk) Hbs)
    as (Hgpt & Hmbr & _).
  split; [exact Hgpt|exact Hmbr].
Defined.

(** C3 fails on the GPT path: on [filtered_gpt_disk] both copies of the
    table validate, each of the four entries in use is dropped (two
    overlap, one is out of range, one is implementation-reserved), and
    [discover_gpt_partitions] answers [STATUS_SUCCESS] with a count of
    zero, the caller's array untouched and nothing written. *)
Theorem discover_gpt_partitions_empty_success :
  let dev := ram_disk 12 in
  let header := primary_header_of filtered_gpt_disk in
  fst (fst (Gpt.validate_gpt_table ram_platform dev 1 (zero_buffer 92)
                                   (boot filtered_gpt_disk))) = true
  ∧ fst (fst (Gpt.validate_gpt_table ram_platform dev 11 (zero_buffer 92)
                                     (boot filtered_gpt_disk))) = true
  ∧ map (entry_used header filtered_entries) (seq 0 8)
    = [true; true; true; true; false; false; false; false]
  ∧ map (fun s => (Gpt.out_of_range s, Gpt.overlap s, Gpt.os_specific s))
        (take 4 (checked_status header filtered_entries))
    = [(false, true, false); (false, true, false);
       (true, false, false); (false, false, true)]
  ∧ fst (Gpt.discover_gpt_partitions ram_platform dev
           (replicate 4 blank_gpt_info) 7 4 (boot filtered_gpt_disk))
    = (STATUS_SUCCESS, replicate 4 blank_gpt_info, 0)
  ∧ writes_of (snd (Gpt.discover_gpt_partitions ram_platform dev
                      (replicate 4 blank_gpt_info) 7 4
                      (boot filtered_gpt_disk))) = [].
Proof. vm_compute. repeat split; reflexivity. Qed.
(* ====================================================================== *)
(** ** Mbr.c: string copy, search helpers, sanity checks *)

Lemma strcpy_s_loop_length limit i src :
  0 <= i →
  Z.of_nat (String.length (Mbr.strcpy_s_loop limit i src)) <= Z.max 0 (limit - i).
Proof.
  revert i. induction src as [|c src IH]; intros i Hi; cbn [Mbr.strcpy_s_loop].
  - simpl. lia.
  - destruct (Z.ltb_spec i limit); cbn [andb]; [|simpl; lia].
    destruct (negb (Ascii.eqb c Ascii.zero)); [|simpl; lia].
    cbn [String.length]. specialize (IH (i + 1)). lia.
Qed.

Lemma strcpy_s_loop_prefix limit i src :
  ∃ rest, src = (Mbr.strcpy_s_loop limit i src ++ rest)%string.
Proof.
  revert i. induction src as [|c src IH]; intros i; cbn [Mbr.strcpy_s_loop].
  - by exists EmptyString.
  - destruct ((i <? limit) && negb (Ascii.eqb c Ascii.zero)).
    + destruct (IH (i + 1)) as [rest Hrest]. exists rest.
      rewrite Hrest at 1. reflexivity.
    + by exists (String c src).
Qed.

Lemma strcpy_s_loop_fits limit i src :
  no_terminator src = true →
  i + Z.of_nat (String.length src) <= limit →
  Mbr.strcpy_s_loop limit i src = src.
Proof.
  revert i. induction src as [|c src IH]; intros i Hs Hlen;
    cbn [Mbr.strcpy_s_loop]; [done|].
  cbn [no_terminator] in Hs. apply andb_prop in Hs as [Hc Hs].
  cbn [String.length] in Hlen.
  destruct (Z.ltb_spec i limit); [|lia]. rewrite Hc. cbn [andb].
  rewrite IH by (done || lia). done.
Qed.

(** With room for at least the terminator, [strcpy_s] stores at most
    [dest_size] bytes (the text and its terminator), the text is a
    prefix of the source, and a source that fits is copied whole. *)
Theorem strcpy_s_stays_in_bounds dest_size src :
  1 <= dest_size < 2 ^ 64 →
  Z.of_nat (String.length (Mbr.strcpy_s dest_size src)) + 1 <= dest_size
  ∧ (∃ rest, src = (Mbr.strcpy_s dest_size src ++ rest)%string)
  ∧ (no_terminator src = true →
     Z.of_nat (String.length src) + 1 <= dest_size →
     Mbr.strcpy_s dest_size src = src).
Proof.
  intros Hd. unfold Mbr.strcpy_s.
  assert (u64 (dest_size - 1) = dest_size - 1) as ->
    by (unfold u64; apply Z.mod_small; lia).
  split; [|split].
  - pose proof (strcpy_s_loop_length (dest_size - 1) 0 src). lia.
  - apply strcpy_s_loop_prefix.
  - intros Hs Hlen. apply strcpy_s_loop_fits; [done|lia].
Qed.

Lemma strcpy_s_stays_in_bounds_witness :
  1 <= 4 < 2 ^ 64
  ∧ Mbr.strcpy_s 4 "Linux" = "Lin"%string
  ∧ Z.of_nat (String.length (Mbr.strcpy_s 4 "Linux")) + 1 <= 4
  ∧ Mbr.strcpy_s 6 "Linux" = "Linux"%string.
Proof.
  assert (1 <= 4 < 2 ^ 64) as H4 by lia.
  assert (1 <= 6 < 2 ^ 64) as H6 by lia.
  split; [exact H4|]. split; [reflexivity|].
  split; [exact (proj1 (strcpy_s_stays_in_bounds 4 "Linux" H4))|].
  apply (proj2 (proj2 (strcpy_s_stays_in_bounds 6 "Linux" H6)));
    [reflexivity|simpl; lia].
Defined.

(** A destination size of 0 does not stop the copy: [dest_size - 1]
    wraps round in [size_t], and every source shorter than 2^64 - 1
    characters is copied whole. *)
Theorem strcpy_s_zero_size_copies_all src :
  no_terminator src = true →
  Z.of_nat (String.length src) < 2 ^ 64 →
  Mbr.strcpy_s 0 src = src.
Proof.
  intros Hs Hlen. unfold Mbr.strcpy_s. apply strcpy_s_loop_fits; [done|].
  change (u64 (0 - 1)) with (2 ^ 64 - 1). lia.
Qed.

Lemma strcpy_s_zero_size_copies_all_witness :
  Mbr.strcpy_s 0 "GPT Protective" = "GPT Protective"%string.
Proof.
  apply strcpy_s_zero_size_copies_all; [reflexivity|simpl; lia].
Defined.

(** Every name [get_partition_type_name] returns fits the 32-byte
    [type_name] member: the copy never truncates it. *)
Theorem type_name_is_never_truncated type :
  Mbr.strcpy_s Mbr.sizeof_type_name (Mbr.get_partition_type_name type)
  = Mbr.get_partition_type_name type.
Proof.
  unfold Mbr.get_partition_type_name.
  repeat match goal with
         | |- context [?a =? ?b] => destruct (a =? b); cbn [orb]
         end; reflexivity.
Qed.

(** *** The search helpers *)

Lemma mbr_first_match_spec test parts slots :
  match Mbr.first_match test parts slots with
  | Some i =>
    ∃ before after, slots = before ++ i :: after
      ∧ (∃ p, parts !! i = Some p ∧ test p = true)
      ∧ ∀ j q, j ∈ before → parts !! j = Some q → test q = false
  | None => ∀ j q, j ∈ slots → parts !! j = Some q → test q = false
  end.
Proof.
  induction slots as [|i rest IH]; cbn [Mbr.first_match].
  - intros j q Hin. by apply elem_of_nil in Hin.
  - destruct (parts !! i) as [p|] eqn:Hp.
    + destruct (test p) eqn:Ht.
      * exists [], rest. split; [done|]. split; [by exists p|].
        intros j q Hin. by apply elem_of_nil in Hin.
      * destruct (Mbr.first_match test parts rest) as [k|].
        -- destruct IH as (before & after & -> & Hk & Hb).
           exists (i :: before), after. split; [done|]. split; [done|].
           intros j q Hin Hq. apply elem_of_cons in Hin as [->|Hin];
             [congruence|by eapply Hb].
        -- intros j q Hin Hq. apply elem_of_cons in Hin as [->|Hin];
             [congruence|by eapply IH].
    + destruct (Mbr.first_match test parts rest) as [k|].
      * destruct IH as (before & after & -> & Hk & Hb).
        exists (i :: before), after. split; [done|]. split; [done|].
        intros j q Hin Hq. apply elem_of_cons in Hin as [->|Hin];
          [congruence|by eapply Hb].
      * intros j q Hin Hq. apply elem_of_cons in Hin as [->|Hin];
          [congruence|by eapply IH].
Qed.

Lemma seq_split_at (n i : nat) before after :
  seq 0 n = before ++ i :: after →
  (i < n)%nat ∧ before = seq 0 i.
Proof.
  intros H.
  assert (i ∈ seq 0 n) as Hin by (rewrite H; apply elem_of_app; right; left).
  apply elem_of_seq in Hin.
  assert (length before = i) as Hlen.
  { assert (seq 0 n !! length before = Some i) as Hl
      by (rewrite H; apply list_lookup_middle; done).
    apply lookup_seq in Hl. lia. }
  split; [lia|].
  assert (take i (seq 0 n) = before) as <-
    by (rewrite H, <- Hlen; apply take_app_length).
  rewrite take_seq. f_equal. lia.
Qed.

Lemma mbr_first_match_seq test parts num :
  match Mbr.first_match test parts (seq 0 (Z.to_nat num)) with
  | Some i => first_passing test parts num i
  | None => none_passing test parts num
  end.
Proof.
  pose proof (mbr_first_match_spec test parts (seq 0 (Z.to_nat num))) as H.
  destruct (Mbr.first_match _ _ _) as [i|].
  - destruct H as (before & after & Hs & Hp & Hb).
    apply seq_split_at in Hs as [Hi ->].
    split; [lia|]. split; [done|].
    intros j q Hj. apply Hb, elem_of_seq. lia.
  - intros j q Hj. apply H, elem_of_seq. lia.
Qed.

(** Each of the three search helpers returns the first of the first
    [num_partitions] descriptors that has the wanted number, boot flag or
    type, and NULL exactly when there is none. *)
Theorem find_helpers_return_first_match parts num_partitions number type :
  match Mbr.find_partition_by_number parts num_partitions number with
  | Some i =>
    first_passing (fun p => Mbr.partition_number p =? number) parts
                  num_partitions i
  | None =>
    none_passing (fun p => Mbr.partition_number p =? number) parts
                 num_partitions
  end
  ∧ match Mbr.find_bootable_partition parts num_partitions with
    | Some i => first_passing Mbr.bootable parts num_partitions i
    | None => none_passing Mbr.bootable parts num_partitions
    end
  ∧ match Mbr.find_partition_by_type parts num_partitions type with
    | Some i =>
      first_passing (fun p => Mbr.partition_type p =? type) parts
                    num_partitions i
    | None =>
      none_passing (fun p => Mbr.partition_type p =? type) parts
                   num_partitions
    end.
Proof.
  split; [|split]; apply mbr_first_match_seq.
Qed.

(** *** What the discovery stores *)

Lemma size_in_lba_range buf (i : nat) :
  0 <= Layout.size_in_lba (Layout.partition_at (Layout.as_mbr buf) i) < 2 ^ 32.
Proof.
  unfold Layout.partition_at, Layout.as_mbr. cbn [Layout.partition].
  destruct (decide (i < 4)%nat) as [Hi|Hi].
  - do 4 (destruct i as [|i]; [apply get_u32_range|]). lia.
  - rewrite nth_overflow by (rewrite length_map, length_seq; lia).
    simpl. lia.
Qed.

Section MbrDescriptors.
Context {W : Type} (plat : platform_t W).
Import Layout.
Variable dev : block_device_t W.
Variable P : Mbr.mbr_partition_info_t → Prop.

Hypothesis P_logical : ∀ buf current num,
  0 <= current < 2 ^ 33 →
  os_indicator (partition_at (as_mbr buf) 0) ≠ Mbr.PARTITION_TYPE_EMPTY →
  0 < size_in_lba (partition_at (as_mbr buf) 0) →
  P (Mbr.logical_partition_info (block_size dev) current
       (partition_at (as_mbr buf) 0) num).

Hypothesis P_primary : ∀ buf (i : nat),
  (i < 4)%nat →
  os_indicator (partition_at (as_mbr buf) i) ≠ Mbr.PARTITION_TYPE_EMPTY →
  size_in_lba (partition_at (as_mbr buf) i) ≠ 0 →
  Mbr.is_extended_partition (os_indicator (partition_at (as_mbr buf) i))
  = false →
  P (Mbr.primary_partition_info (block_size dev)
       (partition_at (as_mbr buf) i) (Z.of_nat i)).

Lemma ebr_loop_emits fuel base current num parts count max_partitions m
      st parts' count' m' :
  Mbr.ebr_loop plat fuel dev base current num parts count max_partitions m
  = Some (st, parts', count', m') →
  0 <= base < 2 ^ 32 → 0 <= current < 2 ^ 33 → 0 <= count →
  max_partitions <= Z.of_nat (length parts) →
  ∃ emitted,
    take (Z.to_nat count') parts' = take (Z.to_nat count) parts ++ emitted
    ∧ count' = count + Z.of_nat (length emitted)
    ∧ Forall P emitted.
Proof.
  revert current num parts count m.
  induction fuel as [|fuel IH]; intros current num parts count m;
    cbn [Mbr.ebr_loop];
    destruct (negb (current =? 0) && (count <? max_partitions)) eqn:Hcond;
    try discriminate;
    try (intros [= _ <- <- _] _ _ _ _; exists [];
         rewrite app_nil_r; simpl; split; [done|split; [lia|constructor]]).
  destruct (dev_read dev _ _ m) as [[status buf] m1].
  destruct (status_eqb status STATUS_SUCCESS); cbn [negb].
  2:{ intros [= _ <- <- _] _ _ _ _; exists [].
      rewrite app_nil_r; simpl; split; [done|split; [lia|constructor]]. }
  destruct (signature (as_mbr buf) =? MBR_SIGNATURE); cbn [negb].
  2:{ intros [= _ <- <- _] _ _ _ _; exists [].
      rewrite app_nil_r; simpl; split; [done|split; [lia|constructor]]. }
  apply andb_prop in Hcond as [_ Hlt]. apply Z.ltb_lt in Hlt.
  set (next := if negb (os_indicator (partition_at (as_mbr buf) 1)
                        =? Mbr.PARTITION_TYPE_EMPTY)
                  && Mbr.is_extended_partition
                       (os_indicator (partition_at (as_mbr buf) 1))
                  && (0 <? size_in_lba (partition_at (as_mbr buf) 1))
               then u64 (base + starting_lba (partition_at (as_mbr buf) 1))
               else 0).
  intros H Hbase Hcur Hcount Hlen.
  assert (0 <= next < 2 ^ 33) as Hnext.
  { subst next. destruct (_ && _ && _); [|lia].
    pose proof (starting_lba_range buf 1).
    unfold u64. rewrite Z.mod_small; lia. }
  destruct (negb (os_indicator (partition_at (as_mbr buf) 0)
                  =? Mbr.PARTITION_TYPE_EMPTY)
            && (0 <? size_in_lba (partition_at (as_mbr buf) 0))) eqn:Hlog.
  - apply IH in H; [|lia|done|lia|rewrite length_insert; lia].
    destruct H as (emitted & Htake & Hc & HP).
    set (p := Mbr.logical_partition_info _ _ _ _) in *.
    exists (p :: emitted). split; [|split].
    + rewrite Htake.
      replace (Z.to_nat (count + 1)) with (S (Z.to_nat count)) by lia.
      rewrite (take_S_r _ _ p) by (apply list_lookup_insert_eq; lia).
      rewrite take_insert_ge by lia. by rewrite <- app_assoc.
    + simpl length. lia.
    + constructor; [|done]. subst p.
      apply andb_prop in Hlog as [Hos Hsz].
      apply negb_true_iff, Z.eqb_neq in Hos. apply Z.ltb_lt in Hsz.
      by apply P_logical.
  - apply IH in H; done.
Qed.

Lemma primary_loop_emits fuel buf slots parts count max_partitions m
      parts' count' m' :
  Mbr.primary_loop plat fuel dev (as_mbr buf) slots parts count
                   max_partitions m
  = Some (parts', count', m') →
  Forall (fun i => (i < 4)%nat) slots →
  0 <= count → max_partitions <= Z.of_nat (length parts) →
  length parts' = length parts
  ∧ ∃ emitted,
      take (Z.to_nat count') parts' = take (Z.to_nat count) parts ++ emitted
      ∧ count' = count + Z.of_nat (length emitted)
      ∧ Forall P emitted.
Proof.
  revert parts count m.
  induction slots as [|i rest IH]; intros parts count m; cbn [Mbr.primary_loop].
  - intros [= <- <- _] _ _ _. split; [done|]. exists []. simpl.
    rewrite app_nil_r. split; [done|split; [lia|constructor]].
  - intros H Hslots Hc Hlen.
    apply Forall_cons in Hslots as [Hi Hrest].
    destruct (Z.ltb_spec count max_partitions) as [Hlt|Hge]; cbn [negb] in H.
    2:{ injection H as <- <- _. split; [done|]. exists []. simpl.
        rewrite app_nil_r. split; [done|split; [lia|constructor]]. }
    destruct ((os_indicator (partition_at (as_mbr buf) i)
               =? Mbr.PARTITION_TYPE_EMPTY)
              || (size_in_lba (partition_at (as_mbr buf) i) =? 0)) eqn:Hempty.
    + apply IH in H; done.
    + apply orb_false_elim in Hempty as [Hos Hsz].
      apply Z.eqb_neq in Hos, Hsz.
      destruct (Mbr.is_extended_partition
                  (os_indicator (partition_at (as_mbr buf) i))) eqn:Hext.
      * destruct (Mbr.process_extended_partition plat fuel dev _ _ parts count
                    max_partitions m) as [[[[st parts1] count1] m1]|] eqn:Hp;
          [|discriminate].
        assert (length parts1 = length parts
                ∧ ∃ emitted,
                    take (Z.to_nat count1) parts1
                    = take (Z.to_nat count) parts ++ emitted
                    ∧ count1 = count + Z.of_nat (length emitted)
                    ∧ Forall P emitted) as (Hl1 & em1 & Ht1 & Hc1 & HP1).
        { unfold Mbr.process_extended_partition in Hp.
          destruct (alloc plat (block_size dev) m) as [ok m0].
          destruct ok; cbn [negb] in Hp.
          - split; [by eapply ebr_loop_length|].
            pose proof (starting_lba_range buf i).
            eapply ebr_loop_emits; [exact Hp|lia|lia|lia|lia].
          - injection Hp as _ <- <- _. split; [done|]. exists [].
            rewrite app_nil_r. simpl. split; [done|split; [lia|constructor]]. }
        apply IH in H; [|assumption|lia|lia].
        destruct H as (Hl & em & Ht & Hcount & HP).
        split; [congruence|]. exists (em1 ++ em). split; [|split].
        -- rewrite Ht, Ht1. by rewrite <- app_assoc.
        -- rewrite length_app. lia.
        -- by apply Forall_app.
      * apply IH in H; [|assumption|lia|rewrite length_insert; lia].
        destruct H as (Hl & em & Ht & Hcount & HP).
        rewrite length_insert in Hl. split; [done|].
        set (p := Mbr.primary_partition_info _ _ _) in *.
        exists (p :: em). split; [|split].
        -- rewrite Ht.
           replace (Z.to_nat (count + 1)) with (S (Z.to_nat count)) by lia.
           rewrite (take_S_r _ _ p) by (apply list_lookup_insert_eq; lia).
           rewrite take_insert_ge by lia. by rewrite <- app_assoc.
        -- simpl length. lia.
        -- constructor; [|done]. subst p. by apply P_primary.
Qed.

Lemma discover_mbr_partitions_emits fuel parts num max_partitions m
      parts' count' m' :
  Mbr.discover_mbr_partitions plat fuel (Some dev) (Some parts) (Some num)
                              max_partitions m
  = Some (STATUS_SUCCESS, Some parts', Some count', m') →
  max_partitions <= Z.of_nat (length parts) →
  length parts' = length parts
  ∧ 1 <= count' <= Z.of_nat (length parts)
  ∧ Forall P (take (Z.to_nat count') parts').
Proof.
  unfold Mbr.discover_mbr_partitions.
  destruct (max_partitions =? 0); [discriminate|].
  destruct (block_size dev <? sizeof_master_boot_record_t); [discriminate|].
  destruct (alloc plat (block_size dev) m) as [ok m0].
  destruct ok; cbn [negb]; [|discriminate].
  destruct (dev_read dev 0 (block_size dev) m0) as [[status buf] m1] eqn:Hread.
  destruct (status_eqb status STATUS_SUCCESS) eqn:Hst; cbn [negb].
  2:{ intros [= -> _ _ _]. discriminate. }
  destruct (Mbr.validate_mbr (as_mbr buf)); cbn [negb]; [|discriminate].
  destruct (Mbr.is_protective_mbr (as_mbr buf)); [discriminate|].
  destruct (Mbr.primary_loop plat _ _ _ _ _ _ _ _)
    as [[[parts1 count] m2]|] eqn:Hloop; [|discriminate].
  destruct (Z.ltb_spec 0 count); [|discriminate].
  intros [= <- <- _] Hlen.
  apply primary_loop_emits in Hloop; [|repeat constructor; lia|lia|lia].
  destruct Hloop as (Hl & em & Ht & Hc & HP).
  split; [done|]. simpl in Ht. split.
  - split; [lia|].
    assert (length (take (Z.to_nat count) parts1) = length em) as Hlt
      by (by rewrite Ht).
    rewrite length_take in Hlt. lia.
  - by rewrite Ht.
Qed.

End MbrDescriptors.

Lemma well_formed_info_bounds p total_sectors :
  well_formed_info p →
  Mbr.validate_partition_bounds p total_sectors
  = (Mbr.end_lba p <? total_sectors).
Proof.
  intros (Hs & Hz & He & _). unfold Mbr.validate_partition_bounds.
  destruct (Z.leb_spec total_sectors (Mbr.start_lba p));
    [symmetry; apply Z.ltb_ge; lia|].
  destruct (Z.leb_spec total_sectors (Mbr.end_lba p));
    [symmetry; apply Z.ltb_ge; lia|].
  destruct (Z.ltb_spec (Mbr.end_lba p) (Mbr.start_lba p)); [lia|].
  symmetry. apply Z.ltb_lt. lia.
Qed.

Lemma logical_partition_info_well_formed bs buf current num :
  0 <= current < 2 ^ 33 →
  Layout.os_indicator (Layout.partition_at (Layout.as_mbr buf) 0)
  ≠ Mbr.PARTITION_TYPE_EMPTY →
  0 < Layout.size_in_lba (Layout.partition_at (Layout.as_mbr buf) 0) →
  well_formed_info
    (Mbr.logical_partition_info bs current
       (Layout.partition_at (Layout.as_mbr buf) 0) num).
Proof.
  intros Hc Hos Hsz.
  pose proof (starting_lba_range buf 0) as Hs.
  pose proof (size_in_lba_range buf 0) as Hz.
  unfold well_formed_info, Mbr.logical_partition_info.
  cbn [Mbr.start_lba Mbr.size_sectors Mbr.end_lba Mbr.partition_type
       Mbr.is_extended].
  unfold u64. rewrite !Z.mod_small by (try rewrite Z.mod_small; lia).
  repeat split; try done; lia.
Qed.

Lemma primary_partition_info_well_formed bs buf (i : nat) :
  Layout.os_indicator (Layout.partition_at (Layout.as_mbr buf) i)
  ≠ Mbr.PARTITION_TYPE_EMPTY →
  Layout.size_in_lba (Layout.partition_at (Layout.as_mbr buf) i) ≠ 0 →
  well_formed_info
    (Mbr.primary_partition_info bs
       (Layout.partition_at (Layout.as_mbr buf) i) (Z.of_nat i)).
Proof.
  intros Hos Hsz.
  pose proof (starting_lba_range buf i) as Hs.
  pose proof (size_in_lba_range buf i) as Hz.
  unfold well_formed_info, Mbr.primary_partition_info.
  cbn [Mbr.start_lba Mbr.size_sectors Mbr.end_lba Mbr.partition_type
       Mbr.is_extended].
  unfold u64. rewrite !Z.mod_small by lia.
  repeat split; try done; lia.
Qed.

(** Every descriptor a successful [discover_mbr_partitions] reports,
    primary or logical, covers at least one sector, ends at
    [start_lba + size_sectors - 1] without wrap-around, has a non-empty
    type and is not marked extended; so [validate_partition_bounds]
    accepts it exactly when its last sector lies on the device.  The
    count is between 1 and the size of the caller's array, whose length
    is unchanged. *)
Theorem discovered_partitions_are_well_formed {W} (plat : platform_t W)
        fuel dev parts num max_partitions m parts' count' m' :
  Mbr.discover_mbr_partitions plat fuel (Some dev) (Some parts) (Some num)
                              max_partitions m
  = Some (STATUS_SUCCESS, Some parts', Some count', m') →
  max_partitions <= Z.of_nat (length parts) →
  length parts' = length parts
  ∧ 1 <= count' <= Z.of_nat (length parts)
  ∧ Forall (fun p =>
              well_formed_info p
              ∧ ∀ total_sectors,
                  Mbr.validate_partition_bounds p total_sectors
                  = (Mbr.end_lba p <? total_sectors))
           (take (Z.to_nat count') parts').
Proof.
  intros Hrun Hlen.
  eapply (discover_mbr_partitions_emits plat dev
            (fun p => well_formed_info p
                      ∧ ∀ total_sectors,
                          Mbr.validate_partition_bounds p total_sectors
                          = (Mbr.end_lba p <? total_sectors)));
    [| |exact Hrun|exact Hlen].
  - intros buf current n Hc Hos Hsz.
    pose proof (logical_partition_info_well_formed (block_size dev) buf
                  current n Hc Hos Hsz) as Hwf.
    split; [exact Hwf|]. intros t. by apply well_formed_info_bounds.
  - intros buf i _ Hos Hsz _.
    pose proof (primary_partition_info_well_formed (block_size dev) buf i
                  Hos Hsz) as Hwf.
    split; [exact Hwf|]. intros t. by apply well_formed_info_bounds.
Qed.

Lemma discovered_partitions_are_well_formed_witness :
  ∃ parts' m',
    Mbr.discover_mbr_partitions ram_platform 3 (Some (ram_disk 20))
      (Some (replicate 8 blank_info)) (Some 0) 8 (boot chained_disk)
    = Some (STATUS_SUCCESS, Some parts', Some 5, m')
    ∧ 8 <= Z.of_nat (length (replicate 8 blank_info))
    ∧ map Mbr.end_lba (take 5 parts') = [3; 6; 9; 12; 19]
    ∧ Forall (fun p =>
                well_formed_info p
                ∧ ∀ total_sectors,
                    Mbr.validate_partition_bounds p total_sectors
                    = (Mbr.end_lba p <? total_sectors))
             (take (Z.to_nat 5) parts').
Proof.
  assert (8 <= Z.of_nat (length (replicate 8 blank_info))) as Hlen
    by (vm_compute; discriminate).
  match eval vm_compute in
        (Mbr.discover_mbr_partitions ram_platform 3 (Some (ram_disk 20))
           (Some (replicate 8 blank_info)) (Some 0) 8 (boot chained_disk))
  with
  | Some (_, Some ?p, _, ?m) =>
    assert (Mbr.discover_mbr_partitions ram_platform 3 (Some (ram_disk 20))
              (Some (replicate 8 blank_info)) (Some 0) 8 (boot chained_disk)
            = Some (STATUS_SUCCESS, Some p, Some 5, m)) as Hrun
      by (vm_compute; reflexivity);
    exists p, m
  end.
  split; [exact Hrun|]. split; [exact Hlen|].
  split; [vm_compute; reflexivity|].
  exact (proj2 (proj2 (discovered_partitions_are_well_formed
                         ram_platform _ _ _ _ _ _ _ _ _ Hrun Hlen))).
Defined.




(** *** Overlap of two descriptors *)

(** [check_partition_overlap] does not depend on the order of its
    arguments, and it answers true whenever the two descriptors have a
    sector in common; for two descriptors with [start_lba <= end_lba]
    it answers true only then. *)
Theorem check_partition_overlap_common_sector part1 part2 :
  Mbr.check_partition_overlap part1 part2
  = Mbr.check_partition_overlap part2 part1
  ∧ ((∃ sector,
        Mbr.start_lba part1 <= sector <= Mbr.end_lba part1
        ∧ Mbr.start_lba part2 <= sector <= Mbr.end_lba part2) →
     Mbr.check_partition_overlap part1 part2 = true)
  ∧ (Mbr.start_lba part1 <= Mbr.end_lba part1 →
     Mbr.start_lba part2 <= Mbr.end_lba part2 →
     Mbr.check_partition_overlap part1 part2 = true →
     ∃ sector,
       Mbr.start_lba part1 <= sector <= Mbr.end_lba part1
       ∧ Mbr.start_lba part2 <= sector <= Mbr.end_lba part2).
Proof.
  unfold Mbr.check_partition_overlap.
  destruct (Z.ltb_spec (Mbr.end_lba part1) (Mbr.start_lba part2));
    destruct (Z.ltb_spec (Mbr.end_lba part2) (Mbr.start_lba part1));
    (split; [done|split]);
    try (intros (sector & ? & ?); done || lia);
    try (intros _ _ ?; discriminate).
  intros H1 H2 _.
  exists (Z.max (Mbr.start_lba part1) (Mbr.start_lba part2)). lia.
Qed.

(** Two spans that share block 20, in either order; and a descriptor
    whose end lies before its start, for which the test answers true
    although it covers no sector. *)
Lemma check_partition_overlap_common_sector_witness :
  Mbr.start_lba (info_span 10 20) <= Mbr.end_lba (info_span 10 20)
  ∧ Mbr.start_lba (info_span 20 30) <= Mbr.end_lba (info_span 20 30)
  ∧ Mbr.check_partition_overlap (info_span 10 20) (info_span 20 30) = true
  ∧ Mbr.check_partition_overlap (info_span 20 30) (info_span 10 20) = true
  ∧ (∃ sector,
       Mbr.start_lba (info_span 10 20) <= sector <= Mbr.end_lba (info_span 10 20)
       ∧ Mbr.start_lba (info_span 20 30) <= sector
         <= Mbr.end_lba (info_span 20 30))
  ∧ Mbr.check_partition_overlap (info_span 20 10) (info_span 5 25)
    = Mbr.check_partition_overlap (info_span 5 25) (info_span 20 10)
  ∧ Mbr.check_partition_overlap (info_span 20 10) (info_span 5 25) = true.
Proof.
  assert (Mbr.start_lba (info_span 10 20) <= Mbr.end_lba (info_span 10 20))
    as H1 by (vm_compute; discriminate).
  assert (Mbr.start_lba (info_span 20 30) <= Mbr.end_lba (info_span 20 30))
    as H2 by (vm_compute; discriminate).
  destruct (check_partition_overlap_common_sector (info_span 10 20)
              (info_span 20 30)) as (Hsym & _ & Honly).
  split; [exact H1|]. split; [exact H2|].
  assert (Mbr.check_partition_overlap (info_span 10 20) (info_span 20 30)
          = true) as Hov by reflexivity.
  split; [exact Hov|]. split; [rewrite <- Hsym; exact Hov|].
  split; [exact (Honly H1 H2 Hov)|].
  split; [|reflexivity].
  exact (proj1 (check_partition_overlap_common_sector (info_span 20 10)
                  (info_span 5 25))).
Defined.

(** *** Writing an MBR *)

Section SimpleMbr.
Variables partition_start_lba partition_size_sectors partition_type : Z.
Variable bootable : bool.

Local Abbreviation image :=
  (Mbr.simple_mbr partition_start_lba partition_size_sectors partition_type
                  bootable).

Lemma simple_mbr_bytes :
  image
  = replicate 446 0
    ++ [u8 (if bootable then 0x80 else 0x00); 0; 0; 0; u8 partition_type;
        0; 0; 0;
        u8 (u32 partition_start_lba);
        u8 (Z.shiftr (u32 partition_start_lba) 8);
        u8 (Z.shiftr (u32 partition_start_lba) 16);
        u8 (Z.shiftr (u32 partition_start_lba) 24);
        u8 (u32 partition_size_sectors);
        u8 (Z.shiftr (u32 partition_size_sectors) 8);
        u8 (Z.shiftr (u32 partition_size_sectors) 16);
        u8 (Z.shiftr (u32 partition_size_sectors) 24)]
    ++ replicate 48 0 ++ [0x55; 0xAA].
Proof. reflexivity. Qed.

Lemma simple_mbr_length : length image = 512%nat.
Proof. reflexivity. Qed.

Lemma simple_mbr_signature :
  Layout.signature (Layout.as_mbr image) = Layout.MBR_SIGNATURE.
Proof. reflexivity. Qed.

Lemma simple_mbr_boot_indicator :
  Layout.boot_indicator (Layout.partition_at (Layout.as_mbr image) 0)
  = if bootable then 0x80 else 0x00.
Proof.
  change (Layout.boot_indicator (Layout.partition_at (Layout.as_mbr image) 0))
    with (u8 (u8 (if bootable then 0x80 else 0x00))).
  by destruct bootable.
Qed.

Lemma simple_mbr_os_indicator :
  Layout.os_indicator (Layout.partition_at (Layout.as_mbr image) 0)
  = u8 partition_type.
Proof.
  change (Layout.os_indicator (Layout.partition_at (Layout.as_mbr image) 0))
    with (u8 (u8 partition_type)).
  apply u8_idem.
Qed.

Lemma u32_idem z : u32 (u32 z) = u32 z.
Proof. unfold u32. apply Z.mod_mod. lia. Qed.

Lemma simple_mbr_starting_lba :
  Layout.starting_lba (Layout.partition_at (Layout.as_mbr image) 0)
  = u32 partition_start_lba.
Proof.
  change (Layout.starting_lba (Layout.partition_at (Layout.as_mbr image) 0))
    with (Z.lor (Z.lor (Z.lor (u8 (u8 (u32 partition_start_lba)))
                   (Z.shiftl (u8 (u8 (Z.shiftr (u32 partition_start_lba) 8))) 8))
                   (Z.shiftl (u8 (u8 (Z.shiftr (u32 partition_start_lba) 16))) 16))
                (Z.shiftl (u8 (u8 (Z.shiftr (u32 partition_start_lba) 24))) 24)).
  rewrite !u8_idem, join_bytes. apply u32_idem.
Qed.

Lemma simple_mbr_size_in_lba :
  Layout.size_in_lba (Layout.partition_at (Layout.as_mbr image) 0)
  = u32 partition_size_sectors.
Proof.
  change (Layout.size_in_lba (Layout.partition_at (Layout.as_mbr image) 0))
    with (Z.lor (Z.lor (Z.lor (u8 (u8 (u32 partition_size_sectors)))
                   (Z.shiftl (u8 (u8 (Z.shiftr (u32 partition_size_sectors) 8))) 8))
                   (Z.shiftl (u8 (u8 (Z.shiftr (u32 partition_size_sectors) 16))) 16))
                (Z.shiftl (u8 (u8 (Z.shiftr (u32 partition_size_sectors) 24))) 24)).
  rewrite !u8_idem, join_bytes. apply u32_idem.
Qed.

Lemma simple_mbr_other_slots (i : nat) :
  (1 <= i)%nat →
  Layout.partition_at (Layout.as_mbr image) i = Layout.empty_mbr_partition.
Proof.
  intros Hi. destruct i as [|[|[|[|i]]]]; [lia|reflexivity..|].
  unfold Layout.partition_at, Layout.as_mbr. cbn [Layout.partition].
  apply nth_overflow. rewrite length_map, length_seq. lia.
Qed.

(** The image passes [validate_mbr] unless it declares a partition of a
    non-empty type with a size of zero sectors. *)
Lemma validate_simple_mbr :
  Mbr.validate_mbr (Layout.as_mbr image)
  = (u8 partition_type =? 0) || negb (u32 partition_size_sectors =? 0).
Proof.
  unfold Mbr.validate_mbr. rewrite simple_mbr_signature, Z.eqb_refl.
  cbn [negb]. change (Z.to_nat Layout.MAX_MBR_PARTITIONS) with 4%nat.
  cbn [seq forallb].
  rewrite !(simple_mbr_other_slots 1), !(simple_mbr_other_slots 2),
    !(simple_mbr_other_slots 3) by lia.
  rewrite simple_mbr_os_indicator, simple_mbr_boot_indicator,
    simple_mbr_size_in_lba.
  cbn [Layout.os_indicator Layout.empty_mbr_partition].
  change (0 =? Mbr.PARTITION_TYPE_EMPTY) with true. cbn [andb].
  change Mbr.PARTITION_TYPE_EMPTY with 0.
  destruct (u8 partition_type =? 0); [reflexivity|]. cbn [orb].
  rewrite andb_true_r.
  destruct bootable; cbn [Z.eqb negb andb];
    by destruct (u32 partition_size_sectors =? 0).
Qed.

Lemma simple_mbr_not_protective :
  ¬ (bootable = false ∧ u8 partition_type = 0xEE
     ∧ u32 partition_start_lba = 1) →
  Mbr.is_protective_mbr (Layout.as_mbr image) = false.
Proof.
  intros Hprot. unfold Mbr.is_protective_mbr.
  change (Z.to_nat Layout.MAX_MBR_PARTITIONS) with 4%nat. cbn [seq existsb].
  rewrite !(simple_mbr_other_slots 1), !(simple_mbr_other_slots 2),
    !(simple_mbr_other_slots 3) by lia.
  rewrite simple_mbr_os_indicator, simple_mbr_boot_indicator,
    simple_mbr_starting_lba.
  cbn [Layout.os_indicator Layout.boot_indicator Layout.starting_lba
       Layout.empty_mbr_partition].
  change (0 =? Layout.PMBR_GPT_PARTITION) with false.
  rewrite !andb_false_r. cbn [orb]. rewrite orb_false_r.
  change Layout.PMBR_GPT_PARTITION with 0xEE.
  destruct bootable; [reflexivity|]. cbn [Z.eqb andb].
  destruct (Z.eqb_spec (u8 partition_type) 0xEE); [|reflexivity].
  destruct (Z.eqb_spec (u32 partition_start_lba) 1); [|reflexivity].
  exfalso. apply Hprot. done.
Qed.

End SimpleMbr.

Section CreateSimpleMbr.
Context {W : Type} (plat : platform_t W).

(** [create_simple_mbr], its allocation succeeding.  Asked for a
    partition of a non-empty type whose size is zero in its low 32
    bits, it builds an image that fails [validate_mbr]: the result is
    [STATUS_INVALID_PARAM] and the device is not called.  Otherwise, on
    a device whose blocks hold at most 512 bytes, it calls the device
    exactly once, to write the first [block_size] bytes of the image
    at byte offset 0, and returns the status of that write.  On a
    device with larger blocks the call hands the device [block_size]
    bytes out of the 512 it allocated: it has no defined result. *)
Theorem create_simple_mbr_writes_once dev partition_start_lba
        partition_size_sectors partition_type bootable m m0 :
  alloc_zero plat Layout.sizeof_master_boot_record_t m = (true, m0) →
  let image := Mbr.simple_mbr partition_start_lba partition_size_sectors
                              partition_type bootable in
  if (u8 partition_type =? 0) || negb (u32 partition_size_sectors =? 0) then
    if block_size dev <=? Layout.sizeof_master_boot_record_t then
      ∃ status m1,
        dev_write dev 0 (block_size dev) image m0 = (status, m1)
        ∧ Mbr.create_simple_mbr plat (Some dev) partition_start_lba
            partition_size_sectors partition_type bootable m
          = Some (status, snd (free plat m1))
        ∧ io_log (snd (free plat m1))
          = io_log m ++ [IoWrite 0 (block_size dev)
                                 (take (Z.to_nat (block_size dev)) image)]
    else
      Mbr.create_simple_mbr plat (Some dev) partition_start_lba
        partition_size_sectors partition_type bootable m
      = None
  else
    Mbr.create_simple_mbr plat (Some dev) partition_start_lba
      partition_size_sectors partition_type bootable m
    = Some (STATUS_INVALID_PARAM, snd (free plat m0))
    ∧ io_log (snd (free plat m0)) = io_log m.
Proof.
  intros Ha image.
  unfold Mbr.create_simple_mbr, Mbr.write_mbr.
  rewrite Ha. cbn [negb]. rewrite validate_simple_mbr. fold image.
  destruct ((u8 partition_type =? 0)
            || negb (u32 partition_size_sectors =? 0)); cbn [negb].
  - assert (Z.of_nat (length image) = Layout.sizeof_master_boot_record_t)
      as -> by reflexivity.
    destruct (Z.leb_spec (block_size dev) Layout.sizeof_master_boot_record_t)
      as [Hle|Hgt];
      destruct (Z.ltb_spec Layout.sizeof_master_boot_record_t (block_size dev));
      try lia; [|done].
    destruct (dev_write dev 0 (block_size dev) image m0) as [status m1] eqn:Hw.
    exists status, m1. split; [done|]. split; [done|].
    rewrite io_log_free, (io_log_dev_write _ _ _ _ _ _ _ Hw).
    rewrite (io_log_alloc _ _ _ _ _ Ha).
    rewrite resize_le; [done|].
    change (length image) with 512%nat.
    unfold Layout.sizeof_master_boot_record_t in Hle. lia.
  - split; [done|]. rewrite io_log_free. by eapply io_log_alloc.
Qed.

End CreateSimpleMbr.

(** On a RAM disk with 512-byte blocks, on one with 4096-byte blocks,
    and for a size of 2^32 sectors. *)
Lemma create_simple_mbr_writes_once_witness :
  alloc_zero ram_platform Layout.sizeof_master_boot_record_t (boot blank_disk)
  = (true, boot blank_disk)
  ∧ (∃ status m1,
       dev_write (ram_disk 4) 0 (block_size (ram_disk 4))
                 (Mbr.simple_mbr 2048 100 0x0B true) (boot blank_disk)
       = (status, m1)
       ∧ Mbr.create_simple_mbr ram_platform (Some (ram_disk 4)) 2048 100 0x0B
                               true (boot blank_disk)
         = Some (status, snd (free ram_platform m1))
       ∧ io_log (snd (free ram_platform m1))
         = io_log (boot blank_disk)
           ++ [IoWrite 0 (block_size (ram_disk 4))
                 (take (Z.to_nat (block_size (ram_disk 4)))
                       (Mbr.simple_mbr 2048 100 0x0B true))])
  ∧ Mbr.create_simple_mbr ram_platform (Some large_block_disk) 2048 100 0x0B
                          true (boot blank_disk)
    = None
  ∧ Mbr.create_simple_mbr ram_platform (Some (ram_disk 4)) 2048 (2 ^ 32) 0x0B
                          true (boot blank_disk)
    = Some (STATUS_INVALID_PARAM, snd (free ram_platform (boot blank_disk)))
  ∧ io_log (snd (free ram_platform (boot blank_disk)))
    = io_log (boot blank_disk).
Proof.
  assert (alloc_zero ram_platform Layout.sizeof_master_boot_record_t
                     (boot blank_disk) = (true, boot blank_disk)) as Ha
    by reflexivity.
  split; [exact Ha|]. split; [|split].
  - exact (create_simple_mbr_writes_once ram_platform (ram_disk 4) 2048 100
             0x0B true _ _ Ha).
  - exact (create_simple_mbr_writes_once ram_platform large_block_disk 2048
             100 0x0B true _ _ Ha).
  - exact (create_simple_mbr_writes_once ram_platform (ram_disk 4) 2048
             (2 ^ 32) 0x0B true _ _ Ha).
Defined.

(** *** Reading back what was written *)

Lemma byte_at_take buf (n : nat) i :
  i < Z.of_nat n → byte_at (take n buf) i = byte_at buf i.
Proof.
  intros Hi. unfold byte_at. destruct (Z.ltb_spec i 0); [done|].
  rewrite !nth_lookup, lookup_take_lt by lia. done.
Qed.

Lemma get_bytes_take buf (k : nat) off n :
  off + Z.of_nat n <= Z.of_nat k →
  get_bytes (take k buf) off n = get_bytes buf off n.
Proof.
  intros H. unfold get_bytes. apply map_ext_in. intros j Hj.
  apply in_seq in Hj. apply byte_at_take. lia.
Qed.

Lemma get_u32_take buf (k : nat) off :
  off + 4 <= Z.of_nat k → get_u32 (take k buf) off = get_u32 buf off.
Proof. intros. unfold get_u32. rewrite !byte_at_take by lia. done. Qed.

(** The MBR structure overlays the first 512 bytes of its buffer. *)
Lemma as_mbr_take buf : Layout.as_mbr (take 512 buf) = Layout.as_mbr buf.
Proof.
  unfold Layout.as_mbr, Layout.as_mbr_partition, get_u16, get_u8.
  cbn [map seq].
  rewrite !get_bytes_take, !get_u32_take, !byte_at_take by (simpl; lia).
  reflexivity.
Qed.

Section ReadBack.
Context {W : Type} (plat : platform_t W).

(** The slot loop, one slot at a time. *)
Lemma primary_loop_full fuel dev mbr slots parts count max_partitions m :
  max_partitions <= count →
  Mbr.primary_loop plat fuel dev mbr slots parts count max_partitions m
  = Some (parts, count, m).
Proof.
  intros Hfull. destruct slots as [|i rest]; cbn [Mbr.primary_loop]; [done|].
  destruct (Z.ltb_spec count max_partitions); [lia|]. done.
Qed.

Lemma primary_loop_skip fuel dev mbr i rest parts count max_partitions m :
  Layout.os_indicator (Layout.partition_at mbr i) = Mbr.PARTITION_TYPE_EMPTY
  ∨ Layout.size_in_lba (Layout.partition_at mbr i) = 0 →
  Mbr.primary_loop plat fuel dev mbr (i :: rest) parts count max_partitions m
  = Mbr.primary_loop plat fuel dev mbr rest parts count max_partitions m.
Proof.
  intros Hempty. cbn [Mbr.primary_loop].
  destruct (Z.ltb_spec count max_partitions); cbn [negb].
  - destruct Hempty as [-> | ->]; rewrite ?Z.eqb_refl, ?orb_true_r; done.
  - symmetry. by apply primary_loop_full.
Qed.

Lemma primary_loop_primary fuel dev mbr i rest parts count max_partitions m :
  count < max_partitions →
  Layout.os_indicator (Layout.partition_at mbr i) ≠ Mbr.PARTITION_TYPE_EMPTY →
  Layout.size_in_lba (Layout.partition_at mbr i) ≠ 0 →
  Mbr.is_extended_partition (Layout.os_indicator (Layout.partition_at mbr i))
  = false →
  Mbr.primary_loop plat fuel dev mbr (i :: rest) parts count max_partitions m
  = Mbr.primary_loop plat fuel dev mbr rest
      (<[Z.to_nat count :=
           Mbr.primary_partition_info (block_size dev)
             (Layout.partition_at mbr i) (Z.of_nat i)]> parts)
      (count + 1) max_partitions m.
Proof.
  intros Hroom Hos Hsz Hext. cbn [Mbr.primary_loop].
  destruct (Z.ltb_spec count max_partitions); [|lia]. cbn [negb].
  destruct (Z.eqb_spec (Layout.os_indicator (Layout.partition_at mbr i))
                       Mbr.PARTITION_TYPE_EMPTY); [done|].
  destruct (Z.eqb_spec (Layout.size_in_lba (Layout.partition_at mbr i)) 0);
    [done|].
  cbn [orb]. by rewrite Hext.
Qed.

(** The slot loop on a table whose only non-empty slot is the first,
    a partition that is not extended. *)
Lemma primary_loop_single_slot fuel dev mbr parts max_partitions m
      os size start (flag : bool) :
  0 < max_partitions →
  Layout.os_indicator (Layout.partition_at mbr 0) = os →
  Layout.size_in_lba (Layout.partition_at mbr 0) = size →
  Layout.starting_lba (Layout.partition_at mbr 0) = start →
  Layout.boot_indicator (Layout.partition_at mbr 0)
  = (if flag then 0x80 else 0x00) →
  (∀ i : nat, (1 <= i)%nat →
     Layout.partition_at mbr i = Layout.empty_mbr_partition) →
  os ≠ 0 → size ≠ 0 → Mbr.is_extended_partition os = false →
  0 <= start + size - 1 < 2 ^ 64 →
  Mbr.primary_loop plat fuel dev mbr [0; 1; 2; 3]%nat parts 0
                   max_partitions m
  = Some (<[0%nat :=
             {| Mbr.start_lba := start;
                Mbr.end_lba := start + size - 1;
                Mbr.size_sectors := size;
                Mbr.info_block_size := block_size dev;
                Mbr.partition_type := os;
                Mbr.bootable := flag;
                Mbr.is_extended := false;
                Mbr.partition_number := 1;
                Mbr.type_name := Mbr.get_partition_type_name os |}]> parts,
          1, m).
Proof.
  intros Hmax Hos Hsz Hst Hbi Hrest Hos0 Hsz0 Hext Hend.
  rewrite primary_loop_primary
    by (rewrite ?Hos, ?Hsz; done || lia).
  rewrite !primary_loop_skip
    by (left; rewrite Hrest by lia; reflexivity).
  unfold Mbr.primary_partition_info. rewrite Hos, Hsz, Hst, Hbi.
  assert (u64 (start + size - 1) = start + size - 1) as ->
    by (unfold u64; apply Z.mod_small; lia).
  assert (((if flag then 128 else 0) =? 128) = flag) as ->
    by (by destruct flag).
  reflexivity.
Qed.

(** Discovery on a disk whose block 0 holds the image of
    [create_simple_mbr] gives back the one partition the image was
    built for: start and size as truncated to 32 bits, number 1, the
    type and the boot flag.  (Not for an image that declares no
    partition, an extended one, or the protective entry of a GPT disk:
    those are the cases the discovery treats otherwise.) *)
Theorem discover_reads_back_simple_mbr fuel dev parts num max_partitions
        m m0 buf m1 partition_start_lba partition_size_sectors
        partition_type bootable :
  0 < max_partitions →
  Layout.sizeof_master_boot_record_t <= block_size dev →
  alloc plat (block_size dev) m = (true, m0) →
  dev_read dev 0 (block_size dev) m0 = ((STATUS_SUCCESS, buf), m1) →
  take 512 buf
  = Mbr.simple_mbr partition_start_lba partition_size_sectors partition_type
                   bootable →
  u8 partition_type ≠ 0 →
  Mbr.is_extended_partition (u8 partition_type) = false →
  u32 partition_size_sectors ≠ 0 →
  ¬ (bootable = false ∧ u8 partition_type = 0xEE
     ∧ u32 partition_start_lba = 1) →
  Mbr.discover_mbr_partitions plat fuel (Some dev) (Some parts) (Some num)
                              max_partitions m
  = Some (STATUS_SUCCESS,
          Some (<[0%nat :=
                   {| Mbr.start_lba := u32 partition_start_lba;
                      Mbr.end_lba := u32 partition_start_lba
                                     + u32 partition_size_sectors - 1;
                      Mbr.size_sectors := u32 partition_size_sectors;
                      Mbr.info_block_size := block_size dev;
                      Mbr.partition_type := u8 partition_type;
                      Mbr.bootable := bootable;
                      Mbr.is_extended := false;
                      Mbr.partition_number := 1;
                      Mbr.type_name :=
                        Mbr.get_partition_type_name (u8 partition_type) |}]>
                  parts),
          Some 1, snd (free plat m1)).
Proof.
  intros Hmax Hbs Ha Hr Himg Htype Hext Hsize Hprot.
  pose proof (u32_range partition_start_lba) as Hs32.
  pose proof (u32_range partition_size_sectors) as Hz32.
  pose proof (validate_simple_mbr partition_start_lba partition_size_sectors
                partition_type bootable) as Hval.
  pose proof (simple_mbr_not_protective partition_start_lba
                partition_size_sectors partition_type bootable Hprot) as Hnp.
  pose proof (simple_mbr_os_indicator partition_start_lba
                partition_size_sectors partition_type bootable) as Hos.
  pose proof (simple_mbr_size_in_lba partition_start_lba
                partition_size_sectors partition_type bootable) as Hsz.
  pose proof (simple_mbr_starting_lba partition_start_lba
                partition_size_sectors partition_type bootable) as Hst.
  pose proof (simple_mbr_boot_indicator partition_start_lba
                partition_size_sectors partition_type bootable) as Hbi.
  pose proof (simple_mbr_other_slots partition_start_lba
                partition_size_sectors partition_type bootable) as Hrest.
  rewrite <- Himg, as_mbr_take in Hval, Hnp, Hos, Hsz, Hst, Hbi, Hrest.
  destruct (Z.eqb_spec (u32 partition_size_sectors) 0); [lia|].
  rewrite orb_true_r in Hval.
  unfold Mbr.discover_mbr_partitions.
  destruct (Z.eqb_spec max_partitions 0); [lia|].
  destruct (Z.ltb_spec (block_size dev) Layout.sizeof_master_boot_record_t);
    [lia|].
  rewrite Ha. cbn [negb]. rewrite Hr. cbn [status_eqb negb].
  rewrite Hval, Hnp. cbn [negb].
  change (seq 0 (Z.to_nat Layout.MAX_MBR_PARTITIONS)) with [0; 1; 2; 3]%nat.
  rewrite (primary_loop_single_slot fuel dev (Layout.as_mbr buf) parts
             max_partitions m1 (u8 partition_type)
             (u32 partition_size_sectors) (u32 partition_start_lba) bootable)
    by (done || lia).
  reflexivity.
Qed.

End ReadBack.

(** On a RAM disk: [create_simple_mbr] for a bootable FAT32 partition
    of 100 sectors at sector 2048, then discovery on what it left. *)
Lemma discover_reads_back_simple_mbr_witness :
  ∃ m buf m1,
    Mbr.create_simple_mbr ram_platform (Some (ram_disk 4)) 2048 100 0x0B true
                          (boot blank_disk)
    = Some (STATUS_SUCCESS, m)
    ∧ dev_read (ram_disk 4) 0 (block_size (ram_disk 4)) m
      = ((STATUS_SUCCESS, buf), m1)
    ∧ take 512 buf = Mbr.simple_mbr 2048 100 0x0B true
    ∧ Mbr.discover_mbr_partitions ram_platform 0 (Some (ram_disk 4))
        (Some [blank_info]) (Some 0) 1 m
      = Some (STATUS_SUCCESS,
              Some [{| Mbr.start_lba := 2048; Mbr.end_lba := 2147;
                       Mbr.size_sectors := 100; Mbr.info_block_size := 512;
                       Mbr.partition_type := 0x0B; Mbr.bootable := true;
                       Mbr.is_extended := false; Mbr.partition_number := 1;
                       Mbr.type_name := "FAT32" |}],
              Some 1, snd (free ram_platform m1)).
Proof.
  match eval vm_compute in
        (Mbr.create_simple_mbr ram_platform (Some (ram_disk 4)) 2048 100 0x0B
                               true (boot blank_disk)) with
  | Some (_, ?m) =>
    assert (Mbr.create_simple_mbr ram_platform (Some (ram_disk 4)) 2048 100
              0x0B true (boot blank_disk) = Some (STATUS_SUCCESS, m)) as Hcreate
      by (vm_compute; reflexivity);
    match eval vm_compute in
          (dev_read (ram_disk 4) 0 (block_size (ram_disk 4)) m) with
    | ((_, ?buf), ?m1) =>
      assert (dev_read (ram_disk 4) 0 (block_size (ram_disk 4)) m
              = ((STATUS_SUCCESS, buf), m1)) as Hread
        by (vm_compute; reflexivity);
      assert (take 512 buf = Mbr.simple_mbr 2048 100 0x0B true) as Himg
        by (vm_compute; reflexivity);
      exists m, buf, m1;
      split; [exact Hcreate|]; split; [exact Hread|]; split; [exact Himg|];
      pose proof (discover_reads_back_simple_mbr ram_platform 0 (ram_disk 4)
                    [blank_info] 0 1 m m buf m1 2048 100 0x0B true) as H;
      apply H; clear H;
      [ lia | vm_compute; discriminate | reflexivity | exact Hread
      | exact Himg | vm_compute; discriminate | reflexivity
      | vm_compute; discriminate | intros (H & _); discriminate ]
    end
  end.
Defined.

(** *** What the discovery leaves alone *)

Section MbrFrame.
Context {W : Type} (plat : platform_t W).
Import Layout.

Lemma ebr_loop_frame fuel dev base current num parts count max_partitions m
      st parts' count' m' :
  Mbr.ebr_loop plat fuel dev base current num parts count max_partitions m
  = Some (st, parts', count', m') →
  0 <= count →
  count <= count'
  ∧ ∀ k : nat, count' <= Z.of_nat k → parts' !! k = parts !! k.
Proof.
  revert current num parts count m.
  induction fuel as [|fuel IH]; intros current num parts count m;
    cbn [Mbr.ebr_loop];
    destruct (negb (current =? 0) && (count <? max_partitions)) eqn:Hcond;
    try discriminate;
    try (intros [= _ <- <- _] _; split; [lia|done]).
  destruct (dev_read dev _ _ m) as [[status buf] m1].
  destruct (status_eqb status STATUS_SUCCESS); cbn [negb];
    [|intros [= _ <- <- _] _; split; [lia|done]].
  destruct (signature (as_mbr buf) =? MBR_SIGNATURE); cbn [negb];
    [|intros [= _ <- <- _] _; split; [lia|done]].
  destruct (negb (os_indicator (partition_at (as_mbr buf) 0)
                  =? Mbr.PARTITION_TYPE_EMPTY)
            && (0 <? size_in_lba (partition_at (as_mbr buf) 0)));
    intros H Hcount; apply IH in H; try lia.
  - destruct H as [Hle Hframe]. split; [lia|].
    intros k Hk. rewrite Hframe by lia.
    apply list_lookup_insert_ne. lia.
  - done.
Qed.

Lemma primary_loop_frame fuel dev mbr slots parts count max_partitions m
      parts' count' m' :
  Mbr.primary_loop plat fuel dev mbr slots parts count max_partitions m
  = Some (parts', count', m') →
  0 <= count →
  count <= count'
  ∧ ∀ k : nat, count' <= Z.of_nat k → parts' !! k = parts !! k.
Proof.
  revert parts count m.
  induction slots as [|i rest IH]; intros parts count m; cbn [Mbr.primary_loop].
  - intros [= <- <- _] _. split; [lia|done].
  - intros H Hc.
    destruct (count <? max_partitions); cbn [negb] in H.
    2:{ injection H as <- <- _. split; [lia|done]. }
    destruct ((os_indicator (partition_at mbr i) =? Mbr.PARTITION_TYPE_EMPTY)
              || (size_in_lba (partition_at mbr i) =? 0)).
    { by apply IH in H. }
    destruct (Mbr.is_extended_partition (os_indicator (partition_at mbr i))).
    + destruct (Mbr.process_extended_partition plat fuel dev _ _ parts count
                  max_partitions m) as [[[[st parts1] count1] m1]|] eqn:Hp;
        [|discriminate].
      assert (count <= count1
              ∧ ∀ k : nat, count1 <= Z.of_nat k → parts1 !! k = parts !! k)
        as [Hle1 Hf1].
      { unfold Mbr.process_extended_partition in Hp.
        destruct (alloc plat (block_size dev) m) as [ok m0].
        destruct ok; cbn [negb] in Hp.
        - by eapply ebr_loop_frame.
        - injection Hp as _ <- <- _. split; [lia|done]. }
      apply IH in H; [|lia]. destruct H as [Hle Hf].
      split; [lia|]. intros k Hk. rewrite Hf by lia. apply Hf1. lia.
    + apply IH in H; [|lia]. destruct H as [Hle Hf].
      split; [lia|]. intros k Hk. rewrite Hf by lia.
      apply list_lookup_insert_ne. lia.
Qed.

(** Whatever [discover_mbr_partitions] returns other than
    [STATUS_SUCCESS], the caller's array and [*num_partitions] are as
    they were; on success the array is written only below the returned
    count. *)
Theorem discover_mbr_partitions_outputs fuel dev partitions num_partitions
        max_partitions m status partitions' num_partitions' m' :
  Mbr.discover_mbr_partitions plat fuel dev partitions num_partitions
                              max_partitions m
  = Some (status, partitions', num_partitions', m') →
  if status_eqb status STATUS_SUCCESS then
    ∃ parts parts' count,
      partitions = Some parts ∧ partitions' = Some parts'
      ∧ num_partitions' = Some count
      ∧ ∀ k : nat, count <= Z.of_nat k → parts' !! k = parts !! k
  else partitions' = partitions ∧ num_partitions' = num_partitions.
Proof.
  unfold Mbr.discover_mbr_partitions.
  destruct dev as [dev|], partitions as [parts|], num_partitions as [num|];
    try (intros [= <- <- <- _]; done).
  destruct (max_partitions =? 0); [intros [= <- <- <- _]; done|].
  destruct (block_size dev <? sizeof_master_boot_record_t);
    [intros [= <- <- <- _]; done|].
  destruct (alloc plat (block_size dev) m) as [ok m0].
  destruct ok; cbn [negb]; [|intros [= <- <- <- _]; done].
  destruct (dev_read dev 0 (block_size dev) m0) as [[st buf] m1].
  destruct (status_eqb st STATUS_SUCCESS) eqn:Hst; cbn [negb].
  2:{ intros [= <- <- <- _]. rewrite Hst. done. }
  destruct (Mbr.validate_mbr (as_mbr buf)); cbn [negb];
    [|intros [= <- <- <- _]; done].
  destruct (Mbr.is_protective_mbr (as_mbr buf));
    [intros [= <- <- <- _]; done|].
  destruct (Mbr.primary_loop plat _ _ _ _ _ _ _ _)
    as [[[parts1 count] m2]|] eqn:Hloop; [|discriminate].
  apply primary_loop_frame in Hloop as [Hle Hframe]; [|lia].
  destruct (Z.ltb_spec 0 count); intros [= <- <- <- _]; cbn [status_eqb].
  - exists parts, parts1, count. done.
  - split; [|done]. f_equal. apply list_eq. intros k. apply Hframe. lia.
Qed.

End MbrFrame.

Lemma discover_mbr_partitions_outputs_witness :
  (∃ status parts' num' m',
     Mbr.discover_mbr_partitions ram_platform 0 (Some (ram_disk 4))
       (Some [blank_info]) (Some 7) 1 (boot protective_disk)
     = Some (status, parts', num', m')
     ∧ status = STATUS_NOT_FOUND
     ∧ parts' = Some [blank_info] ∧ num' = Some 7)
  ∧ ∃ parts' m',
      Mbr.discover_mbr_partitions ram_platform 3 (Some (ram_disk 20))
        (Some (replicate 8 blank_info)) (Some 0) 8 (boot chained_disk)
      = Some (STATUS_SUCCESS, Some parts', Some 5, m')
      ∧ ∀ k : nat, 5 <= Z.of_nat k →
          parts' !! k = replicate 8 blank_info !! k.
Proof.
  split.
  - match eval vm_compute in
          (Mbr.discover_mbr_partitions ram_platform 0 (Some (ram_disk 4))
             (Some [blank_info]) (Some 7) 1 (boot protective_disk)) with
    | Some (?st, ?p, ?n, ?m) =>
      assert (Mbr.discover_mbr_partitions ram_platform 0 (Some (ram_disk 4))
                (Some [blank_info]) (Some 7) 1 (boot protective_disk)
              = Some (st, p, n, m)) as Hrun by (vm_compute; reflexivity);
      exists st, p, n, m; split; [exact Hrun|]; split; [reflexivity|];
      exact (discover_mbr_partitions_outputs ram_platform _ _ _ _ _ _ _ _
               _ _ Hrun)
    end.
  - match eval vm_compute in
          (Mbr.discover_mbr_partitions ram_platform 3 (Some (ram_disk 20))
             (Some (replicate 8 blank_info)) (Some 0) 8 (boot chained_disk))
    with
    | Some (_, Some ?p, _, ?m) =>
      assert (Mbr.discover_mbr_partitions ram_platform 3 (Some (ram_disk 20))
                (Some (replicate 8 blank_info)) (Some 0) 8 (boot chained_disk)
              = Some (STATUS_SUCCESS, Some p, Some 5, m)) as Hrun
        by (vm_compute; reflexivity);
      exists p, m;
      destruct (discover_mbr_partitions_outputs ram_platform _ _ _ _ _ _ _ _
                  _ _ Hrun) as (a & b & c & Ha & Hb & Hc & Hf);
      injection Ha as <-; injection Hb as <-; injection Hc as <-;
      split; [exact Hrun|exact Hf]
    end.
Defined.

(* ====================================================================== *)
(** ** The GPT parser: byte comparison and GUIDs *)

Lemma get_bytes_S buf off n :
  get_bytes buf off (S n) = byte_at buf off :: get_bytes buf (off + 1) n.
Proof.
  unfold get_bytes. rewrite <- cons_seq. cbn [map]. rewrite Z.add_0_r.
  f_equal. rewrite <- fmap_S_seq.
  change (map ?f (S <$> ?l)) with (map f (map S l)).
  rewrite map_map. apply map_ext. intros k. f_equal. lia.
Qed.

Lemma get_bytes_snoc buf off n :
  get_bytes buf off (S n)
  = get_bytes buf off n ++ [byte_at buf (off + Z.of_nat n)].
Proof.
  unfold get_bytes. rewrite seq_S. cbn [Nat.add]. by rewrite map_app.
Qed.

(** [memcmp] returns 0 when the [n] bytes agree; otherwise the
    difference of the first two bytes that differ, which is not 0. *)
Lemma memcmp_first_difference s1 o1 s2 o2 n :
  (memcmp s1 o1 s2 o2 n = 0 ∧ get_bytes s1 o1 n = get_bytes s2 o2 n)
  ∨ ∃ k : nat,
      (k < n)%nat
      ∧ get_bytes s1 o1 k = get_bytes s2 o2 k
      ∧ byte_at s1 (o1 + Z.of_nat k) ≠ byte_at s2 (o2 + Z.of_nat k)
      ∧ memcmp s1 o1 s2 o2 n
        = byte_at s1 (o1 + Z.of_nat k) - byte_at s2 (o2 + Z.of_nat k).
Proof.
  unfold memcmp. revert o1 o2.
  induction n as [|n IH]; intros o1 o2; [by left|].
  rewrite !get_bytes_S. cbn [memcmp_loop].
  destruct (Z.eqb_spec (byte_at s1 o1) (byte_at s2 o2)) as [E|E]; cbn [negb].
  - destruct (IH (o1 + 1) (o2 + 1)) as [[Hz He]|(k & Hk & He & Hd & Hr)].
    + left. split; [done|]. by rewrite E, He.
    + right. exists (S k). split; [lia|]. rewrite !get_bytes_S.
      replace (o1 + Z.of_nat (S k)) with (o1 + 1 + Z.of_nat k) by lia.
      replace (o2 + Z.of_nat (S k)) with (o2 + 1 + Z.of_nat k) by lia.
      split; [by rewrite E, He|done].
  - right. exists 0%nat. split; [lia|]. rewrite !Z.add_0_r. done.
Qed.

Lemma memcmp_zero_iff s1 o1 s2 o2 n :
  memcmp s1 o1 s2 o2 n = 0 ↔ get_bytes s1 o1 n = get_bytes s2 o2 n.
Proof.
  destruct (memcmp_first_difference s1 o1 s2 o2 n)
    as [[Hz He]|(k & Hk & He & Hd & Hr)]; [done|].
  split.
  - intros Hz. rewrite Hz in Hr. lia.
  - intros Hall. exfalso. apply Hd.
    assert (get_bytes s1 o1 (S k) = get_bytes s2 o2 (S k)) as Hs.
    { replace n with (S k + (n - S k))%nat in Hall by lia.
      unfold get_bytes in *. rewrite !seq_app, !map_app in Hall.
      apply app_inj_1 in Hall as [H _]; [done|].
      by rewrite !length_map. }
    rewrite !get_bytes_snoc in Hs. apply app_inj_2 in Hs as [_ [= H]]; done.
Qed.

(** *** Little-endian words are determined by their bytes, and back *)

Lemma testbit_byte_high x n : 0 <= x < 2 ^ 8 → 8 <= n → Z.testbit x n = false.
Proof.
  intros Hx Hn. rewrite <- (Z.mod_small x (2 ^ 8)) by lia.
  apply Z.mod_pow2_bits_high. lia.
Qed.

Lemma compose16_byte x0 x1 :
  0 <= x0 < 2 ^ 8 → 0 <= x1 < 2 ^ 8 →
  u8 (Z.lor x0 (Z.shiftl x1 8)) = x0
  ∧ u8 (Z.shiftr (Z.lor x0 (Z.shiftl x1 8)) 8) = x1.
Proof.
  intros H0 H1. split; apply Z.bits_inj'; intros n Hn;
    rewrite u8_testbit; destruct (Z.leb_spec 0 n); try lia;
    destruct (Z.ltb_spec n 8); cbn [andb];
    rewrite ?Z.shiftr_spec, ?Z.lor_spec, ?Z.shiftl_spec by lia.
  - rewrite (Z.testbit_neg_r x1) by lia. apply orb_false_r.
  - symmetry. by apply testbit_byte_high.
  - rewrite (testbit_byte_high x0) by lia. cbn [orb]. f_equal. lia.
  - symmetry. by apply testbit_byte_high.
Qed.

Lemma compose32_byte x0 x1 x2 x3 :
  0 <= x0 < 2 ^ 8 → 0 <= x1 < 2 ^ 8 → 0 <= x2 < 2 ^ 8 → 0 <= x3 < 2 ^ 8 →
  let v := Z.lor (Z.lor (Z.lor x0 (Z.shiftl x1 8)) (Z.shiftl x2 16))
                 (Z.shiftl x3 24) in
  u8 v = x0 ∧ u8 (Z.shiftr v 8) = x1 ∧ u8 (Z.shiftr v 16) = x2
  ∧ u8 (Z.shiftr v 24) = x3.
Proof.
  intros H0 H1 H2 H3 v. subst v.
  repeat split; apply Z.bits_inj'; intros n Hn;
    rewrite u8_testbit; destruct (Z.leb_spec 0 n); try lia;
    destruct (Z.ltb_spec n 8); cbn [andb];
    rewrite ?Z.shiftr_spec, ?Z.lor_spec, ?Z.shiftl_spec by lia;
    try (symmetry; by apply testbit_byte_high).
  - rewrite (Z.testbit_neg_r x1), (Z.testbit_neg_r x2), (Z.testbit_neg_r x3)
      by lia. by rewrite !orb_false_r.
  - rewrite (testbit_byte_high x0), (Z.testbit_neg_r x2), (Z.testbit_neg_r x3)
      by lia. rewrite !orb_false_r. cbn [orb]. f_equal. lia.
  - rewrite (testbit_byte_high x0), (testbit_byte_high x1),
      (Z.testbit_neg_r x3) by lia. rewrite !orb_false_r. cbn [orb].
    f_equal. lia.
  - rewrite (testbit_byte_high x0), (testbit_byte_high x1),
      (testbit_byte_high x2) by lia. cbn [orb]. f_equal. lia.
Qed.

Lemma get_u16_eq_iff b1 o1 b2 o2 :
  get_u16 b1 o1 = get_u16 b2 o2 ↔ get_bytes b1 o1 2 = get_bytes b2 o2 2.
Proof.
  unfold get_u16, get_bytes. cbn [seq map]. rewrite !Z.add_0_r.
  change (Z.of_nat 1) with 1.
  split.
  - intros H.
    destruct (compose16_byte _ _ (byte_at_range b1 o1)
                (byte_at_range b1 (o1 + 1))) as [A0 A1].
    destruct (compose16_byte _ _ (byte_at_range b2 o2)
                (byte_at_range b2 (o2 + 1))) as [B0 B1].
    rewrite H in A0, A1. congruence.
  - intros [= -> ->]. done.
Qed.

Lemma get_u32_eq_iff b1 o1 b2 o2 :
  get_u32 b1 o1 = get_u32 b2 o2 ↔ get_bytes b1 o1 4 = get_bytes b2 o2 4.
Proof.
  unfold get_u32, get_bytes. cbn [seq map]. rewrite !Z.add_0_r.
  change (Z.of_nat 1) with 1. change (Z.of_nat 2) with 2.
  change (Z.of_nat 3) with 3.
  split.
  - intros H.
    destruct (compose32_byte _ _ _ _ (byte_at_range b1 o1)
                (byte_at_range b1 (o1 + 1)) (byte_at_range b1 (o1 + 2))
                (byte_at_range b1 (o1 + 3))) as (A0 & A1 & A2 & A3).
    destruct (compose32_byte _ _ _ _ (byte_at_range b2 o2)
                (byte_at_range b2 (o2 + 1)) (byte_at_range b2 (o2 + 2))
                (byte_at_range b2 (o2 + 3))) as (B0 & B1 & B2 & B3).
    cbn zeta in *. rewrite H in A0, A1, A2, A3. congruence.
  - intros [= -> -> -> ->]. done.
Qed.

Lemma bytes_eqb_eq a b : Gpt.bytes_eqb a b = true ↔ a = b.
Proof.
  revert b. induction a as [|x a IH]; intros [|y b]; cbn [Gpt.bytes_eqb];
    try (split; [done|discriminate]); [done|].
  rewrite andb_true_iff, Z.eqb_eq, IH. split; [intros [-> ->]|intros [= -> ->]];
    done.
Qed.

Lemma get_bytes_app buf off n k :
  get_bytes buf off (n + k)
  = get_bytes buf off n ++ get_bytes buf (off + Z.of_nat n) k.
Proof.
  revert off. induction n as [|n IH]; intros off.
  - simpl. f_equal. lia.
  - cbn [Nat.add]. rewrite !get_bytes_S, IH. cbn [app]. do 3 f_equal. lia.
Qed.

Lemma length_get_bytes buf off n : length (get_bytes buf off n) = n.
Proof. unfold get_bytes. by rewrite length_map, length_seq. Qed.

(** [compare_guid] on two packed GUIDs is the byte comparison
    [memcmp (g1, g2, sizeof (guid_t)) == 0]: the four members agree
    exactly when the sixteen bytes do. *)
Lemma compare_guid_is_memcmp b1 o1 b2 o2 :
  Gpt.compare_guid (Gpt.as_guid b1 o1) (Gpt.as_guid b2 o2)
  = (memcmp b1 o1 b2 o2 16 =? 0).
Proof.
  apply eq_true_iff_eq. rewrite Z.eqb_eq, memcmp_zero_iff.
  unfold Gpt.compare_guid, Gpt.as_guid.
  cbn [Gpt.data1 Gpt.data2 Gpt.data3 Gpt.data4].
  rewrite !andb_true_iff, !Z.eqb_eq, bytes_eqb_eq.
  rewrite get_u32_eq_iff, !get_u16_eq_iff.
  change 16%nat with (4 + (2 + (2 + 8)))%nat.
  rewrite !get_bytes_app.
  change (Z.of_nat 4) with 4. change (Z.of_nat 2) with 2.
  replace (o1 + 4 + 2) with (o1 + 6) by lia.
  replace (o2 + 4 + 2) with (o2 + 6) by lia.
  replace (o1 + 6 + 2) with (o1 + 8) by lia.
  replace (o2 + 6 + 2) with (o2 + 8) by lia.
  split.
  - intros [[[-> ->] ->] ->]. done.
  - intros H.
    apply app_inj_1 in H as [H1 H]; [|by rewrite !length_get_bytes].
    apply app_inj_1 in H as [H2 H]; [|by rewrite !length_get_bytes].
    apply app_inj_1 in H as [H3 H]; [|by rewrite !length_get_bytes].
    done.
Qed.

(** The two translation units agree on which entries are unused: the
    byte loop of [detect_gpt_partitions] (sixteen zero bytes) and
    [compare_guid] with [GUID_UNUSED]. *)
Theorem unused_entry_tests_agree entries off :
  forallb (fun b => b =? 0) (get_bytes entries off 16)
  = Gpt.compare_guid (Gpt.as_guid entries off) Gpt.GUID_UNUSED.
Proof.
  change Gpt.GUID_UNUSED with (Gpt.as_guid (replicate 16 0) 0).
  rewrite compare_guid_is_memcmp. apply eq_true_iff_eq.
  rewrite Z.eqb_eq, memcmp_zero_iff.
  change (get_bytes (replicate 16 0) 0 16) with (replicate 16 0).
  rewrite forallb_forall. split.
  - intros H. apply list_eq. intros k.
    destruct (decide (k < 16)%nat) as [Hk|Hk].
    + rewrite lookup_replicate_2 by done.
      destruct (lookup_lt_is_Some_2 (get_bytes entries off 16) k) as [x Hx];
        [by rewrite length_get_bytes|].
      rewrite Hx. f_equal. apply Z.eqb_eq, H.
      apply list_elem_of_In. by eapply list_elem_of_lookup_2.
    + rewrite !lookup_ge_None_2;
        rewrite ?length_get_bytes, ?length_replicate; done || lia.
  - intros -> x Hx. apply list_elem_of_In, elem_of_replicate in Hx as [-> _].
    done.
Qed.

(* ====================================================================== *)
(** ** [utf16_to_ascii] *)

(** The character [utf16_to_ascii] stores for one UTF-16 code unit. *)
Lemma utf16_to_ascii_bounds buf src n :
  (length (Gpt.utf16_to_ascii buf src n) <= n)%nat
  ∧ Forall (fun c => 1 <= c <= 127) (Gpt.utf16_to_ascii buf src n).
Proof.
  revert src. induction n as [|n IH]; intros src; cbn [Gpt.utf16_to_ascii].
  - split; [done|constructor].
  - pose proof (byte_at_range buf src). pose proof (byte_at_range buf (src + 1)).
    assert (0 <= get_u16 buf src).
    { unfold get_u16. apply Z.lor_nonneg. split; [lia|].
      apply Z.shiftl_nonneg. lia. }
    destruct (Z.eqb_spec (get_u16 buf src) 0); [split; [simpl; lia|constructor]|].
    destruct (IH (src + 2)) as [Hl Hf]. split; [simpl; lia|].
    constructor; [|done].
    destruct (Z.ltb_spec (get_u16 buf src) 128); lia.
Qed.

(** The name of every descriptor fits its 128-byte member together with
    the terminator, and consists of 7-bit characters other than NUL. *)
Theorem partition_names_are_ascii header entries i :
  (length (Gpt.name (Gpt.gpt_partition_info header entries i)) <= 127)%nat
  ∧ Forall (fun c => 1 <= c <= 127)
           (Gpt.name (Gpt.gpt_partition_info header entries i)).
Proof.
  unfold Gpt.gpt_partition_info. cbn [Gpt.name].
  change (Z.to_nat (Gpt.sizeof_name - 1)) with 127%nat.
  apply utf16_to_ascii_bounds.
Qed.

(** [utf16_to_ascii] converts the code units before the first zero unit,
    or the first [max_len - 1] units when none of them is zero: ASCII
    units are copied, every other unit becomes ['?']. *)
Theorem utf16_to_ascii_stops_at_terminator buf src (n k : nat) :
  (k <= n)%nat →
  (∀ j : nat, (j < k)%nat → get_u16 buf (src + 2 * Z.of_nat j) ≠ 0) →
  k = n ∨ get_u16 buf (src + 2 * Z.of_nat k) = 0 →
  Gpt.utf16_to_ascii buf src n = map (ascii_of_unit buf src) (seq 0 k).
Proof.
  revert src k. induction n as [|n IH]; intros src k Hk Hnz Hend.
  - assert (k = 0%nat) as -> by lia. done.
  - cbn [Gpt.utf16_to_ascii]. destruct k as [|k].
    + destruct Hend as [|Hz]; [lia|].
      rewrite Z.add_0_r in Hz. rewrite Hz. done.
    + pose proof (Hnz 0%nat ltac:(lia)) as H0. rewrite Z.add_0_r in H0.
      destruct (Z.eqb_spec (get_u16 buf src) 0); [done|].
      rewrite <- cons_seq. cbn [map]. f_equal.
      * unfold ascii_of_unit. by rewrite Z.add_0_r.
      * rewrite (IH (src + 2) k); [|lia| |].
        -- rewrite <- fmap_S_seq.
           change (map ?f (S <$> ?l)) with (map f (map S l)).
           rewrite map_map. apply map_ext. intros j.
           unfold ascii_of_unit.
           replace (src + 2 * Z.of_nat (S j)) with (src + 2 + 2 * Z.of_nat j)
             by lia.
           done.
        -- intros j Hj. specialize (Hnz (S j) ltac:(lia)).
           by replace (src + 2 + 2 * Z.of_nat j)
             with (src + 2 * Z.of_nat (S j)) by lia.
        -- destruct Hend as [Hend|Hend]; [left; lia|right].
           by replace (src + 2 + 2 * Z.of_nat k)
             with (src + 2 * Z.of_nat (S k)) by lia.
Qed.

Lemma utf16_to_ascii_stops_at_terminator_witness :
  (5 <= 127)%nat
  ∧ Gpt.utf16_to_ascii named_entry 56 127
    = map (ascii_of_unit named_entry 56) (seq 0 5)
  ∧ map (ascii_of_unit named_entry 56) (seq 0 5) = [98; 111; 111; 116; 63].
Proof.
  split; [lia|]. split; [|vm_compute; reflexivity].
  apply utf16_to_ascii_stops_at_terminator.
  - lia.
  - intros j Hj. do 5 (destruct j as [|j]; [vm_compute; discriminate|]). lia.
  - right. vm_compute. reflexivity.
Defined.

(* ====================================================================== *)
(** ** CRC-32 *)

(** The 256 table entries are the eight-step images of their indices. *)
Lemma crc32_table_entries :
  Gpt.crc32_table
  = map (fun i => Nat.iter 8 crc32_bit_step (Z.of_nat i)) (seq 0 256).
Proof. vm_compute. reflexivity. Qed.

Lemma crc32_table_lookup i :
  0 <= i < 256 →
  nth (Z.to_nat i) Gpt.crc32_table 0 = Nat.iter 8 crc32_bit_step i.
Proof.
  intros Hi. rewrite crc32_table_entries, nth_lookup.
  change (map ?f ?l) with (f <$> l).
  rewrite list_lookup_fmap, lookup_seq_lt
    by (change 256%nat with (Z.to_nat 256); apply Z2Nat.inj_lt; lia).
  change (0 + Z.to_nat i)%nat with (Z.to_nat i).
  cbn [fmap option_fmap option_map default]. rewrite Z2Nat.id by lia.
  reflexivity.
Qed.

Lemma crc32_bit_step_lxor a b :
  Z.testbit b 0 = false →
  crc32_bit_step (Z.lxor a b) = Z.lxor (crc32_bit_step a) (Z.shiftr b 1).
Proof.
  intros Hb. unfold crc32_bit_step.
  rewrite Z.lxor_spec, Hb, xorb_false_r, Z.shiftr_lxor.
  destruct (Z.testbit a 0); [|done].
  rewrite !Z.lxor_assoc. f_equal. apply Z.lxor_comm.
Qed.

Lemma crc32_iter_lxor (k : nat) a b :
  (∀ j, 0 <= j < Z.of_nat k → Z.testbit b j = false) →
  Nat.iter k crc32_bit_step (Z.lxor a b)
  = Z.lxor (Nat.iter k crc32_bit_step a) (Z.shiftr b (Z.of_nat k)).
Proof.
  induction k as [|k IH]; intros Hb.
  - simpl. by rewrite Z.shiftr_0_r.
  - rewrite !Nat.iter_succ, IH by (intros j Hj; apply Hb; lia).
    rewrite crc32_bit_step_lxor.
    + rewrite Z.shiftr_shiftr by lia. do 2 f_equal. lia.
    + rewrite Z.shiftr_spec by lia. apply Hb. lia.
Qed.

Lemma split_low_byte v :
  v = Z.lxor (Z.land v 0xFF) (Z.shiftl (Z.shiftr v 8) 8).
Proof.
  apply Z.bits_inj'. intros n Hn.
  rewrite Z.lxor_spec, Z.land_spec.
  change 0xFF with (Z.ones 8).
  destruct (Z.ltb_spec n 8).
  - rewrite Z.ones_spec_low by lia.
    rewrite Z.shiftl_spec_low by lia. by rewrite andb_true_r, xorb_false_r.
  - rewrite Z.ones_spec_high by lia.
    rewrite Z.shiftl_spec, Z.shiftr_spec by lia.
    rewrite andb_false_r. cbn [xorb]. f_equal. lia.
Qed.

(** One byte through the table is eight steps of the shift register. *)
Lemma crc32_step_is_byte_step crc byte :
  0 <= crc → 0 <= byte < 2 ^ 8 →
  Gpt.crc32_step crc byte = crc32_byte_step crc byte.
Proof.
  intros Hc Hb. unfold Gpt.crc32_step, crc32_byte_step.
  set (v := Z.lxor crc byte).
  assert (0 <= v) by (apply Z.lxor_nonneg; lia).
  assert (0 <= Z.land v 0xFF < 256) as Hlow.
  { change 0xFF with (Z.ones 8). rewrite Z.land_ones by lia.
    apply Z.mod_pos_bound. lia. }
  rewrite crc32_table_lookup by done.
  rewrite (split_low_byte v) at 2.
  rewrite (crc32_iter_lxor 8).
  - rewrite Z.shiftr_shiftl_l by lia. change (Z.of_nat 8 - 8) with 0.
    rewrite Z.shiftl_0_r. f_equal. subst v.
    rewrite Z.shiftr_lxor. rewrite (Z.shiftr_div_pow2 byte) by lia.
    rewrite (Z.div_small byte) by lia. symmetry. apply Z.lxor_0_r.
  - intros j Hj. rewrite Z.shiftl_spec_low; [done|lia].
Qed.

Lemma crc32_step_nonneg crc byte : 0 <= crc → 0 <= Gpt.crc32_step crc byte.
Proof.
  intros Hc. unfold Gpt.crc32_step. apply Z.lxor_nonneg.
  assert (0 <= Z.shiftr crc 8) by (apply Z.shiftr_nonneg; lia).
  set (k := Z.to_nat _).
  assert (0 <= nth k Gpt.crc32_table 0); [|tauto].
  rewrite nth_lookup. destruct (Gpt.crc32_table !! k) as [x|] eqn:E; [|done].
  pose proof (proj1 (Forall_lookup _ _) crc32_table_range k x E) as Hx.
  cbv beta in Hx. cbn [default]. unfold id. lia.
Qed.

Lemma crc32_fold_is_bit_serial bytes crc :
  0 <= crc → Forall (fun b => 0 <= b < 2 ^ 8) bytes →
  fold_left Gpt.crc32_step bytes crc = fold_left crc32_byte_step bytes crc.
Proof.
  revert crc. induction bytes as [|b bytes IH]; intros crc Hc Hb; [done|].
  apply Forall_cons in Hb as [Hb Hbs]. cbn [fold_left].
  rewrite <- crc32_step_is_byte_step by done.
  apply IH; [by apply crc32_step_nonneg|done].
Qed.

(** [calculate_crc32] is the CRC-32 of the first [length] bytes of its
    buffer: the table-driven loop computes what the bit-serial shift
    register with polynomial 0xEDB88320 does (preset to all ones, result
    complemented). *)
Theorem calculate_crc32_is_bit_serial data length :
  Gpt.calculate_crc32 data length
  = crc32_bit_serial (get_bytes data 0 (Z.to_nat length)).
Proof.
  unfold Gpt.calculate_crc32, crc32_bit_serial. f_equal.
  apply crc32_fold_is_bit_serial; [lia|].
  apply Forall_forall. intros b Hb. unfold get_bytes in Hb.
  apply list_elem_of_fmap in Hb as (k & -> & _). apply byte_at_range.
Qed.

(* ====================================================================== *)
(** ** Header checksum: seal and check *)

Lemma set_header_crc_idem size header :
  Gpt.set_header_crc size (Gpt.set_header_crc size header)
  = Gpt.set_header_crc size header.
Proof.
  unfold Gpt.set_header_crc at 1.
  rewrite set_header_crc32_set_header_crc. reflexivity.
Qed.

(** A header sealed by [set_header_crc] passes [check_header_crc] over
    the same size, and the check leaves it as it is. *)
Theorem set_header_crc_passes_check max_size size header :
  size ≠ 0 → max_size = 0 ∨ size <= max_size →
  (20 <= length header)%nat →
  Gpt.check_header_crc max_size size (Gpt.set_header_crc size header)
  = (true, Gpt.set_header_crc size header).
Proof.
  intros Hs Hm Hlen. rewrite check_header_crc_computed by done.
  rewrite set_header_crc_idem, set_header_crc32_set_header_crc.
  rewrite header_crc32_set_header_crc by done.
  by rewrite Z.eqb_refl.
Qed.

Lemma set_header_crc_passes_check_witness :
  (92 : Z) ≠ 0 ∧ ((512 : Z) = 0 ∨ 92 <= 512)
  ∧ (20 <= length stale_header)%nat
  ∧ Gpt.check_header_crc 512 92 stale_header
    = (false, Gpt.set_header_crc 92 stale_header)
  ∧ Gpt.check_header_crc 512 92 (Gpt.set_header_crc 92 stale_header)
    = (true, Gpt.set_header_crc 92 stale_header).
Proof.
  split; [lia|]. split; [right; lia|]. split; [vm_compute; lia|].
  split; [vm_compute; reflexivity|].
  apply set_header_crc_passes_check; [lia|right; lia|vm_compute; lia].
Defined.

(* ====================================================================== *)
(** ** The header [restore_gpt_table] writes *)

Section RestoredHeaderChecks.
Variables (block_size : Z) (header : list Z).

Local Abbreviation new_header := (Gpt.restored_header block_size header).

Lemma restored_header_get_u32 off :
  0 <= off → off + 4 <= 92 → off + 4 <= 16 ∨ 20 <= off →
  off + 4 <= 24 ∨ 40 <= off → off + 4 <= 72 ∨ 80 <= off →
  get_u32 new_header off = get_u32 header off.
Proof.
  intros. unfold get_u32. rewrite !restored_header_copy by lia. done.
Qed.

(** The header written by [restore_gpt_table] from a source header with
    a usable size field is what [validate_gpt_table] looks for at the
    block it is written to: the signature of the source, a checksum
    that [check_header_crc] accepts, [my_lba] equal to the source's
    [alternate_lba], and the entry size, entry count and array checksum
    of the source. *)
Theorem restored_header_passes_header_checks :
  Gpt.header_size header ≠ 0 →
  block_size = 0 ∨ Gpt.header_size header <= block_size →
  Gpt.check_header_crc block_size (Gpt.header_size new_header) new_header
  = (true, new_header)
  ∧ Gpt.signature new_header = Gpt.signature header
  ∧ Gpt.my_lba new_header = Gpt.alternate_lba header
  ∧ Gpt.partition_entry_size new_header = Gpt.partition_entry_size header
  ∧ Gpt.num_partition_entries new_header = Gpt.num_partition_entries header
  ∧ Gpt.partition_array_crc32 new_header = Gpt.partition_array_crc32 header.
Proof.
  intros Hs Hm.
  assert (Gpt.header_size new_header = Gpt.header_size header) as Hsize
    by (apply restored_header_get_u32; lia).
  split; [|split; [|split; [|split; [|split]]]].
  - rewrite check_header_crc_computed by (rewrite Hsize; done).
    rewrite <- restored_header_crc, Z.eqb_refl. f_equal.
    unfold Gpt.restored_header at 2.
    set (nh := Gpt.set_partition_entry_lba _ _).
    assert (Gpt.header_size new_header = Gpt.header_size nh) as ->.
    { unfold Gpt.restored_header. fold nh. unfold Gpt.header_size.
      apply get_u32_set_header_crc. lia. }
    unfold Gpt.restored_header. fold nh. apply set_header_crc_idem.
  - unfold Gpt.signature, get_u64.
    rewrite !restored_header_get_u32 by lia. done.
  - apply restored_header_my_lba.
  - apply restored_header_get_u32; lia.
  - apply restored_header_get_u32; lia.
  - apply restored_header_get_u32; lia.
Qed.

End RestoredHeaderChecks.

Lemma restored_header_passes_header_checks_witness :
  Gpt.header_size (primary_header_of gpt_disk) ≠ 0
  ∧ Gpt.header_size (primary_header_of gpt_disk) <= 512
  ∧ Gpt.check_header_crc 512
      (Gpt.header_size
         (Gpt.restored_header 512 (primary_header_of gpt_disk)))
      (Gpt.restored_header 512 (primary_header_of gpt_disk))
    = (true, Gpt.restored_header 512 (primary_header_of gpt_disk))
  ∧ Gpt.my_lba (Gpt.restored_header 512 (primary_header_of gpt_disk)) = 11.
Proof.
  assert (Gpt.header_size (primary_header_of gpt_disk) ≠ 0) as Hs
    by (vm_compute; discriminate).
  assert (Gpt.header_size (primary_header_of gpt_disk) <= 512) as Hm
    by (vm_compute; discriminate).
  split; [exact Hs|]. split; [exact Hm|].
  destruct (restored_header_passes_header_checks 512
              (primary_header_of gpt_disk) Hs (or_intror Hm))
    as (Hcheck & _ & Hlba & _).
  split; [exact Hcheck|]. rewrite Hlba. vm_compute. reflexivity.
Defined.

(* ====================================================================== *)
(** ** [check_gpt_entries]: the other two flags *)

Section OtherFlags.
Variables header entries : list Z.

Local Abbreviation E := (Gpt.entry_at header entries).
Local Abbreviation n := (Z.to_nat (Gpt.num_partition_entries header)).

(** A flag other than [overlap], as a projection that [set_overlap]
    leaves alone. *)
Variable flag : Gpt.partition_entry_status_t → bool.
Hypothesis flag_set_overlap : ∀ s, flag (Gpt.set_overlap s) = flag s.

Lemma flag_alter_set_overlap st i k :
  flag (Gpt.status_at (alter Gpt.set_overlap i st) k)
  = flag (Gpt.status_at st k).
Proof.
  destruct (decide (i = k)) as [->|Hne].
  - destruct (decide (k < length st)%nat).
    + rewrite status_at_alter_eq by done. apply flag_set_overlap.
    + unfold Gpt.status_at. rewrite !nth_lookup.
      rewrite !lookup_ge_None_2; rewrite ?length_alter; done || lia.
  - by rewrite status_at_alter_ne.
Qed.

Lemma flag_inner_loop i js st k :
  flag (Gpt.status_at
          (fold_left (Gpt.check_overlap_with header entries i) js st) k)
  = flag (Gpt.status_at st k).
Proof.
  revert st. induction js as [|j js IH]; intros st; simpl; [done|].
  rewrite IH. unfold Gpt.check_overlap_with.
  destruct (Gpt.compare_guid _ _); [done|].
  destruct (_ && _); [|done]. by rewrite !flag_alter_set_overlap.
Qed.

End OtherFlags.

Section OtherFlagsValues.
Variables header entries : list Z.

Local Abbreviation E := (Gpt.entry_at header entries).
Local Abbreviation n := (Z.to_nat (Gpt.num_partition_entries header)).

Lemma out_of_range_check_entry st i k :
  (i < length st)%nat →
  Gpt.out_of_range (Gpt.status_at (Gpt.check_entry header entries st i) k)
  = Gpt.out_of_range (Gpt.status_at st k)
    || (bool_decide (k = i) && entry_used header entries i
        && negb (entry_in_range header entries i)).
Proof.
  intros Hi. unfold Gpt.check_entry, entry_used, entry_in_range.
  destruct (Gpt.compare_guid (Gpt.partition_type_guid (E i)) Gpt.GUID_UNUSED);
    cbn [negb]; [by rewrite andb_false_r, orb_false_r|].
  destruct (Gpt.entry_out_of_range header (E i)); cbn [negb].
  - rewrite !andb_true_r. case_bool_decide as Hk.
    + subst k. rewrite status_at_alter_eq by done. simpl.
      by rewrite orb_true_r.
    + rewrite status_at_alter_ne by done. by rewrite orb_false_r.
  - rewrite andb_false_r, orb_false_r.
    rewrite (flag_inner_loop header entries Gpt.out_of_range) by done.
    destruct (Z.testbit _ 1); [|done].
    destruct (decide (i = k)) as [->|Hne].
    + by rewrite status_at_alter_eq.
    + by rewrite status_at_alter_ne.
Qed.

Lemma os_specific_check_entry st i k :
  (i < length st)%nat →
  Gpt.os_specific (Gpt.status_at (Gpt.check_entry header entries st i) k)
  = Gpt.os_specific (Gpt.status_at st k)
    || (bool_decide (k = i) && entry_used header entries i
        && entry_in_range header entries i
        && Z.testbit (Gpt.attributes (E i)) 1).
Proof.
  intros Hi. unfold Gpt.check_entry, entry_used, entry_in_range.
  destruct (Gpt.compare_guid (Gpt.partition_type_guid (E i)) Gpt.GUID_UNUSED);
    cbn [negb]; [by rewrite andb_false_r, orb_false_r|].
  destruct (Gpt.entry_out_of_range header (E i)); cbn [negb].
  - rewrite !andb_true_r, andb_false_r, orb_false_r.
    destruct (decide (i = k)) as [->|Hne].
    + by rewrite status_at_alter_eq.
    + by rewrite status_at_alter_ne.
  - rewrite !andb_true_r.
    rewrite (flag_inner_loop header entries Gpt.os_specific) by done.
    destruct (Z.testbit (Gpt.attributes (E i)) 1).
    + rewrite andb_true_r. case_bool_decide as Hk.
      * subst k. rewrite status_at_alter_eq by done. simpl.
        by rewrite orb_true_r.
      * rewrite status_at_alter_ne by done. by rewrite orb_false_r.
    + by rewrite andb_false_r, orb_false_r.
Qed.

Lemma flags_outer_loop idxs st k :
  Forall (fun i => (i < length st)%nat) idxs → NoDup idxs →
  let st' := fold_left (Gpt.check_entry header entries) idxs st in
  Gpt.out_of_range (Gpt.status_at st' k)
  = Gpt.out_of_range (Gpt.status_at st k)
    || (bool_decide (k ∈ idxs) && entry_used header entries k
        && negb (entry_in_range header entries k))
  ∧ Gpt.os_specific (Gpt.status_at st' k)
    = Gpt.os_specific (Gpt.status_at st k)
      || (bool_decide (k ∈ idxs) && entry_used header entries k
          && entry_in_range header entries k
          && Z.testbit (Gpt.attributes (E k)) 1).
Proof.
  revert st. induction idxs as [|i idxs IH]; intros st Hlen Hnd; cbn zeta.
  - simpl. rewrite !orb_false_r. done.
  - apply Forall_cons in Hlen as [Hi Hlen]. apply NoDup_cons in Hnd as [Hni Hnd].
    cbn [fold_left].
    destruct (IH (Gpt.check_entry header entries st i)) as [Ho Hs];
      [by rewrite length_check_entry|done|].
    cbn zeta in Ho, Hs. rewrite Ho, Hs.
    rewrite out_of_range_check_entry, os_specific_check_entry by done.
    destruct (decide (k = i)) as [->|Hk].
    + rewrite (bool_decide_eq_true_2 (i = i)) by done.
      rewrite (bool_decide_eq_true_2 (i ∈ i :: idxs)) by left.
      rewrite (bool_decide_eq_false_2 (i ∈ idxs)) by done.
      cbn [andb]. by rewrite !orb_false_r.
    + rewrite (bool_decide_eq_false_2 (k = i)) by done.
      cbn [andb]. rewrite !orb_false_r.
      assert (bool_decide (k ∈ i :: idxs) = bool_decide (k ∈ idxs)) as ->
        by (apply bool_decide_ext; rewrite elem_of_cons;
            split; [intros [?|?]; done|by right]).
      done.
Qed.

End OtherFlagsValues.

Lemma status_at_zeroed n k :
  Gpt.status_at (replicate n Gpt.zero_status) k = Gpt.zero_status.
Proof.
  unfold Gpt.status_at. rewrite nth_lookup.
  destruct (replicate n Gpt.zero_status !! k) as [x|] eqn:Hx; [|done].
  by apply lookup_replicate in Hx as [-> _].
Qed.

(** The range flag alone, as the enumeration uses it. *)
Lemma flagged_out_of_range_spec header entries k :
  flagged_out_of_range header entries k
  = bool_decide (k < Z.to_nat (Gpt.num_partition_entries header))%nat
    && entry_used header entries k
    && negb (entry_in_range header entries k).
Proof.
  unfold flagged_out_of_range, checked_status, Gpt.check_gpt_entries.
  set (n := Z.to_nat (Gpt.num_partition_entries header)).
  destruct (flags_outer_loop header entries (seq 0 n)
              (replicate n Gpt.zero_status) k) as [Ho _].
  - apply Forall_forall. intros i Hi. apply elem_of_seq in Hi.
    rewrite length_replicate. lia.
  - apply NoDup_seq.
  - cbn zeta in Ho. rewrite Ho, status_at_zeroed.
    cbn [Gpt.out_of_range Gpt.zero_status orb].
    do 2 f_equal. apply bool_decide_ext. rewrite elem_of_seq. lia.
Qed.

(** After [check_gpt_entries] on a zeroed status array, entry [k] is
    flagged out of range exactly when it is in use and lies, in part or
    whole, outside the usable range or ends before it starts; it is
    flagged OS-specific exactly when it is in use, in range, and has
    attribute bit 1 set.  (An entry that is out of range is never
    flagged OS-specific, whatever its attributes.) *)
Theorem entry_flags_characterised header entries k :
  flagged_out_of_range header entries k
  = bool_decide (k < Z.to_nat (Gpt.num_partition_entries header))%nat
    && entry_used header entries k
    && negb (entry_in_range header entries k)
  ∧ flagged_os_specific header entries k
    = bool_decide (k < Z.to_nat (Gpt.num_partition_entries header))%nat
      && entry_used header entries k
      && entry_in_range header entries k
      && Z.testbit (Gpt.attributes (Gpt.entry_at header entries k)) 1.
Proof.
  unfold flagged_out_of_range, flagged_os_specific, checked_status,
    Gpt.check_gpt_entries.
  set (n := Z.to_nat (Gpt.num_partition_entries header)).
  destruct (flags_outer_loop header entries (seq 0 n)
              (replicate n Gpt.zero_status) k) as [Ho Hs].
  - apply Forall_forall. intros i Hi. apply elem_of_seq in Hi.
    rewrite length_replicate. lia.
  - apply NoDup_seq.
  - cbn zeta in Ho, Hs. rewrite Ho, Hs, status_at_zeroed.
    cbn [Gpt.out_of_range Gpt.os_specific Gpt.zero_status orb].
    split; do 3 f_equal; apply bool_decide_ext; rewrite elem_of_seq; lia.
Qed.

(* ====================================================================== *)
(** ** The enumeration loop of [discover_gpt_partitions] *)


Section GptEnumeration.
Context {W : Type} (plat : platform_t W).

Lemma cleanup_outcome live (m : machine W) (A : Type) (a : A) :
  ∃ m', bind (Gpt.cleanup plat live) (fun _ => ret a) m = (a, m').
Proof.
  unfold bind. destruct (Gpt.cleanup plat live m) as [u m']. by exists m'.
Qed.

(** The outcome of the enumeration through [header]: a failure that
    leaves the caller's array and count alone, or the result of the
    collecting loop over the entries read from the device. *)
Lemma enumerate_partitions_result dev header parts num max_partitions m
      status parts' num' m' :
  Gpt.enumerate_partitions plat dev header parts num max_partitions m
  = ((status, parts', num'), m') →
  (status ≠ STATUS_SUCCESS ∧ parts' = parts ∧ num' = num
   ∧ (status = STATUS_OUT_OF_MEMORY ∨ status = STATUS_ERROR))
  ∨ (status = STATUS_SUCCESS
     ∧ ∃ m0 entries m1,
         dev_read dev
           (u64 (Gpt.partition_entry_lba header * block_size dev))
           (u32 (Gpt.num_partition_entries header
                 * Gpt.partition_entry_size header)) m0
         = ((STATUS_SUCCESS, entries), m1)
         ∧ (parts', num')
           = Gpt.collect_partitions header entries
               (checked_status header entries)
               (seq 0 (Z.to_nat (Gpt.num_partition_entries header)))
               parts 0 max_partitions).
Proof.
  unfold Gpt.enumerate_partitions. cbn zeta. unfold bind at 1.
  destruct (alloc plat _ m) as [ok m0]. destruct ok; cbn [negb].
  2:{ destruct (cleanup_outcome 3 m0 _ (STATUS_OUT_OF_MEMORY, parts, num))
        as [mc ->].
      intros [= <- <- <- _]. left. repeat split; try done. by left. }
  unfold bind at 1.
  destruct (dev_read dev _ _ m0) as [[st entries] m1] eqn:Hread.
  destruct (status_eqb st STATUS_SUCCESS) eqn:Hst; cbn [negb].
  2:{ destruct (cleanup_outcome 4 m1 _ (STATUS_ERROR, parts, num))
        as [mc ->].
      intros [= <- <- <- _]. left. repeat split; try done. by right. }
  apply status_eqb_eq in Hst. subst st.
  unfold bind at 1.
  destruct (alloc_zero plat _ m1) as [ok m2]. destruct ok; cbn [negb].
  2:{ destruct (cleanup_outcome 4 m2 _ (STATUS_OUT_OF_MEMORY, parts, num))
        as [mc ->].
      intros [= <- <- <- _]. left. repeat split; try done. by left. }
  fold (checked_status header entries).
  destruct (Gpt.collect_partitions header entries _ _ parts 0 max_partitions)
    as [parts1 count] eqn:Hcollect.
  destruct (cleanup_outcome 5 m2 _ (STATUS_SUCCESS, parts1, count))
    as [mc ->].
  intros [= <- <- <- _]. right. split; [done|].
  exists m0, entries, m1. done.
Qed.



End GptEnumeration.

Lemma reported_index_facts header entries max_partitions i :
  i ∈ reported_indices header entries max_partitions →
  (i < Z.to_nat (Gpt.num_partition_entries header))%nat
  ∧ entry_used header entries i = true
  ∧ entry_in_range header entries i = true
  ∧ flagged_overlap header entries i = false.
Proof.
  unfold reported_indices. intros Hi.
  apply elem_of_take in Hi as (k & Hk & _).
  apply list_elem_of_lookup_2, list_elem_of_filter in Hk as [Hrep Hin].
  apply elem_of_seq in Hin. unfold entry_reported in Hrep.
  apply negb_true_iff in Hrep.
  apply orb_false_elim in Hrep as [Hrep Hos].
  apply orb_false_elim in Hrep as [Hrep Hov].
  apply orb_false_elim in Hrep as [Hun Hoor].
  assert (entry_used header entries i = true) as Hused
    by (unfold entry_used; by rewrite Hun).
  split; [lia|]. split; [done|]. split; [|done].
  rewrite flagged_out_of_range_spec in Hoor.
  rewrite Hused, bool_decide_eq_true_2 in Hoor by lia.
  cbn [andb] in Hoor. by apply negb_false_iff in Hoor.
Qed.

(** Any two partitions reported from one entry array are disjoint, and
    each lies inside the usable range of the header, start before
    end. *)
Theorem reported_partitions_are_disjoint header entries max_partitions i j :
  i ∈ reported_indices header entries max_partitions →
  j ∈ reported_indices header entries max_partitions →
  i ≠ j →
  let a := Gpt.entry_at header entries i in
  let b := Gpt.entry_at header entries j in
  (Gpt.first_usable_lba header <= Gpt.starting_lba a
   ∧ Gpt.starting_lba a <= Gpt.ending_lba a
   ∧ Gpt.ending_lba a <= Gpt.last_usable_lba header)
  ∧ (Gpt.ending_lba a < Gpt.starting_lba b
     ∨ Gpt.ending_lba b < Gpt.starting_lba a).
Proof.
  intros Hi Hj Hne a b.
  apply reported_index_facts in Hi as (Hin & Hiu & Hir & Hio).
  apply reported_index_facts in Hj as (Hjn & Hju & Hjr & Hjo).
  split.
  - unfold entry_in_range, Gpt.entry_out_of_range in Hir. fold a in Hir.
    apply negb_true_iff in Hir.
    repeat (apply orb_false_elim in Hir as [Hir ?]).
    repeat match goal with H : (_ <? _) = false |- _ =>
             apply Z.ltb_ge in H end.
    lia.
  - destruct (pair_test header entries i j) eqn:Hp.
    + exfalso. destruct (decide (i < j)%nat).
      * assert (flagged_overlap header entries i = true) as Hf; [|congruence].
        apply flagged_overlap_iff. exists i, j. split; [|by left].
        repeat split; done || lia.
      * assert (flagged_overlap header entries i = true) as Hf; [|congruence].
        apply flagged_overlap_iff. exists j, i. split; [|by right].
        rewrite pair_test_sym in Hp. repeat split; done || lia.
    + unfold pair_test in Hp. fold a b in Hp.
      apply andb_false_iff in Hp as [Hp|Hp]; apply Z.leb_gt in Hp; lia.
Qed.

Lemma reported_partitions_are_disjoint_witness :
  reported_indices (primary_header_of gpt_disk) plain_entries 4
  = [0; 1]%nat
  ∧ (let a := Gpt.entry_at (primary_header_of gpt_disk) plain_entries 0 in
     let b := Gpt.entry_at (primary_header_of gpt_disk) plain_entries 1 in
     (Gpt.first_usable_lba (primary_header_of gpt_disk) <= Gpt.starting_lba a
      ∧ Gpt.starting_lba a <= Gpt.ending_lba a
      ∧ Gpt.ending_lba a <= Gpt.last_usable_lba (primary_header_of gpt_disk))
     ∧ (Gpt.ending_lba a < Gpt.starting_lba b
        ∨ Gpt.ending_lba b < Gpt.starting_lba a)).
Proof.
  assert (reported_indices (primary_header_of gpt_disk) plain_entries 4
          = [0; 1]%nat) as Hidx by (vm_compute; reflexivity).
  split; [exact Hidx|].
  apply (reported_partitions_are_disjoint (primary_header_of gpt_disk)
           plain_entries 4 0 1).
  - rewrite Hidx. left.
  - rewrite Hidx. right. left.
  - lia.
Defined.


(* ====================================================================== *)
(** ** [discover_gpt_partitions]: failures, and the MBR path *)

Section GptOutcomes.
Context {W : Type} (plat : platform_t W).

(** The ways through the first part of [discover_gpt_partitions]. *)
Lemma read_protective_mbr_cases dev m :
  (block_size dev < Layout.sizeof_master_boot_record_t
   ∧ Gpt.read_protective_mbr plat dev m = (Some STATUS_INVALID_PARAM, m))
  ∨ (Layout.sizeof_master_boot_record_t <= block_size dev
     ∧ ∃ m0,
         alloc plat (block_size dev) m = (false, m0)
         ∧ Gpt.read_protective_mbr plat dev m
           = (Some STATUS_OUT_OF_MEMORY, m0))
  ∨ (Layout.sizeof_master_boot_record_t <= block_size dev
     ∧ ∃ m0 st buf m1 mA,
         alloc plat (block_size dev) m = (true, m0)
         ∧ dev_read dev 0 (block_size dev) m0 = ((st, buf), m1)
         ∧ ((st ≠ STATUS_SUCCESS
             ∧ Gpt.read_protective_mbr plat dev m = (Some STATUS_ERROR, mA))
            ∨ (st = STATUS_SUCCESS
               ∧ Mbr.is_protective_mbr (Layout.as_mbr buf) = false
               ∧ Gpt.read_protective_mbr plat dev m
                 = (Some STATUS_NOT_FOUND, mA))
            ∨ (st = STATUS_SUCCESS
               ∧ Mbr.is_protective_mbr (Layout.as_mbr buf) = true
               ∧ (Gpt.read_protective_mbr plat dev m
                  = (Some STATUS_OUT_OF_MEMORY, mA)
                  ∨ Gpt.read_protective_mbr plat dev m = (None, mA))))).
Proof.
  unfold Gpt.read_protective_mbr, bind, ret. cbn zeta.
  destruct (Z.ltb_spec (block_size dev) Layout.sizeof_master_boot_record_t).
  { by left. }
  right. destruct (alloc plat _ m) as [ok m0] eqn:Ha. destruct ok; cbn [negb].
  2:{ left. split; [done|]. by exists m0. }
  right. split; [done|].
  destruct (dev_read dev 0 _ m0) as [[st buf] m1] eqn:Hr.
  destruct (status_eqb st STATUS_SUCCESS) eqn:Hst; cbn [negb].
  2:{ destruct (Gpt.cleanup plat 1 m1) as [u mA].
      exists m0, st, buf, m1, mA. split; [done|]. split; [done|]. left.
      split; [|done]. intros ->. discriminate. }
  apply status_eqb_eq in Hst. subst st.
  change (existsb _ (seq 0 (Z.to_nat Gpt.MAX_MBR_PARTITIONS)))
    with (Mbr.is_protective_mbr (Layout.as_mbr buf)).
  destruct (Mbr.is_protective_mbr (Layout.as_mbr buf)) eqn:Hp; cbn [negb].
  2:{ destruct (Gpt.cleanup plat 1 m1) as [u mA].
      exists m0, STATUS_SUCCESS, buf, m1, mA. split; [done|]. split; [done|].
      right. left. done. }
  destruct (alloc_zero plat _ m1) as [ok1 m2].
  destruct (alloc_zero plat _ m2) as [ok2 m3].
  destruct (negb ok1 || negb ok2).
  - destruct (Gpt.cleanup plat _ m3) as [u mA].
    exists m0, STATUS_SUCCESS, buf, m1, mA. split; [done|]. split; [done|].
    right. right. split; [done|]. split; [done|]. by left.
  - exists m0, STATUS_SUCCESS, buf, m1, m3. split; [done|]. split; [done|].
    right. right. split; [done|]. split; [done|]. by right.
Qed.

Lemma read_protective_mbr_status dev m status mA :
  Gpt.read_protective_mbr plat dev m = (Some status, mA) →
  status = STATUS_INVALID_PARAM ∨ status = STATUS_OUT_OF_MEMORY
  ∨ status = STATUS_ERROR ∨ status = STATUS_NOT_FOUND.
Proof.
  intros H.
  destruct (read_protective_mbr_cases dev m)
    as [[_ E]|[(_ & m0 & _ & E)
              |(_ & m0 & st & buf & m1 & mA' & _ & _
                & [[_ E]|[(_ & _ & E)|(_ & _ & [E|E])]])]];
    rewrite E in H; try discriminate; injection H as Hs _; subst status;
    auto.
Qed.

(** Whatever [discover_gpt_partitions] returns other than
    [STATUS_SUCCESS], the caller's array and [*num_partitions] are as
    they were, and the status is one of [STATUS_INVALID_PARAM],
    [STATUS_OUT_OF_MEMORY], [STATUS_ERROR] and [STATUS_NOT_FOUND]: a
    checksum mismatch, an overlap or an entry out of range is never
    reported by a status of its own. *)
Theorem discover_gpt_partitions_failure dev parts num max_partitions m
        status parts' num' m' :
  Gpt.discover_gpt_partitions plat dev parts num max_partitions m
  = ((status, parts', num'), m') →
  status ≠ STATUS_SUCCESS →
  parts' = parts ∧ num' = num
  ∧ (status = STATUS_INVALID_PARAM ∨ status = STATUS_OUT_OF_MEMORY
     ∨ status = STATUS_ERROR ∨ status = STATUS_NOT_FOUND).
Proof.
  intros Hrun Hne. rewrite discover_gpt_partitions_eq in Hrun.
  destruct (Gpt.read_protective_mbr plat dev m) as [[st|] mA] eqn:Hearly.
  { injection Hrun as <- <- <- _.
    apply read_protective_mbr_status in Hearly. done. }
  destruct (Gpt.validate_both_copies plat dev _ _ mA)
    as [[[[pv bv] ph] bh] mB].
  destruct (negb pv && negb bv).
  { destruct (cleanup_outcome plat 3 mB _ (STATUS_NOT_FOUND, parts, num))
      as [mc Hc]. rewrite Hc in Hrun. injection Hrun as <- <- <- _.
    split; [done|]. split; [done|]. auto 10. }
  apply enumerate_partitions_result in Hrun
    as [(_ & -> & -> & Hst)|(-> & _)]; [|done].
  split; [done|]. split; [done|]. destruct Hst as [-> | ->]; auto 10.
Qed.

(** The two discovery routines exclude each other.  Started on the
    same machine they read the same block 0; where the MBR routine
    succeeds, the GPT routine finds no protective entry and returns
    [STATUS_NOT_FOUND], and where the GPT routine succeeds, the MBR
    routine returns [STATUS_NOT_FOUND] (or [STATUS_INVALID_PARAM], for
    its own arguments), whatever the fuel. *)
Theorem discovery_routines_exclude_each_other fuel dev mbr_parts mbr_num
        mbr_max gpt_parts gpt_num gpt_max m :
  (∀ parts' num' m',
     Mbr.discover_mbr_partitions plat fuel (Some dev) mbr_parts mbr_num
                                 mbr_max m
     = Some (STATUS_SUCCESS, parts', num', m') →
     fst (fst (fst (Gpt.discover_gpt_partitions plat dev gpt_parts gpt_num
                                                gpt_max m)))
     = STATUS_NOT_FOUND)
  ∧ (fst (fst (fst (Gpt.discover_gpt_partitions plat dev gpt_parts gpt_num
                                                gpt_max m)))
     = STATUS_SUCCESS →
     ∃ status m',
       Mbr.discover_mbr_partitions plat fuel (Some dev) mbr_parts mbr_num
                                   mbr_max m
       = Some (status, mbr_parts, mbr_num, m')
       ∧ (status = STATUS_NOT_FOUND ∨ status = STATUS_INVALID_PARAM)).
Proof.
  destruct (read_protective_mbr_cases dev m)
    as [[Hbs E]|[(Hbs & m0 & Ha & E)
              |(Hbs & m0 & st & buf & m1 & mA & Ha & Hr & Hcase)]].
  - (* block size below 512: both routines refuse *)
    split.
    + intros parts' num' m' Hmbr.
      rewrite discover_mbr_partitions_small_block in Hmbr by done.
      discriminate.
    + rewrite discover_gpt_partitions_eq, E. discriminate.
  - (* no buffer for block 0 *)
    split.
    + intros parts' num' m' Hmbr. unfold Mbr.discover_mbr_partitions in Hmbr.
      destruct mbr_parts as [parts|], mbr_num as [num|]; try discriminate.
      destruct (mbr_max =? 0); [discriminate|].
      destruct (block_size dev <? Layout.sizeof_master_boot_record_t);
        [discriminate|].
      rewrite Ha in Hmbr. discriminate.
    + rewrite discover_gpt_partitions_eq, E. discriminate.
  - split.
    + intros parts' num' m' Hmbr. unfold Mbr.discover_mbr_partitions in Hmbr.
      destruct mbr_parts as [parts|], mbr_num as [num|]; try discriminate.
      destruct (mbr_max =? 0); [discriminate|].
      destruct (block_size dev <? Layout.sizeof_master_boot_record_t);
        [discriminate|].
      rewrite Ha in Hmbr. cbn [negb] in Hmbr. rewrite Hr in Hmbr.
      destruct (status_eqb st STATUS_SUCCESS) eqn:Hst; cbn [negb] in Hmbr.
      2:{ injection Hmbr as -> _ _ _. discriminate. }
      apply status_eqb_eq in Hst.
      destruct (Mbr.validate_mbr (Layout.as_mbr buf)); cbn [negb] in Hmbr;
        [|discriminate].
      destruct (Mbr.is_protective_mbr (Layout.as_mbr buf)) eqn:Hp;
        [discriminate|].
      rewrite discover_gpt_partitions_eq.
      destruct Hcase as [[Hne _]|[(_ & _ & E)|(_ & Hp' & _)]];
        [done| |congruence].
      rewrite E. reflexivity.
    + intros Hgpt. rewrite discover_gpt_partitions_eq in Hgpt.
      destruct Hcase as [[_ E]|[(_ & _ & E)|(Hst & Hp & HE)]];
        [rewrite E in Hgpt; discriminate..|].
      subst st. unfold Mbr.discover_mbr_partitions.
      destruct mbr_parts as [parts|], mbr_num as [num|]; eauto.
      destruct (mbr_max =? 0); [eauto|].
      destruct (Z.ltb_spec (block_size dev)
                           Layout.sizeof_master_boot_record_t); [lia|].
      rewrite Ha. cbn [negb]. rewrite Hr. cbn [status_eqb negb]. rewrite Hp.
      destruct (Mbr.validate_mbr (Layout.as_mbr buf)); cbn [negb]; eauto.
Qed.

End GptOutcomes.

Lemma discover_gpt_partitions_failure_witness :
  ∃ status parts' num' m',
    Gpt.discover_gpt_partitions ram_platform (ram_disk 4)
      (replicate 2 blank_gpt_info) 7 2 (boot protective_disk)
    = ((status, parts', num'), m')
    ∧ status = STATUS_NOT_FOUND
    ∧ parts' = replicate 2 blank_gpt_info ∧ num' = 7
    ∧ (status = STATUS_INVALID_PARAM ∨ status = STATUS_OUT_OF_MEMORY
       ∨ status = STATUS_ERROR ∨ status = STATUS_NOT_FOUND).
Proof.
  match eval vm_compute in
        (Gpt.discover_gpt_partitions ram_platform (ram_disk 4)
           (replicate 2 blank_gpt_info) 7 2 (boot protective_disk)) with
  | ((?st, ?p, ?n), ?m) =>
    assert (Gpt.discover_gpt_partitions ram_platform (ram_disk 4)
              (replicate 2 blank_gpt_info) 7 2 (boot protective_disk)
            = ((st, p, n), m)) as Hrun by (vm_compute; reflexivity);
    exists st, p, n, m; split; [exact Hrun|]; split; [reflexivity|];
    exact (discover_gpt_partitions_failure ram_platform _ _ _ _ _ _ _ _ _
             Hrun ltac:(discriminate))
  end.
Defined.

Lemma discovery_routines_exclude_each_other_witness :
  (∃ parts' num' m',
     Mbr.discover_mbr_partitions ram_platform 3 (Some (ram_disk 20))
       (Some (replicate 8 blank_info)) (Some 0) 8 (boot chained_disk)
     = Some (STATUS_SUCCESS, parts', num', m')
     ∧ fst (fst (fst (Gpt.discover_gpt_partitions ram_platform (ram_disk 20)
                        (replicate 4 blank_gpt_info) 0 4
                        (boot chained_disk))))
       = STATUS_NOT_FOUND)
  ∧ fst (fst (fst (Gpt.discover_gpt_partitions ram_platform (ram_disk 12)
                     (replicate 4 blank_gpt_info) 0 4 (boot gpt_disk))))
    = STATUS_SUCCESS
  ∧ ∃ status m',
      Mbr.discover_mbr_partitions ram_platform 3 (Some (ram_disk 12))
        (Some (replicate 8 blank_info)) (Some 0) 8 (boot gpt_disk)
      = Some (status, Some (replicate 8 blank_info), Some 0, m')
      ∧ (status = STATUS_NOT_FOUND ∨ status = STATUS_INVALID_PARAM).
Proof.
  split; [|split].
  - match eval vm_compute in
          (Mbr.discover_mbr_partitions ram_platform 3 (Some (ram_disk 20))
             (Some (replicate 8 blank_info)) (Some 0) 8 (boot chained_disk))
    with
    | Some (_, ?p, ?n, ?m) =>
      assert (Mbr.discover_mbr_partitions ram_platform 3 (Some (ram_disk 20))
                (Some (replicate 8 blank_info)) (Some 0) 8 (boot chained_disk)
              = Some (STATUS_SUCCESS, p, n, m)) as Hrun
        by (vm_compute; reflexivity);
      exists p, n, m; split; [exact Hrun|];
      exact (proj1 (discovery_routines_exclude_each_other ram_platform 3
                      (ram_disk 20) (Some (replicate 8 blank_info)) (Some 0) 8
                      (replicate 4 blank_gpt_info) 0 4 (boot chained_disk))
                   p n m Hrun)
    end.
  - vm_compute. reflexivity.
  - apply (proj2 (discovery_routines_exclude_each_other ram_platform 3
                    (ram_disk 12) (Some (replicate 8 blank_info)) (Some 0) 8
                    (replicate 4 blank_gpt_info) 0 4 (boot gpt_disk))).
    vm_compute. reflexivity.
Defined.

(* ====================================================================== *)
(** ** The GPT search helpers *)

Lemma names_match_eq name pname :
  Forall (fun c => c ≠ 0) name → Forall (fun c => c ≠ 0) pname →
  Gpt.names_match name pname = true ↔ name = pname.
Proof.
  revert pname. induction name as [|c name IH]; intros [|d pname] Hn Hp;
    cbn [Gpt.names_match].
  - done.
  - apply Forall_cons in Hp as [Hd _].
    destruct (Z.eqb_spec d 0); [done|]. split; discriminate.
  - apply Forall_cons in Hn as [Hc _].
    destruct (Z.eqb_spec c 0); [done|]. split; discriminate.
  - apply Forall_cons in Hn as [Hc Hn]. apply Forall_cons in Hp as [Hd Hp].
    destruct (Z.eqb_spec c 0); [done|]. destruct (Z.eqb_spec d 0); [done|].
    cbn [negb andb]. destruct (Z.eqb_spec c d) as [->|Hne].
    + rewrite IH by done. split; [by intros ->|by intros [= ->]].
    + split; [discriminate|]. intros [= -> _]. done.
Qed.

Lemma gpt_first_match_spec test parts slots :
  match Gpt.first_match test parts slots with
  | Some i =>
    ∃ before after, slots = before ++ i :: after
      ∧ (∃ p, parts !! i = Some p ∧ test p = true)
      ∧ ∀ j q, j ∈ before → parts !! j = Some q → test q = false
  | None => ∀ j q, j ∈ slots → parts !! j = Some q → test q = false
  end.
Proof.
  induction slots as [|i rest IH]; cbn [Gpt.first_match].
  - intros j q Hin. by apply elem_of_nil in Hin.
  - destruct (parts !! i) as [p|] eqn:Hp.
    + destruct (test p) eqn:Ht.
      * exists [], rest. split; [done|]. split; [by exists p|].
        intros j q Hin. by apply elem_of_nil in Hin.
      * destruct (Gpt.first_match test parts rest) as [k|].
        -- destruct IH as (before & after & -> & Hk & Hb).
           exists (i :: before), after. split; [done|]. split; [done|].
           intros j q Hin Hq. apply elem_of_cons in Hin as [->|Hin];
             [congruence|by eapply Hb].
        -- intros j q Hin Hq. apply elem_of_cons in Hin as [->|Hin];
             [congruence|by eapply IH].
    + destruct (Gpt.first_match test parts rest) as [k|].
      * destruct IH as (before & after & -> & Hk & Hb).
        exists (i :: before), after. split; [done|]. split; [done|].
        intros j q Hin Hq. apply elem_of_cons in Hin as [->|Hin];
          [congruence|by eapply Hb].
      * intros j q Hin Hq. apply elem_of_cons in Hin as [->|Hin];
          [congruence|by eapply IH].
Qed.

Lemma gpt_first_match_seq test parts num :
  match Gpt.first_match test parts (seq 0 (Z.to_nat num)) with
  | Some i => first_passing test parts num i
  | None => none_passing test parts num
  end.
Proof.
  pose proof (gpt_first_match_spec test parts (seq 0 (Z.to_nat num))) as H.
  destruct (Gpt.first_match _ _ _) as [i|].
  - destruct H as (before & after & Hs & Hp & Hb).
    apply seq_split_at in Hs as [Hi ->].
    split; [lia|]. split; [done|].
    intros j q Hj. apply Hb, elem_of_seq. lia.
  - intros j q Hj. apply H, elem_of_seq. lia.
Qed.

(** [find_partition_by_name] compares whole names: among descriptors
    whose names hold no NUL (every name the discovery stores is such),
    it returns the first of the first [num_partitions] whose name is
    exactly the one asked for, and NULL when there is none; a name of
    which the wanted one is only a prefix does not match. *)
Theorem find_partition_by_name_exact parts num_partitions name :
  Forall (fun c => c ≠ 0) name →
  Forall (fun p => Forall (fun c => c ≠ 0) (Gpt.name p)) parts →
  match Gpt.find_partition_by_name parts num_partitions name with
  | Some i =>
    Z.of_nat i < num_partitions
    ∧ (∃ p, parts !! i = Some p ∧ Gpt.name p = name)
    ∧ ∀ (j : nat) q, (j < i)%nat → parts !! j = Some q → Gpt.name q ≠ name
  | None =>
    ∀ (j : nat) q, Z.of_nat j < num_partitions → parts !! j = Some q →
      Gpt.name q ≠ name
  end.
Proof.
  intros Hname Hparts.
  assert (∀ (j : nat) q, parts !! j = Some q →
            Gpt.has_name name q = true ↔ Gpt.name q = name) as Hiff.
  { intros j q Hq. unfold Gpt.has_name. rewrite names_match_eq; [done..|].
    exact (proj1 (Forall_lookup _ _) Hparts j q Hq). }
  pose proof (gpt_first_match_seq (Gpt.has_name name) parts num_partitions)
    as H.
  unfold Gpt.find_partition_by_name.
  destruct (Gpt.first_match _ _ _) as [i|].
  - destruct H as (Hi & (p & Hp & Ht) & Hb). split; [done|]. split.
    + exists p. split; [done|]. by apply (Hiff i p Hp).
    + intros j q Hj Hq Heq. apply (Hiff j q Hq) in Heq.
      rewrite (Hb j q Hj Hq) in Heq. discriminate.
  - intros j q Hj Hq Heq. apply (Hiff j q Hq) in Heq.
    rewrite (H j q Hj Hq) in Heq. discriminate.
Qed.

Lemma find_partition_by_name_exact_witness :
  Forall (fun c => c ≠ 0) [98; 111; 111; 116]
  ∧ map Gpt.name named_infos = [[98; 111; 111; 116; 63]; [98; 111; 111; 116]]
  ∧ Gpt.find_partition_by_name named_infos 2 [98; 111; 111; 116]
    = Some 1%nat
  ∧ Z.of_nat 1 < 2
  ∧ (∃ p, named_infos !! 1%nat = Some p ∧ Gpt.name p = [98; 111; 111; 116])
  ∧ ∀ (j : nat) q, (j < 1)%nat → named_infos !! j = Some q →
      Gpt.name q ≠ [98; 111; 111; 116].
Proof.
  assert (Forall (fun c => c ≠ 0) [98; 111; 111; 116]) as Hname
    by (repeat constructor; discriminate).
  assert (Forall (fun p => Forall (fun c => c ≠ 0) (Gpt.name p)) named_infos)
    as Hparts.
  { apply Forall_forall. intros p Hp. apply Forall_forall. intros c Hc.
    unfold named_infos in Hp. apply list_elem_of_fmap in Hp as (i & -> & _).
    unfold Gpt.gpt_partition_info in Hc. cbn [Gpt.name] in Hc.
    pose proof (proj2 (utf16_to_ascii_bounds (named_entry ++ boot_entry)
                         (u32 (Z.of_nat i
                               * Gpt.partition_entry_size (range_header 2))
                          + 56)
                         (Z.to_nat (Gpt.sizeof_name - 1)))) as Hascii.
    pose proof (proj1 (Forall_forall _ _) Hascii c Hc). cbv beta in *. lia. }
  assert (Gpt.find_partition_by_name named_infos 2 [98; 111; 111; 116]
          = Some 1%nat) as Hfind by (vm_compute; reflexivity).
  split; [exact Hname|]. split; [vm_compute; reflexivity|].
  split; [exact Hfind|].
  pose proof (find_partition_by_name_exact named_infos 2 [98; 111; 111; 116]
                Hname Hparts) as H.
  rewrite Hfind in H. exact H.
Defined.

(* ====================================================================== *)
(** ** Instances of the statements about validation, restoration and
       allocation *)

Lemma validate_gpt_table_complete_witness :
  ∃ m0 header m1 m2 entries m3,
    alloc_zero ram_platform (block_size (ram_disk 12)) (boot gpt_disk)
    = (true, m0)
    ∧ dev_read (ram_disk 12) (u64 (1 * block_size (ram_disk 12)))
               (block_size (ram_disk 12)) m0
      = ((STATUS_SUCCESS, header), m1)
    ∧ Gpt.signature header = Gpt.GPT_HEADER_SIGNATURE
    ∧ Gpt.my_lba header = 1
    ∧ dev_read (ram_disk 12)
        (u64 (Gpt.partition_entry_lba header * block_size (ram_disk 12)))
        (u32 (Gpt.num_partition_entries header
              * Gpt.partition_entry_size header)) m2
      = ((STATUS_SUCCESS, entries), m3)
    ∧ Gpt.validate_gpt_table ram_platform (ram_disk 12) 1
        (zero_buffer Gpt.sizeof_gpt_header_t) (boot gpt_disk)
      = ((true, memcpy (zero_buffer Gpt.sizeof_gpt_header_t)
                       (Gpt.set_header_crc (Gpt.header_size header) header)
                       Gpt.sizeof_gpt_header_t),
         snd (free ram_platform (snd (free ram_platform m3)))).
Proof.
  set (dev := ram_disk 12).
  set (m0 := boot gpt_disk).
  set (r1 := dev_read dev (u64 (1 * block_size dev)) (block_size dev) m0).
  set (header := snd (fst r1)). set (m1 := snd r1).
  assert (alloc_zero ram_platform (block_size dev) (boot gpt_disk)
          = (true, m0)) as Ha0 by reflexivity.
  assert (r1 = ((STATUS_SUCCESS, header), m1)) as Hr1
    by (vm_compute; reflexivity).
  set (entries_size := u32 (Gpt.num_partition_entries header
                            * Gpt.partition_entry_size header)).
  set (r3 := dev_read dev
               (u64 (Gpt.partition_entry_lba header * block_size dev))
               entries_size m1).
  set (entries := snd (fst r3)). set (m3 := snd r3).
  assert (alloc ram_platform entries_size m1 = (true, m1)) as Ha2
    by (vm_compute; reflexivity).
  assert (r3 = ((STATUS_SUCCESS, entries), m3)) as Hr3
    by (vm_compute; reflexivity).
  assert (Gpt.signature header = Gpt.GPT_HEADER_SIGNATURE) as Hsig
    by (vm_compute; reflexivity).
  assert (Gpt.my_lba header = 1) as Hlba by (vm_compute; reflexivity).
  exists m0, header, m1, m1, entries, m3.
  split; [exact Ha0|]. split; [exact Hr1|]. split; [exact Hsig|].
  split; [exact Hlba|]. split; [exact Hr3|].
  apply (validate_gpt_table_complete ram_platform dev 1
           (zero_buffer Gpt.sizeof_gpt_header_t) (boot gpt_disk) m0 header m1
           m1 entries m3 Ha0 Hr1 Hsig).
  - vm_compute. discriminate.
  - right. vm_compute. discriminate.
  - vm_compute. reflexivity.
  - exact Hlba.
  - vm_compute. discriminate.
  - exact Ha2.
  - exact Hr3.
  - vm_compute. reflexivity.
Defined.

Lemma restore_gpt_table_header_write_fails_witness :
  ∃ status m1,
    alloc_zero ram_platform (block_size (ram_disk 12)) (boot short_gpt_disk)
    = (true, boot short_gpt_disk)
    ∧ dev_write (ram_disk 12)
        (u64 (Gpt.my_lba (Gpt.restored_header (block_size (ram_disk 12))
                            (primary_header_of gpt_disk))
              * block_size (ram_disk 12)))
        (block_size (ram_disk 12))
        (Gpt.restored_header (block_size (ram_disk 12))
           (primary_header_of gpt_disk))
        (boot short_gpt_disk)
      = (status, m1)
    ∧ status = STATUS_ERROR
    ∧ Gpt.restore_gpt_table ram_platform (ram_disk 12)
        (primary_header_of gpt_disk) (boot short_gpt_disk)
      = (false, snd (free ram_platform m1))
    ∧ length (io_log (snd (free ram_platform m1))) = 1%nat.
Proof.
  set (bs := block_size (ram_disk 12)).
  set (new_header := Gpt.restored_header bs (primary_header_of gpt_disk)).
  set (r := dev_write (ram_disk 12) (u64 (Gpt.my_lba new_header * bs)) bs
              new_header (boot short_gpt_disk)).
  assert (alloc_zero ram_platform bs (boot short_gpt_disk)
          = (true, boot short_gpt_disk)) as Ha by reflexivity.
  assert (r = (STATUS_ERROR, snd r)) as Hw by (vm_compute; reflexivity).
  exists STATUS_ERROR, (snd r).
  split; [exact Ha|]. split; [exact Hw|]. split; [reflexivity|].
  destruct (restore_gpt_table_header_write_fails ram_platform (ram_disk 12)
              (primary_header_of gpt_disk) (boot short_gpt_disk)
              (boot short_gpt_disk) STATUS_ERROR (snd r) Ha Hw
              ltac:(discriminate)) as [Hres Hlog].
  split; [exact Hres|]. rewrite Hlog. reflexivity.
Defined.

Lemma discover_without_memory_witness :
  (∀ size w, fst (alloc_pool null_platform size w) = false)
  ∧ ∃ m',
      io_log m' = io_log (boot gpt_disk)
      ∧ Gpt.discover_gpt_partitions null_platform (ram_disk 12)
          (replicate 4 blank_gpt_info) 0 4 (boot gpt_disk)
        = ((STATUS_OUT_OF_MEMORY, replicate 4 blank_gpt_info, 0), m')
      ∧ Mbr.discover_mbr_partitions null_platform 3 (Some (ram_disk 12))
          (Some (replicate 8 blank_info)) (Some 0) 8 (boot gpt_disk)
        = Some (STATUS_OUT_OF_MEMORY, Some (replicate 8 blank_info), Some 0,
                m').
Proof.
  assert (∀ size w, fst (alloc_pool null_platform size w) = false) as Hnull
    by reflexivity.
  split; [exact Hnull|].
  apply (discover_without_memory null_platform 3 (ram_disk 12)
           (replicate 4 blank_gpt_info) 0 (replicate 8 blank_info) 0 8
           (boot gpt_disk) Hnull).
  - vm_compute. discriminate.
  - lia.
Defined.

(* ====================================================================== *)
(** ** partition_aarch64.c: partition devices *)

Section PartitionDevices.
Context {W : Type}.

(** The two outcomes of a transfer of at least one block whose last
    block address, counted on the parent, is below 2^64. *)
Lemma partition_transfer_cases (part_dev : Partition.partition_device_t W)
      lba count buffer w :
  let start := Partition.start_lba (Partition.info part_dev) in
  let stop := Partition.end_lba (Partition.info part_dev) in
  0 <= start → 0 <= lba → 1 <= count →
  start + lba + count - 1 < 2 ^ 64 →
  if start + lba + count - 1 <=? stop then
    Partition.partition_read_blocks part_dev lba count w
    = Partition.read_blocks (Partition.parent part_dev) (start + lba) count w
    ∧ Partition.partition_write_blocks part_dev lba count buffer w
      = Partition.write_blocks (Partition.parent_writer part_dev)
          (start + lba) count buffer w
    ∧ start <= start + lba
  else
    Partition.partition_read_blocks part_dev lba count w
    = (STATUS_INVALID_PARAM, [], w)
    ∧ Partition.partition_write_blocks part_dev lba count buffer w
      = (STATUS_INVALID_PARAM, w).
Proof.
  intros start stop Hs Hl Hc Hw.
  unfold Partition.partition_read_blocks, Partition.partition_write_blocks.
  fold start stop.
  assert (u64 (start + lba) = start + lba) as ->
    by (unfold u64; apply Z.mod_small; lia).
  assert (u64 (start + lba + count - 1) = start + lba + count - 1) as ->
    by (unfold u64; apply Z.mod_small; lia).
  destruct (Z.leb_spec (start + lba + count - 1) stop);
    destruct (Z.ltb_spec stop (start + lba + count - 1)); try lia.
  - split; [done|]. split; [done|lia].
  - done.
Qed.

(** Without that proviso the bounds check does not hold the transfer
    inside the partition: [start_lba + lba] is a 64-bit sum, and for a
    partition that does not start at block 0 the block address
    [2^64 - start_lba] passes the check and reaches block 0 of the
    parent. *)
Theorem partition_bounds_check_wraps (part_dev : Partition.partition_device_t W)
        w :
  0 < Partition.start_lba (Partition.info part_dev) < 2 ^ 64 →
  0 <= Partition.end_lba (Partition.info part_dev) →
  Partition.partition_read_blocks part_dev
    (2 ^ 64 - Partition.start_lba (Partition.info part_dev)) 1 w
  = Partition.read_blocks (Partition.parent part_dev) 0 1 w.
Proof.
  intros Hs He. unfold Partition.partition_read_blocks.
  replace (Partition.start_lba (Partition.info part_dev)
           + (2 ^ 64 - Partition.start_lba (Partition.info part_dev)))
    with (2 ^ 64) by lia.
  change (u64 (2 ^ 64)) with 0. change (u64 (0 + 1 - 1)) with 0.
  destruct (Z.ltb_spec (Partition.end_lba (Partition.info part_dev)) 0);
    [lia|done].
Qed.

(** The device [create_partition_device] builds for a descriptor with
    [size_sectors = end_lba - start_lba + 1] has the size and block
    size of the descriptor.  A read or write of at least one block
    that fits that size is the parent's, moved up by [start_lba]; one
    that does not is refused with [STATUS_INVALID_PARAM] and the parent
    is not called.  ([start_lba + lba + count - 1] is taken below 2^64.) *)
Theorem created_device_accepts_what_fits (plat : platform_t W) parent
        parent_writer info m part_dev m' lba count buffer w :
  Partition.create_partition_device plat parent parent_writer info m
  = (Some part_dev, m') →
  0 <= Partition.start_lba info →
  Partition.size_sectors info
  = Partition.end_lba info - Partition.start_lba info + 1 →
  0 <= lba → 1 <= count →
  Partition.start_lba info + lba + count - 1 < 2 ^ 64 →
  Partition.total_sectors (Partition.block_dev part_dev)
  = Partition.size_sectors info
  ∧ Partition.block_size (Partition.block_dev part_dev)
    = Partition.info_block_size info
  ∧ Partition.read_blocks (Partition.block_dev part_dev) lba count w
    = (if lba + count <=? Partition.total_sectors (Partition.block_dev part_dev)
       then Partition.read_blocks parent (Partition.start_lba info + lba)
                                  count w
       else (STATUS_INVALID_PARAM, [], w))
  ∧ Partition.write_blocks (Partition.block_writer part_dev) lba count
                           buffer w
    = (if lba + count <=? Partition.total_sectors (Partition.block_dev part_dev)
       then Partition.write_blocks parent_writer
              (Partition.start_lba info + lba) count buffer w
       else (STATUS_INVALID_PARAM, w)).
Proof.
  intros Hcreate Hs Hsize Hl Hc Hw.
  unfold Partition.create_partition_device, Partition.simple_malloc, bind, ret
    in Hcreate.
  destruct (alloc plat _ m) as [ok m0]. destruct ok; cbn [negb] in Hcreate;
    [|discriminate].
  injection Hcreate as <- _.
  cbn [Partition.block_dev Partition.block_writer Partition.total_sectors
       Partition.block_size Partition.read_blocks Partition.write_blocks
       Partition.info].
  split; [done|]. split; [done|].
  pose proof (partition_transfer_cases
                {| Partition.parent := parent;
                   Partition.parent_writer := parent_writer;
                   Partition.info := info |} lba count buffer w) as H.
  cbn zeta in H.
  cbn [Partition.info Partition.parent Partition.parent_writer] in H.
  specialize (H Hs Hl Hc Hw). rewrite Hsize.
  destruct (Z.leb_spec (Partition.start_lba info + lba + count - 1)
                       (Partition.end_lba info));
    destruct (Z.leb_spec (lba + count)
                (Partition.end_lba info - Partition.start_lba info + 1));
    try lia.
  - by destruct H as (-> & -> & _).
  - by destruct H as (-> & ->).
Qed.

(** A partition inside a partition: a transfer through the inner device
    is passed to the outermost parent moved up by both starts, and only
    when it ends inside both partitions. *)
Theorem nested_partition_transfers (outer inner : Partition.partition_device_t W)
        lba count w :
  Partition.parent inner = Partition.block_dev outer →
  let start1 := Partition.start_lba (Partition.info outer) in
  let start2 := Partition.start_lba (Partition.info inner) in
  0 <= start1 → 0 <= start2 → 0 <= lba → 1 <= count →
  start1 + start2 + lba + count - 1 < 2 ^ 64 →
  Partition.partition_read_blocks inner lba count w
  = if (start2 + lba + count - 1
        <=? Partition.end_lba (Partition.info inner))
       && (start1 + start2 + lba + count - 1
           <=? Partition.end_lba (Partition.info outer))
    then Partition.read_blocks (Partition.parent outer)
                               (start1 + start2 + lba) count w
    else (STATUS_INVALID_PARAM, [], w).
Proof.
  intros Hparent start1 start2 H1 H2 Hl Hc Hw.
  pose proof (partition_transfer_cases inner lba count [] w) as Hin.
  cbn zeta in Hin. fold start2 in Hin.
  specialize (Hin H2 Hl Hc ltac:(lia)).
  destruct (Z.leb_spec (start2 + lba + count - 1)
                       (Partition.end_lba (Partition.info inner)));
    cbn [andb]; [|by destruct Hin].
  destruct Hin as (-> & _ & _). rewrite Hparent.
  cbn [Partition.block_dev Partition.read_blocks].
  pose proof (partition_transfer_cases outer (start2 + lba) count [] w)
    as Hout.
  cbn zeta in Hout. fold start1 in Hout.
  specialize (Hout H1 ltac:(lia) Hc ltac:(lia)).
  replace (start1 + (start2 + lba) + count - 1)
    with (start1 + start2 + lba + count - 1) in Hout by lia.
  replace (start1 + (start2 + lba)) with (start1 + start2 + lba) in Hout
    by lia.
  destruct (Z.leb_spec (start1 + start2 + lba + count - 1)
                       (Partition.end_lba (Partition.info outer)));
    by destruct Hout.
Qed.

End PartitionDevices.

Lemma partition_bounds_check_wraps_witness :
  0 < Partition.start_lba (Partition.info outer_device) < 2 ^ 64
  ∧ 0 <= Partition.end_lba (Partition.info outer_device)
  ∧ Partition.partition_read_blocks outer_device (2 ^ 64 - 4) 1 chained_disk
    = (STATUS_SUCCESS, take 512 chained_disk, chained_disk).
Proof.
  split; [vm_compute; split; reflexivity|].
  split; [vm_compute; discriminate|].
  change (2 ^ 64 - 4)
    with (2 ^ 64 - Partition.start_lba (Partition.info outer_device)).
  rewrite (partition_bounds_check_wraps outer_device chained_disk).
  - vm_compute. reflexivity.
  - vm_compute. split; reflexivity.
  - vm_compute. discriminate.
Defined.

Lemma created_device_accepts_what_fits_witness :
  Partition.create_partition_device ram_platform (ram_block_disk 20 512)
    (ram_block_writer 512) (span_info 4 15) (boot chained_disk)
  = (Some outer_device, boot chained_disk)
  ∧ Partition.read_blocks (Partition.block_dev outer_device) 11 1 chained_disk
    = (STATUS_SUCCESS, take 512 (drop (15 * 512) chained_disk), chained_disk)
  ∧ Partition.read_blocks (Partition.block_dev outer_device) 11 2 chained_disk
    = (STATUS_INVALID_PARAM, [], chained_disk).
Proof.
  assert (Partition.create_partition_device ram_platform
            (ram_block_disk 20 512) (ram_block_writer 512) (span_info 4 15)
            (boot chained_disk)
          = (Some outer_device, boot chained_disk)) as Hcreate
    by (vm_compute; reflexivity).
  split; [exact Hcreate|]. split.
  - pose proof (created_device_accepts_what_fits ram_platform _ _ _ _ _ _
                  11 1 [] chained_disk Hcreate) as H.
    destruct H as (_ & _ & -> & _).
    + vm_compute. discriminate.
    + reflexivity.
    + lia.
    + lia.
    + vm_compute. reflexivity.
    + vm_compute. reflexivity.
  - vm_compute. reflexivity.
Defined.

Lemma nested_partition_transfers_witness :
  Partition.parent inner_device = Partition.block_dev outer_device
  ∧ Partition.partition_read_blocks inner_device 1 2 chained_disk
    = (STATUS_SUCCESS, take 1024 (drop (7 * 512) chained_disk), chained_disk)
  ∧ Partition.partition_read_blocks inner_device 3 2 chained_disk
    = (STATUS_INVALID_PARAM, [], chained_disk).
Proof.
  split; [reflexivity|]. split.
  - rewrite (nested_partition_transfers outer_device inner_device 1 2
               chained_disk).
    + vm_compute. reflexivity.
    + reflexivity.
    + vm_compute. discriminate.
    + vm_compute. discriminate.
    + lia.
    + lia.
    + vm_compute. reflexivity.
  - vm_compute. reflexivity.
Defined.

(* ====================================================================== *)
(** ** partition_aarch64.c: the MBR fallback and [discover_partitions] *)



Section PartitionFrontEnd.
Context {W : Type} (plat : platform_t W).





End PartitionFrontEnd.


